(** * Telephony WebSocket client (telephony/go/client.go)

    A shallow embedding of the Go client: the call registry
    [calls map[string]*Call], the pending table
    [pending map[string]chan map[string]interface{}], the request counter
    [nextReqID atomic.Uint64], and the operations that read and write them
    ([sendCommand], [readLoop], [handleEvent], [Dial], [Accept], [Hangup],
    [Close], [Connect]).

    - Go values that are shared by reference are kept in explicit stores:
      [*Call] pointers index [callStore], channels index [chanStore].
    - What the environment decides (what the transport returns, which case
      of a [select] fires, what [conn.Close] returns) is an argument of the
      function that consumes it.
    - What leaves the client (frames written, handler callbacks, closing the
      done-signal or the connection) and every write to the registry map is
      appended to [log], in order.
    - The handler is a value: [OnCallIncoming] computes its answer from the
      record it is shown and does not call back into the client.
    - One function of the model runs without interleaving.  The commands are
      also given section by section ([Op]), so that events can fall between
      the sections of a command as they do between goroutines. *)

From Stdlib Require Import Ascii.
From stdpp Require Import gmap strings list fin_maps pretty.

Set Warnings "-register-all".
Open Scope string_scope.
Open Scope list_scope.

(** ** JSON frames: [map[string]interface{}] *)

Inductive JVal :=
| JNull
| JBool (b : bool)
| JNum (n : Z)
| JStr (s : string)
| JArr (l : list JVal)
| JObj (o : gmap string JVal).

Abbreviation Msg := (gmap string JVal).

(** [v, ok := msg[k].(string)] *)
Definition str_field (msg : Msg) (k : string) : option string :=
  match msg !! k with
  | Some (JStr v) => Some v
  | _ => None
  end.

(** [v, _ := msg[k].(string)] *)
Definition str_or_empty (msg : Msg) (k : string) : string :=
  default "" (str_field msg k).

(** [v, ok := msg[k].(string); ok && v != ""] *)
Definition nonempty_field (msg : Msg) (k : string) : option string :=
  match str_field msg k with
  | Some v => if decide (v = "") then None else Some v
  | None => None
  end.

(** [v, _ := msg[k].(map[string]interface{})]; [None] is the nil map. *)
Definition obj_field (msg : Msg) (k : string) : option Msg :=
  match msg !! k with
  | Some (JObj o) => Some o
  | _ => None
  end.

(** [v, _ := msg[k].(bool)] *)
Definition bool_or_false (msg : Msg) (k : string) : bool :=
  match msg !! k with
  | Some (JBool b) => b
  | _ => false
  end.

(** ** Public types *)

Record Call := mkCall {
  CallID : string;
  State : string;
  Direction : string;
  From : string;
  To : string;
  Channel : string;
  UID : string;
  AppID : string
}.

Definition zeroCall : Call := mkCall "" "" "" "" "" "" "" "".

Definition set_CallID (v : string) (c : Call) : Call :=
  mkCall v (State c) (Direction c) (From c) (To c) (Channel c) (UID c) (AppID c).
Definition set_State (v : string) (c : Call) : Call :=
  mkCall (CallID c) v (Direction c) (From c) (To c) (Channel c) (UID c) (AppID c).
Definition set_Direction (v : string) (c : Call) : Call :=
  mkCall (CallID c) (State c) v (From c) (To c) (Channel c) (UID c) (AppID c).
Definition set_From (v : string) (c : Call) : Call :=
  mkCall (CallID c) (State c) (Direction c) v (To c) (Channel c) (UID c) (AppID c).
Definition set_To (v : string) (c : Call) : Call :=
  mkCall (CallID c) (State c) (Direction c) (From c) v (Channel c) (UID c) (AppID c).
Definition set_Channel (v : string) (c : Call) : Call :=
  mkCall (CallID c) (State c) (Direction c) (From c) (To c) v (UID c) (AppID c).
Definition set_UID (v : string) (c : Call) : Call :=
  mkCall (CallID c) (State c) (Direction c) (From c) (To c) (Channel c) v (AppID c).
Definition set_AppID (v : string) (c : Call) : Call :=
  mkCall (CallID c) (State c) (Direction c) (From c) (To c) (Channel c) (UID c) v.

(** The handler interface.  Only [OnCallIncoming] returns a value; the other
    callbacks are recorded in the effect log when they are invoked.
    [isDTMFHandler] is the outcome of the type assertion [h.(DTMFHandler)]. *)
Record EventHandler := mkHandler {
  OnCallIncoming : Call → bool;
  isDTMFHandler : bool
}.

Record DialParams := mkDialParams {
  dpTo : string;
  dpFrom : string;
  dpChannel : string;
  dpUID : string;
  dpToken : string;
  dpRegion : string;
  dpTimeout : string;
  dpSip : string;
  dpSipDomain : string;
  dpAppID : string
}.

Record DialResult := mkDialResult {
  drSuccess : bool;
  drCallID : string;
  drData : Msg
}.

Record AcceptParams := mkAcceptParams {
  apToken : string;
  apChannel : string;
  apUID : string;
  apAppID : string;
  apWebhookURL : string;
  apSDKOptions : string;
  apAudioScenario : string
}.

(** ** Effects visible outside the client, in the order they happen *)

Inductive Effect :=
| CbConnected (sessionID : string)
| CbCallIncoming (c : Call) (claimed : bool)
| CbCallRinging (c : Call)
| CbCallAnswered (c : Call)
| CbBridgeStart (c : Call)
| CbBridgeEnd (c : Call)
| CbCallHangup (c : Call)
| CbDTMFReceived (c : Call) (digits : string)
| CbError (e : string)
| SentRegister (msg : Msg) (ok : bool)
| SentCommand (action : string) (msg : Msg) (ok : bool)
| CloseDone
| ConnClose (cn : nat)
| RegStore (key : string)
| RegDelete (key : string).

(** ** The client *)

Record Client := mkClient {
  wsURL : string;
  authToken : string;
  clientID : string;
  appID : string;
  subscribeNumbers : list string;
  conn : option nat;
  calls : gmap string nat;
  handler : option EventHandler;
  connected : bool;
  done : bool;
  pending : gmap string nat;
  nextReqID : N;
  callStore : list Call;
  chanStore : list (list (option Msg));
  log : list Effect
}.

Definition set_subscribeNumbers (v : list string) (s : Client) : Client :=
  mkClient (wsURL s) (authToken s) (clientID s) (appID s) v (conn s)
    (calls s) (handler s) (connected s) (done s) (pending s) (nextReqID s)
    (callStore s) (chanStore s) (log s).
Definition set_conn (v : option nat) (s : Client) : Client :=
  mkClient (wsURL s) (authToken s) (clientID s) (appID s) (subscribeNumbers s) v
    (calls s) (handler s) (connected s) (done s) (pending s) (nextReqID s)
    (callStore s) (chanStore s) (log s).
Definition set_calls (f : gmap string nat → gmap string nat) (s : Client) : Client :=
  mkClient (wsURL s) (authToken s) (clientID s) (appID s) (subscribeNumbers s) (conn s)
    (f (calls s)) (handler s) (connected s) (done s) (pending s) (nextReqID s)
    (callStore s) (chanStore s) (log s).
Definition set_handler (v : option EventHandler) (s : Client) : Client :=
  mkClient (wsURL s) (authToken s) (clientID s) (appID s) (subscribeNumbers s) (conn s)
    (calls s) v (connected s) (done s) (pending s) (nextReqID s)
    (callStore s) (chanStore s) (log s).
Definition set_connected (v : bool) (s : Client) : Client :=
  mkClient (wsURL s) (authToken s) (clientID s) (appID s) (subscribeNumbers s) (conn s)
    (calls s) (handler s) v (done s) (pending s) (nextReqID s)
    (callStore s) (chanStore s) (log s).
Definition set_done (v : bool) (s : Client) : Client :=
  mkClient (wsURL s) (authToken s) (clientID s) (appID s) (subscribeNumbers s) (conn s)
    (calls s) (handler s) (connected s) v (pending s) (nextReqID s)
    (callStore s) (chanStore s) (log s).
Definition set_pending (f : gmap string nat → gmap string nat) (s : Client) : Client :=
  mkClient (wsURL s) (authToken s) (clientID s) (appID s) (subscribeNumbers s) (conn s)
    (calls s) (handler s) (connected s) (done s) (f (pending s)) (nextReqID s)
    (callStore s) (chanStore s) (log s).
Definition set_nextReqID (v : N) (s : Client) : Client :=
  mkClient (wsURL s) (authToken s) (clientID s) (appID s) (subscribeNumbers s) (conn s)
    (calls s) (handler s) (connected s) (done s) (pending s) v
    (callStore s) (chanStore s) (log s).
Definition set_callStore (f : list Call → list Call) (s : Client) : Client :=
  mkClient (wsURL s) (authToken s) (clientID s) (appID s) (subscribeNumbers s) (conn s)
    (calls s) (handler s) (connected s) (done s) (pending s) (nextReqID s)
    (f (callStore s)) (chanStore s) (log s).
Definition set_chanStore
    (f : list (list (option Msg)) → list (list (option Msg))) (s : Client) : Client :=
  mkClient (wsURL s) (authToken s) (clientID s) (appID s) (subscribeNumbers s) (conn s)
    (calls s) (handler s) (connected s) (done s) (pending s) (nextReqID s)
    (callStore s) (f (chanStore s)) (log s).
Definition emit (e : Effect) (s : Client) : Client :=
  mkClient (wsURL s) (authToken s) (clientID s) (appID s) (subscribeNumbers s) (conn s)
    (calls s) (handler s) (connected s) (done s) (pending s) (nextReqID s)
    (callStore s) (chanStore s) (log s ++ [e]).

(** [NewClient]: empty registry and pending table, open done-signal, the
    counter at its zero value. *)
Definition NewClient (wsURL authToken clientID appID : string) : Client :=
  mkClient wsURL authToken clientID appID [] None ∅ None false false ∅ 0%N [] [] [].

Definition SetHandler (h : option EventHandler) (s : Client) : Client :=
  set_handler h s.

Definition SetSubscribeNumbers (numbers : list string) (s : Client) : Client :=
  set_subscribeNumbers numbers s.

Definition IsConnected (s : Client) : bool := connected s.

(** ** Registry primitives *)

(** [c.calls[key] = call] *)
Definition reg_store (key : string) (p : nat) (s : Client) : Client :=
  emit (RegStore key) (set_calls (<[key := p]>) s).

(** [delete(c.calls, key)] *)
Definition reg_delete (key : string) (s : Client) : Client :=
  emit (RegDelete key) (set_calls (delete key) s).

(** [&Call{...}]: a new record at a new address. *)
Definition new_call (c : Call) (s : Client) : nat * Client :=
  (length (callStore s), set_callStore (λ st, st ++ [c]) s).

(** Field writes through a [*Call]. *)
Definition update_call (p : nat) (f : Call → Call) (s : Client) : Client :=
  set_callStore (alter f p) s.

(** The record a [*Call] points to. *)
Definition deref (p : nat) (s : Client) : Call :=
  default zeroCall (callStore s !! p).

(** What [GetActiveCalls] sees: every key with the record behind it. *)
Definition registry (s : Client) : gmap string Call :=
  omap (λ p, callStore s !! p) (calls s).

(** ** Errors: one constructor per [errors.New] / [fmt.Errorf] site *)

Inductive Error :=
| ENotConnected
| EConnectionLost
| ECommandTimeout
| ESendFailed (cause : string)
| ECtx (cause : string)
| EReply (errMsg : string)
| EWsDialFailed (cause : string)
| EReadConnected (cause : string)
| EInvalidConnected (cause : string)
| EUnexpectedStatus (v : option JVal)
| ERegisterSend (cause : string)
| EReadRegister (cause : string)
| EInvalidRegister (cause : string)
| ERegistrationFailed (v : option JVal).

(** ** Channels of capacity one: [make(chan map[string]interface{}, 1)] *)

(** [select { case ch <- v: default: }] *)
Definition chan_try_send (ch : nat) (v : option Msg)
    (cs : list (list (option Msg))) : list (list (option Msg)) :=
  match cs !! ch with
  | Some [] => <[ch := [v]]> cs
  | _ => cs
  end.

(** ** Connection-lost sweep *)

(** Body of [for action, ch := range c.pending]. *)
Definition drain_step (reqID : string) (ch : nat) (s : Client) : Client :=
  set_pending (delete reqID) (set_chanStore (chan_try_send ch None) s).

Definition drainPending (s : Client) : Client :=
  map_fold drain_step s (pending s).

(** ** Close *)

(** [connCloseErr] is what [conn.Close()] returns when it is called. *)
Definition Close (connCloseErr : option Error) (s : Client) : option Error * Client :=
  let s1 := set_connected false s in
  let s2 := if done s1 then s1 else emit CloseDone (set_done true s1) in
  let s3 := drainPending s2 in
  let cn := conn s3 in
  let s4 := set_conn None s3 in
  match cn with
  | Some c => (connCloseErr, emit (ConnClose c) s4)
  | None => (None, s4)
  end.

(** ** handleEvent *)

(** Lines 766-786: merge the non-empty fields of the event into the record. *)
Definition merge_event_fields (msg : Msg) (callid channel uid : string) (c : Call) : Call :=
  let c := if decide (channel = "") then c else set_Channel channel c in
  let c := if decide (uid = "") then c else set_UID uid c in
  let c := if decide (callid = "") then c else set_CallID callid c in
  let c := match nonempty_field msg "from" with Some v => set_From v c | None => c end in
  let c := match nonempty_field msg "to" with Some v => set_To v c | None => c end in
  let c := match nonempty_field msg "direction" with Some v => set_Direction v c | None => c end in
  let c := match nonempty_field msg "appid" with Some v => set_AppID v c | None => c end in
  c.

(** Lines 746-758: find the record by call id, then by [channel:uid], or
    create one under the call id. *)
Definition find_or_create (callid channel uid : string) (s : Client) : option nat * Client :=
  let call := calls s !! callid in
  let call :=
    match call with
    | None =>
        if decide (channel = "") then None
        else if decide (uid = "") then None
        else calls s !! (channel +:+ ":" +:+ uid)
    | Some p => Some p
    end in
  match call with
  | None =>
      if decide (callid = "") then (None, s)
      else
        let '(p, s1) := new_call (mkCall callid "" "" "" "" channel uid "") s in
        (Some p, reg_store callid p s1)
  | Some p => (Some p, s)
  end.

(** Lines 790-836: the [switch eventType]. *)
Definition dispatch (h : EventHandler) (eventType : string) (msg : Msg)
    (callid : string) (call : nat) (s : Client) : Client :=
  if decide (eventType = "call_incoming") then
    let s1 := update_call call (λ c, set_Direction "inbound" (set_State "incoming" c)) s in
    let claimed := OnCallIncoming h (deref call s1) in
    let s2 := emit (CbCallIncoming (deref call s1) claimed) s1 in
    if claimed then s2 else reg_delete callid s2
  else if decide (eventType = "call_ringing") then
    let s1 := update_call call (set_State "ringing") s in
    emit (CbCallRinging (deref call s1)) s1
  else if decide (eventType = "call_answered") then
    let s1 := update_call call (set_State "answered") s in
    emit (CbCallAnswered (deref call s1)) s1
  else if decide (eventType = "agora_bridge_start") then
    let s1 := update_call call (set_State "bridged") s in
    emit (CbBridgeStart (deref call s1)) s1
  else if decide (eventType = "agora_bridge_end") then
    let s1 := update_call call (set_State "unbridged") s in
    emit (CbBridgeEnd (deref call s1)) s1
  else if decide (eventType = "call_hangup") then
    let s1 := update_call call (set_State "hangup") s in
    let s2 := reg_delete callid s1 in
    let c := deref call s2 in
    let s3 :=
      if decide (Channel c = "") then s2
      else if decide (UID c = "") then s2
      else reg_delete (Channel c +:+ ":" +:+ UID c) s2 in
    emit (CbCallHangup (deref call s3)) s3
  else if decide (eventType = "dtmf_received") then
    let digits := str_or_empty msg "digits" in
    if isDTMFHandler h then emit (CbDTMFReceived (deref call s) digits) s else s
  else s.

Definition handleEvent (msg : Msg) (s : Client) : Client :=
  match handler s with
  | None => s
  | Some h =>
      let eventType := str_or_empty msg "event" in
      let callid := str_or_empty msg "callid" in
      let channel := str_or_empty msg "channel" in
      let uid := str_or_empty msg "uid" in
      match find_or_create callid channel uid s with
      | (None, s1) => s1
      | (Some call, s1) =>
          let s2 := update_call call (merge_event_fields msg callid channel uid) s1 in
          dispatch h eventType msg callid call s2
      end
  end.

(** ** readLoop *)

(** The deferred function of [readLoop]. *)
Definition readLoop_exit (s : Client) : Client :=
  drainPending (set_connected false s).

(** What [conn.ReadMessage] followed by [json.Unmarshal] yields. *)
Inductive Read :=
| ReadErr (e : string)
| ReadInvalid (e : string)
| ReadMsg (parsed : Msg).

(** Where the read-loop goroutine is: waiting for the next message, returned,
    or stuck in [ch <- parsed]. *)
Inductive LoopState :=
| Reading (s : Client)
| Exited (s : Client)
| Stuck (s : Client).

(** [ch <- v] on a channel of capacity one. *)
Definition chan_send (ch : nat) (v : option Msg) (s : Client) : LoopState :=
  match chanStore s !! ch with
  | Some [] => Reading (set_chanStore (<[ch := [v]]>) s)
  | _ => Stuck s
  end.

(** One parsed frame (lines 663-679): deliver it to the pending command it
    answers, else treat it as an event. *)
Definition readLoop_frame (parsed : Msg) (s : Client) : LoopState :=
  match nonempty_field parsed "request_id" with
  | Some reqID =>
      match pending s !! reqID with
      | Some ch => chan_send ch (Some parsed) (set_pending (delete reqID) s)
      | None => Reading (handleEvent parsed s)
      end
  | None => Reading (handleEvent parsed s)
  end.

(** The read-error branch (lines 647-656) followed by the deferred function.
    [CbError] carries [fmt.Errorf("read error: %w", err)]; the reconnect
    goroutine it spawns is a later [Connect]. *)
Definition readLoop_readError (e : string) (s : Client) : Client :=
  let s1 :=
    if connected s then
      match handler s with
      | Some _ => emit (CbError ("read error: " +:+ e)) s
      | None => s
      end
    else s in
  readLoop_exit s1.

(** The loop over the messages the transport yields. *)
Fixpoint readLoop (inputs : list Read) (s : Client) : LoopState :=
  if done s then Exited (readLoop_exit s)
  else
    match inputs with
    | [] => Reading s
    | ReadErr e :: _ => Exited (readLoop_readError e s)
    | ReadInvalid _ :: rest => readLoop rest s
    | ReadMsg parsed :: rest =>
        match readLoop_frame parsed s with
        | Reading s' => readLoop rest s'
        | other => other
        end
    end.

(** ** sendCommand *)

(** [atomic.Uint64.Add] *)
Definition uint64_add (a b : N) : N := ((a + b) mod 2 ^ 64)%N.

(** [fmt.Sprintf("%s_%d", action, n)] *)
Definition reqID_of (action : string) (n : N) : string :=
  action +:+ "_" +:+ pretty n.

Inductive Issue :=
| IssueErr (e : Error)
| Issued (reqID : string) (respCh : nat).

(** Lines 684-709: check the connection, draw a request id, install the
    delivery slot, write the frame.  [writeErr] is what [conn.WriteJSON]
    returns. *)
Definition sendCommand_issue (action : string) (msg : Msg) (writeErr : option string)
    (s : Client) : Issue * Client :=
  if negb (connected s) then (IssueErr ENotConnected, s)
  else
    match conn s with
    | None => (IssueErr ENotConnected, s)
    | Some _ =>
        let n := uint64_add (nextReqID s) 1 in
        let s := set_nextReqID n s in
        let reqID := reqID_of action n in
        let msg := <["request_id" := JStr reqID]> msg in
        let respCh := length (chanStore s) in
        let s := set_chanStore (λ cs, cs ++ [[]]) s in
        let s := set_pending (<[reqID := respCh]>) s in
        match writeErr with
        | Some e =>
            let s := emit (SentCommand action msg false) s in
            (IssueErr (ESendFailed e), set_pending (delete reqID) s)
        | None => (Issued reqID respCh, emit (SentCommand action msg true) s)
        end
    end.

(** Which case of the [select] at lines 714-730 fires. *)
Inductive Select :=
| SelResp
| SelCtxDone (cause : string)
| SelDeadline.

(** Lines 714-730.  [None]: the chosen case is not ready (nothing to receive
    on [respCh]). *)
Definition sendCommand_await (reqID : string) (respCh : nat) (sel : Select)
    (s : Client) : option ((option Msg * option Error) * Client) :=
  match sel with
  | SelResp =>
      match chanStore s !! respCh with
      | Some (resp :: rest) =>
          let s := set_chanStore (<[respCh := rest]>) s in
          match resp with
          | None => Some ((None, Some EConnectionLost), s)
          | Some r => Some ((Some r, None), s)
          end
      | _ => None
      end
  | SelCtxDone cause => Some ((None, Some (ECtx cause)), set_pending (delete reqID) s)
  | SelDeadline => Some ((None, Some ECommandTimeout), set_pending (delete reqID) s)
  end.

(** What happens to a command after it is issued. *)
Inductive Outcome :=
| WriteFails (e : string)
| Replied (body : Msg)
| ReadFails (e : string)
| Cancelled (cause : string)
| TimedOut.

(** A whole [sendCommand] call: issue, the read loop's part, await.  A reply
    is the server's [body] echoing the request id. *)
Definition sendCommand (action : string) (msg : Msg) (o : Outcome) (s : Client)
    : option ((option Msg * option Error) * Client) :=
  let writeErr := match o with WriteFails e => Some e | _ => None end in
  match sendCommand_issue action msg writeErr s with
  | (IssueErr e, s1) => Some ((None, Some e), s1)
  | (Issued reqID respCh, s1) =>
      match o with
      | Replied body =>
          match readLoop_frame (<["request_id" := JStr reqID]> body) s1 with
          | Reading s2 => sendCommand_await reqID respCh SelResp s2
          | _ => None
          end
      | ReadFails e => sendCommand_await reqID respCh SelResp (readLoop_readError e s1)
      | Cancelled cause => sendCommand_await reqID respCh (SelCtxDone cause) s1
      | TimedOut => sendCommand_await reqID respCh SelDeadline s1
      | WriteFails _ => None
      end
  end.

(** The tail shared by the commands: [err], then [resp == nil], then the
    reply's [error] string. *)
Definition command_error (r : option Msg * option Error) : option Error :=
  match r with
  | (_, Some err) => Some err
  | (None, None) => Some EConnectionLost
  | (Some resp, None) => EReply <$> str_field resp "error"
  end.

(** ** Dial *)

Definition dialMsg (params : DialParams) : Msg :=
  let msg : Msg :=
    <["timeout" := JStr (dpTimeout params)]>
    (<["region" := JStr (dpRegion params)]>
    (<["token" := JStr (dpToken params)]>
    (<["uid" := JStr (dpUID params)]>
    (<["channel" := JStr (dpChannel params)]>
    (<["from" := JStr (dpFrom params)]>
    (<["to" := JStr (dpTo params)]>
    (<["action" := JStr "outbound"]> ∅))))))) in
  let msg := if decide (dpSip params = "") then msg
             else <["sip" := JStr (dpSip params)]> msg in
  let msg := if decide (dpSipDomain params = "") then msg
             else <["sip_domain" := JStr (dpSipDomain params)]> msg in
  let msg := if decide (dpAppID params = "") then msg
             else <["appid" := JStr (dpAppID params)]> msg in
  msg.

(** Lines 321-332: pre-track the call under [channel:uid]. *)
Definition Dial_pretrack (params : DialParams) (s : Client) : Client :=
  let chanKey := dpChannel params +:+ ":" +:+ dpUID params in
  let '(call, s1) :=
    new_call (mkCall "" "ringing" "outbound" (dpFrom params) (dpTo params)
                (dpChannel params) (dpUID params) (dpAppID params)) s in
  reg_store chanKey call s1.

(** Lines 349-371: read the reply, promote the pre-tracked entry, remove the
    temporary key. *)
Definition Dial_promote (chanKey : string) (resp : Msg) (s : Client) : DialResult * Client :=
  let data := obj_field resp "data" in
  let success := match data with Some d => bool_or_false d "success" | None => false end in
  let callID := match data with Some d => str_or_empty d "callid" | None => "" end in
  let result := mkDialResult success callID resp in
  let s1 :=
    if decide (callID = "") then s
    else
      match calls s !! chanKey with
      | Some call => reg_store callID call (update_call call (set_CallID callID) s)
      | None => s
      end in
  (result, reg_delete chanKey s1).

Definition Dial (params : DialParams) (o : Outcome) (s : Client)
    : option ((option DialResult * option Error) * Client) :=
  let msg := dialMsg params in
  let chanKey := dpChannel params +:+ ":" +:+ dpUID params in
  let s1 := Dial_pretrack params s in
  match sendCommand "outbound" msg o s1 with
  | None => None
  | Some ((_, Some err), s2) => Some ((None, Some err), reg_delete chanKey s2)
  | Some ((None, None), s2) => Some ((None, Some EConnectionLost), reg_delete chanKey s2)
  | Some ((Some resp, None), s2) =>
      let '(result, s3) := Dial_promote chanKey resp s2 in
      Some ((Some result, None), s3)
  end.

(** ** Accept *)

Definition acceptMsg (callid : string) (creds : AcceptParams) : Msg :=
  let msg : Msg :=
    <["uid" := JStr (apUID creds)]>
    (<["channel" := JStr (apChannel creds)]>
    (<["token" := JStr (apToken creds)]>
    (<["callid" := JStr callid]>
    (<["action" := JStr "accept"]> ∅)))) in
  let msg := if decide (apAppID creds = "") then msg
             else <["appid" := JStr (apAppID creds)]> msg in
  let msg := if decide (apWebhookURL creds = "") then msg
             else <["webhook_url" := JStr (apWebhookURL creds)]> msg in
  let msg := if decide (apSDKOptions creds = "") then msg
             else <["sdk_options" := JStr (apSDKOptions creds)]> msg in
  let msg := if decide (apAudioScenario creds = "") then msg
             else <["audio_scenario" := JStr (apAudioScenario creds)]> msg in
  msg.

(** Lines 408-414: remember the appid on the call. *)
Definition Accept_update (callid appid : string) (s : Client) : Client :=
  if decide (appid = "") then s
  else
    match calls s !! callid with
    | Some call => update_call call (set_AppID appid) s
    | None => s
    end.

Definition Accept (callid : string) (creds : AcceptParams) (o : Outcome) (s : Client)
    : option (option Error * Client) :=
  match sendCommand "accept" (acceptMsg callid creds) o s with
  | None => None
  | Some (r, s1) =>
      match command_error r with
      | Some err => Some (Some err, s1)
      | None => Some (None, Accept_update callid (apAppID creds) s1)
      end
  end.

(** ** Hangup *)

(** Lines 501-504. *)
Definition hangupAction (call : option Call) : string :=
  match call with
  | Some c => if decide (Direction c = "outbound") then "endcall" else "hangup"
  | None => "hangup"
  end.

Definition hangupMsg (action callid : string) (call : option Call) : Msg :=
  let msg : Msg := <["callid" := JStr callid]> (<["action" := JStr action]> ∅) in
  match call with
  | Some c => if decide (AppID c = "") then msg else <["appid" := JStr (AppID c)]> msg
  | None => msg
  end.

Definition Hangup (callid : string) (o : Outcome) (s : Client)
    : option (option Error * Client) :=
  let call := (λ p, deref p s) <$> calls s !! callid in
  let action := hangupAction call in
  let msg := hangupMsg action callid call in
  match sendCommand action msg o s with
  | None => None
  | Some (r, s1) =>
      match command_error r with
      | Some err => Some (Some err, s1)
      | None => Some (None, reg_delete callid s1)
      end
  end.

(** ** Connect *)

(** What the transport does during the handshake: the result of
    [dialer.DialContext], the two messages read, and the result of writing
    the register message. *)
Record Handshake := mkHandshake {
  hsDial : string + nat;
  hsHello : Read;
  hsRegisterWrite : option string;
  hsAck : Read
}.

(** [msg[k] != lit] for a string literal, negated. *)
Definition field_is (msg : Msg) (k lit : string) : bool :=
  match msg !! k with
  | Some (JStr v) => bool_decide (v = lit)
  | _ => false
  end.

Definition registerMsg (s : Client) : Msg :=
  let regMsg : Msg :=
    <["appid" := JStr (appID s)]>
    (<["client_id" := JStr (clientID s)]>
    (<["auth_token" := JStr (authToken s)]>
    (<["action" := JStr "register"]> ∅))) in
  if decide (0 < length (subscribeNumbers s))
  then <["subscribe_numbers" := JArr (JStr <$> subscribeNumbers s)]> regMsg
  else regMsg.

Definition Connect (hs : Handshake) (s : Client) : option Error * Client :=
  match hsDial hs with
  | inl e => (Some (EWsDialFailed e), s)
  | inr cn =>
      match hsHello hs with
      | ReadErr e => (Some (EReadConnected e), emit (ConnClose cn) s)
      | ReadInvalid e => (Some (EInvalidConnected e), emit (ConnClose cn) s)
      | ReadMsg connMsg =>
          if negb (field_is connMsg "status" "connected")
          then (Some (EUnexpectedStatus (connMsg !! "status")), emit (ConnClose cn) s)
          else
            let sessionID := str_or_empty connMsg "session_id" in
            let regMsg := registerMsg s in
            match hsRegisterWrite hs with
            | Some e =>
                (Some (ERegisterSend e),
                 emit (ConnClose cn) (emit (SentRegister regMsg false) s))
            | None =>
                let s := emit (SentRegister regMsg true) s in
                match hsAck hs with
                | ReadErr e => (Some (EReadRegister e), emit (ConnClose cn) s)
                | ReadInvalid e => (Some (EInvalidRegister e), emit (ConnClose cn) s)
                | ReadMsg regResp =>
                    if negb (field_is regResp "status" "registered")
                    then (Some (ERegistrationFailed (regResp !! "error")),
                          emit (ConnClose cn) s)
                    else
                      let s := set_conn (Some cn) s in
                      let s := set_connected true s in
                      let s :=
                        match handler s with
                        | Some _ => emit (CbConnected sessionID) s
                        | None => s
                        end in
                      (None, s)
                end
            end
      end
  end.

(** ** Sample data *)

Definition okHandshake (cn : nat) : Handshake :=
  mkHandshake (inr cn)
    (ReadMsg (<["session_id" := JStr "S1"]> (<["status" := JStr "connected"]> ∅)))
    None
    (ReadMsg (<["status" := JStr "registered"]> ∅)).

Definition claimNone : EventHandler := mkHandler (λ _, false) true.
Definition claimAll : EventHandler := mkHandler (λ _, true) true.

Definition client0 : Client := NewClient "wss://cm/v1/ws/events" "Basic T" "cli" "APP".

(** A connected client with a handler that declines every incoming call. *)
Definition client1 : Client := (Connect (okHandshake 7) (SetHandler (Some claimNone) client0)).2.

Definition dial1 : DialParams :=
  mkDialParams "+18005551234" "+15551234567" "ch1" "100" "T" "AREA_CODE_NA" "30" "" "" "".

Definition event (ty callid : string) : Msg :=
  <["callid" := JStr callid]> (<["event" := JStr ty]> ∅).

(** ** Histories

    Every access to the client's state, as one step each: the public
    operations, the read loop's iterations, and the critical sections of the
    commands (so that events may fall between a command's sections, as they
    do at run time).  The arguments of a step are not constrained. *)

Inductive Op :=
| OpSetHandler (h : option EventHandler)
| OpSetSubscribeNumbers (numbers : list string)
| OpConnect (hs : Handshake)
| OpClose (connCloseErr : option Error)
| OpFrame (parsed : Msg)
| OpReadError (e : string)
| OpLoopExit
| OpIssue (action : string) (msg : Msg) (writeErr : option string)
| OpAwait (reqID : string) (respCh : nat) (sel : Select)
| OpDialPretrack (params : DialParams)
| OpDialCleanup (chanKey : string)
| OpDialPromote (chanKey : string) (resp : Msg)
| OpAcceptUpdate (callid appid : string)
| OpHangupDelete (callid : string).

Definition loop_client (l : LoopState) : Client :=
  match l with
  | Reading s | Exited s | Stuck s => s
  end.

Definition step (op : Op) (s : Client) : Client :=
  match op with
  | OpSetHandler h => SetHandler h s
  | OpSetSubscribeNumbers numbers => SetSubscribeNumbers numbers s
  | OpConnect hs => (Connect hs s).2
  | OpClose e => (Close e s).2
  | OpFrame parsed => loop_client (readLoop_frame parsed s)
  | OpReadError e => readLoop_readError e s
  | OpLoopExit => readLoop_exit s
  | OpIssue action msg writeErr => (sendCommand_issue action msg writeErr s).2
  | OpAwait reqID respCh sel =>
      match sendCommand_await reqID respCh sel s with
      | Some (_, s') => s'
      | None => s
      end
  | OpDialPretrack params => Dial_pretrack params s
  | OpDialCleanup chanKey => reg_delete chanKey s
  | OpDialPromote chanKey resp => (Dial_promote chanKey resp s).2
  | OpAcceptUpdate callid appid => Accept_update callid appid s
  | OpHangupDelete callid => reg_delete callid s
  end.

Definition run (ops : list Op) (s : Client) : Client :=
  foldl (λ s op, step op s) s ops.


(** ** Reading the effect log *)

Definition is_callback (e : Effect) : bool :=
  match e with
  | CbConnected _ | CbCallIncoming _ _ | CbCallRinging _ | CbCallAnswered _
  | CbBridgeStart _ | CbBridgeEnd _ | CbCallHangup _ | CbDTMFReceived _ _
  | CbError _ => true
  | _ => false
  end.

Definition callbacks (l : list Effect) : list Effect := filter is_callback l.

Definition is_store (e : Effect) : bool :=
  match e with RegStore _ => true | _ => false end.
Definition is_delete (e : Effect) : bool :=
  match e with RegDelete _ => true | _ => false end.
Definition is_close_done (e : Effect) : bool :=
  match e with CloseDone => true | _ => false end.

Definition count (f : Effect → bool) (l : list Effect) : nat := length (filter f l).

(** The commands written so far: the action passed to [sendCommand] and the
    frame handed to [conn.WriteJSON]. *)
Definition commands (l : list Effect) : list (string * Msg) :=
  omap (λ e, match e with SentCommand a m _ => Some (a, m) | _ => None end) l.


(** ** Well-formed client states *)

(** The registry: every pointer is allocated, no record sits under two
    keys, and no record in the registry is in state [hangup]. *)
Definition reg_ok (cs : gmap string nat) (st : list Call) : Prop :=
  (∀ k p, cs !! k = Some p → p < length st)
  ∧ (∀ k1 k2 p, cs !! k1 = Some p → cs !! k2 = Some p → k1 = k2)
  ∧ (∀ k p c, cs !! k = Some p → st !! p = Some c → State c ≠ "hangup").

(** The pending table: every slot is an allocated channel with nothing in
    it yet, and no channel serves two request ids. *)
Definition pend_ok (pd : gmap string nat) (chs : list (list (option Msg))) : Prop :=
  (∀ k ch, pd !! k = Some ch → chs !! ch = Some [])
  ∧ (∀ k1 k2 ch, pd !! k1 = Some ch → pd !! k2 = Some ch → k1 = k2).

Definition wf (s : Client) : Prop :=
  reg_ok (calls s) (callStore s) ∧ pend_ok (pending s) (chanStore s).

Definition is_conn_close (e : Effect) : bool :=
  match e with ConnClose _ => true | _ => false end.

(** ** Auxiliary definitions used in the statements *)

(** [s'] differs from [s] in the registry, the records and the log only. *)
Definition registry_step (s s' : Client) : Prop :=
  s' = mkClient (wsURL s) (authToken s) (clientID s) (appID s) (subscribeNumbers s)
         (conn s) (calls s') (handler s) (connected s) (done s) (pending s)
         (nextReqID s) (callStore s') (chanStore s) (log s').

(** What a command issued on a live connection returns, by outcome. *)
Definition sendCommand_returns (reqID : string) (o : Outcome) : option Msg * option Error :=
  match o with
  | WriteFails e => (None, Some (ESendFailed e))
  | Replied body => (Some (<["request_id" := JStr reqID]> body), None)
  | ReadFails _ => (None, Some EConnectionLost)
  | Cancelled cause => (None, Some (ECtx cause))
  | TimedOut => (None, Some ECommandTimeout)
  end.

(** What the tail of a command returns on a live connection. *)
Definition command_outcome (o : Outcome) : option Error :=
  match o with
  | WriteFails e => Some (ESendFailed e)
  | Replied body => EReply <$> str_field body "error"
  | ReadFails _ => Some EConnectionLost
  | Cancelled cause => Some (ECtx cause)
  | TimedOut => Some ECommandTimeout
  end.

Definition dialReply (callid : string) : Msg :=
  <["data" := JObj (<["callid" := JStr callid]> (<["success" := JBool true]> ∅))]> ∅.

(** An outbound call whose [call_answered] arrives before the dial reply. *)
Definition opsDialled : list Op :=
  [ OpSetHandler (Some claimAll);
    OpConnect (okHandshake 7);
    OpDialPretrack dial1;
    OpFrame (<["uid" := JStr "100"]> (<["channel" := JStr "ch1"]> (event "call_answered" "C1")));
    OpDialPromote "ch1:100" (dialReply "C1") ].

(** The call id a dial reply carries: [data["callid"].(string)] of
    [resp["data"].(map[string]interface{})], empty when either is missing. *)
Definition reply_callid (resp : Msg) : string :=
  match obj_field resp "data" with
  | Some d => str_or_empty d "callid"
  | None => ""
  end.

(** The record [handleEvent] creates for an event whose call is unknown, as
    the hangup callback sees it. *)
Definition hangup_of_unknown (msg : Msg) : Call :=
  let callid := str_or_empty msg "callid" in
  let channel := str_or_empty msg "channel" in
  let uid := str_or_empty msg "uid" in
  set_State "hangup"
    (merge_event_fields msg callid channel uid (mkCall callid "" "" "" "" channel uid "")).



Definition opsTwo : list Op :=
  [ OpConnect (okHandshake 7);
    OpIssue "outbound" (dialMsg dial1) None;
    OpIssue "hangup" (event "" "C1") None ].

(** ** The remaining commands *)

Record BridgeParams := mkBridgeParams {
  bpToken : string;
  bpChannel : string;
  bpUID : string;
  bpAppID : string;
  bpSDKOptions : string;
  bpAudioScenario : string
}.

(** [if call := c.calls[callid]; call != nil && call.AppID != "" {
    msg["appid"] = call.AppID }], as in [Unbridge], [Transfer], [SendDTMF]. *)
Definition with_cached_appid (callid : string) (s : Client) (msg : Msg) : Msg :=
  match calls s !! callid with
  | Some call =>
      if decide (AppID (deref call s) = "") then msg
      else <["appid" := JStr (AppID (deref call s))]> msg
  | None => msg
  end.

(** [Reject], lines 419-437. *)
Definition rejectMsg (callid reason : string) : Msg :=
  <["reason" := JStr reason]>
  (<["callid" := JStr callid]>
  (<["action" := JStr "reject"]> ∅)).

Definition Reject (callid reason : string) (o : Outcome) (s : Client)
    : option (option Error * Client) :=
  match sendCommand "reject" (rejectMsg callid reason) o s with
  | None => None
  | Some (r, s1) => Some (command_error r, s1)
  end.

(** [Bridge], lines 440-469. *)
Definition bridgeMsg (callid : string) (creds : BridgeParams) : Msg :=
  let msg : Msg :=
    <["uid" := JStr (bpUID creds)]>
    (<["channel" := JStr (bpChannel creds)]>
    (<["token" := JStr (bpToken creds)]>
    (<["callid" := JStr callid]>
    (<["action" := JStr "bridge"]> ∅)))) in
  let msg := if decide (bpAppID creds = "") then msg
             else <["appid" := JStr (bpAppID creds)]> msg in
  let msg := if decide (bpSDKOptions creds = "") then msg
             else <["sdk_options" := JStr (bpSDKOptions creds)]> msg in
  let msg := if decide (bpAudioScenario creds = "") then msg
             else <["audio_scenario" := JStr (bpAudioScenario creds)]> msg in
  msg.

Definition Bridge (callid : string) (creds : BridgeParams) (o : Outcome) (s : Client)
    : option (option Error * Client) :=
  match sendCommand "bridge" (bridgeMsg callid creds) o s with
  | None => None
  | Some (r, s1) => Some (command_error r, s1)
  end.

(** [Unbridge], lines 472-493. *)
Definition unbridgeMsg (callid : string) (s : Client) : Msg :=
  with_cached_appid callid s
    (<["callid" := JStr callid]> (<["action" := JStr "unbridge"]> ∅)).

Definition Unbridge (callid : string) (o : Outcome) (s : Client)
    : option (option Error * Client) :=
  match sendCommand "unbridge" (unbridgeMsg callid s) o s with
  | None => None
  | Some (r, s1) => Some (command_error r, s1)
  end.

(** [Transfer], lines 533-559. *)
Definition transferMsg (callid destination leg : string) (s : Client) : Msg :=
  let msg : Msg :=
    <["destination" := JStr destination]>
    (<["callid" := JStr callid]>
    (<["action" := JStr "transfer"]> ∅)) in
  let msg := if decide (leg = "") then msg else <["leg" := JStr leg]> msg in
  with_cached_appid callid s msg.

Definition Transfer (callid destination leg : string) (o : Outcome) (s : Client)
    : option (option Error * Client) :=
  match sendCommand "transfer" (transferMsg callid destination leg s) o s with
  | None => None
  | Some (r, s1) => Some (command_error r, s1)
  end.

(** [SendDTMF], lines 562-584. *)
Definition sendDTMFMsg (callid digits : string) (s : Client) : Msg :=
  with_cached_appid callid s
    (<["digits" := JStr digits]>
    (<["callid" := JStr callid]>
    (<["action" := JStr "send_dtmf"]> ∅))).

Definition SendDTMF (callid digits : string) (o : Outcome) (s : Client)
    : option (option Error * Client) :=
  match sendCommand "send_dtmf" (sendDTMFMsg callid digits s) o s with
  | None => None
  | Some (r, s1) => Some (command_error r, s1)
  end.




(** ** reconnect *)

(** [time.Duration] is an [int64] of nanoseconds. *)
Definition int64_wrap (x : Z) : Z := ((x + 2 ^ 63) mod 2 ^ 64 - 2 ^ 63)%Z.

Definition second : Z := 1000000000.

(** [err.Error()].  [fmt_v] is what [fmt] prints for [%v] of a JSON value
    ([None] is nil). *)
Definition error_text (fmt_v : option JVal → string) (e : Error) : string :=
  match e with
  | ENotConnected => "not connected"
  | EConnectionLost => "connection lost"
  | ECommandTimeout => "command timeout"
  | ESendFailed cause => "send failed: " +:+ cause
  | ECtx cause => cause
  | EReply errMsg => errMsg
  | EWsDialFailed cause => "ws dial failed: " +:+ cause
  | EReadConnected cause => "failed to read connected message: " +:+ cause
  | EInvalidConnected cause => "invalid connected message: " +:+ cause
  | EUnexpectedStatus v => "unexpected status: " +:+ fmt_v v
  | ERegisterSend cause => "register send failed: " +:+ cause
  | EReadRegister cause => "failed to read register response: " +:+ cause
  | EInvalidRegister cause => "invalid register response: " +:+ cause
  | ERegistrationFailed v => "registration failed: " +:+ fmt_v v
  end.

(** How far the reconnect goroutine got on the attempts it was given. *)
Inductive ReconnectEnd :=
| Reconnected
| GaveUp
| StillTrying.

(** Lines 843-869, one iteration per handshake the transport offers:
    check the done-signal, sleep [backoff], connect, report a failure, double
    the backoff up to 30 s.  Returns the durations slept, in order. *)
Fixpoint reconnect_from (fmt_v : option JVal → string) (attempts : list Handshake)
    (backoff : Z) (s : Client) : list Z * ReconnectEnd * Client :=
  if done s then ([], GaveUp, s)
  else
    match attempts with
    | [] => ([], StillTrying, s)
    | hs :: rest =>
        match Connect hs s with
        | (None, s1) => ([backoff], Reconnected, s1)
        | (Some err, s1) =>
            let s2 :=
              match handler s1 with
              | Some _ => emit (CbError ("reconnect failed: " +:+ error_text fmt_v err)) s1
              | None => s1
              end in
            let doubled := int64_wrap (backoff * 2) in
            let next := if decide (30 * second < doubled)%Z then (30 * second)%Z
                        else doubled in
            let '(sleeps, e, s3) := reconnect_from fmt_v rest next s2 in
            (backoff :: sleeps, e, s3)
        end
    end.

Definition reconnect (fmt_v : option JVal → string) (attempts : list Handshake)
    (s : Client) : list Z * ReconnectEnd * Client :=
  reconnect_from fmt_v attempts second s.

(** ** Auxiliary definitions for the further properties *)

(** [s'] differs from [s] in the log only. *)
Definition log_step (s s' : Client) : Prop :=
  s' = mkClient (wsURL s) (authToken s) (clientID s) (appID s) (subscribeNumbers s)
         (conn s) (calls s) (handler s) (connected s) (done s) (pending s)
         (nextReqID s) (callStore s) (chanStore s) (log s').

(** The handshake the server completes: both messages arrive with the
    expected status and the register message is written. *)
Definition handshake_completes (hs : Handshake) (cn : nat) (connMsg : Msg) : Prop :=
  hsDial hs = inr cn
  ∧ hsHello hs = ReadMsg connMsg
  ∧ field_is connMsg "status" "connected" = true
  ∧ hsRegisterWrite hs = None
  ∧ ∃ regResp, hsAck hs = ReadMsg regResp
      ∧ field_is regResp "status" "registered" = true.

(** [s'] differs from [s] in what [sendCommand] may touch: the counter, the
    pending table, the channels, the connected-flag and the log. *)
Definition command_step (s s' : Client) : Prop :=
  s' = mkClient (wsURL s) (authToken s) (clientID s) (appID s) (subscribeNumbers s)
         (conn s) (calls s) (handler s) (connected s') (done s) (pending s')
         (nextReqID s') (callStore s) (chanStore s') (log s').

(** The commands that address a call and leave the registry alone. *)
Inductive CallCommand :=
| CReject (callid reason : string)
| CBridge (callid : string) (creds : BridgeParams)
| CUnbridge (callid : string)
| CTransfer (callid destination leg : string)
| CSendDTMF (callid digits : string).

Definition call_command (cmd : CallCommand) (o : Outcome) (s : Client)
    : option (option Error * Client) :=
  match cmd with
  | CReject callid reason => Reject callid reason o s
  | CBridge callid creds => Bridge callid creds o s
  | CUnbridge callid => Unbridge callid o s
  | CTransfer callid destination leg => Transfer callid destination leg o s
  | CSendDTMF callid digits => SendDTMF callid digits o s
  end.

Definition call_command_action (cmd : CallCommand) : string :=
  match cmd with
  | CReject _ _ => "reject"
  | CBridge _ _ => "bridge"
  | CUnbridge _ => "unbridge"
  | CTransfer _ _ _ => "transfer"
  | CSendDTMF _ _ => "send_dtmf"
  end.

Definition call_command_callid (cmd : CallCommand) : string :=
  match cmd with
  | CReject callid _ | CBridge callid _ | CUnbridge callid
  | CTransfer callid _ _ | CSendDTMF callid _ => callid
  end.

(** The appid the registry has cached for a call, as a frame field. *)
Definition cached_appid (callid : string) (s : Client) : option JVal :=
  match calls s !! callid with
  | Some call => if decide (AppID (deref call s) = "") then None
                 else Some (JStr (AppID (deref call s)))
  | None => None
  end.

(** A field that is written only when its value is not empty. *)
Definition optional_field (v : string) : option JVal :=
  if decide (v = "") then None else Some (JStr v).

(** The commands whose frame takes its appid from the registry. *)
Definition uses_cached_appid (cmd : CallCommand) : bool :=
  match cmd with
  | CUnbridge _ | CTransfer _ _ _ | CSendDTMF _ _ => true
  | CReject _ _ | CBridge _ _ => false
  end.

(** A handshake that does not complete, whatever goes wrong. *)
Definition handshake_fails (hs : Handshake) : Prop :=
  ∀ cn connMsg, ¬ handshake_completes hs cn connMsg.

(** The backoff before the [i]-th attempt of [reconnect], counted from 0:
    1 s doubled [i] times, at most 30 s. *)
Definition backoff_before (i : nat) : Z :=
  Z.min (2 ^ Z.of_nat i * second) (30 * second).

(** The record an event is about, when the registry has one (lines 746-750):
    the one under its call id, else the one under its [channel:uid]. *)
Definition event_target (msg : Msg) (s : Client) : option nat :=
  match calls s !! str_or_empty msg "callid" with
  | Some p => Some p
  | None =>
      if decide (str_or_empty msg "channel" = "") then None
      else if decide (str_or_empty msg "uid" = "") then None
      else calls s !! (str_or_empty msg "channel" +:+ ":" +:+ str_or_empty msg "uid")
  end.

(** The arms of the [switch] that set the state and call back, and nothing
    else: the state they set and the callback they invoke. *)
Definition state_event (ty : string) : option (string * (Call → Effect)) :=
  if decide (ty = "call_ringing") then Some ("ringing", CbCallRinging)
  else if decide (ty = "call_answered") then Some ("answered", CbCallAnswered)
  else if decide (ty = "agora_bridge_start") then Some ("bridged", CbBridgeStart)
  else if decide (ty = "agora_bridge_end") then Some ("unbridged", CbBridgeEnd)
  else None.

(** The event types the [switch] has an arm for. *)
Definition known_event (ty : string) : bool :=
  bool_decide (ty ∈ ["call_incoming"; "call_ringing"; "call_answered";
                     "agora_bridge_start"; "agora_bridge_end"; "call_hangup";
                     "dtmf_received"]).

(** The record [handleEvent] allocates for an event about an unknown call,
    after the merge of the event's fields. *)
Definition event_record (msg : Msg) : Call :=
  let callid := str_or_empty msg "callid" in
  let channel := str_or_empty msg "channel" in
  let uid := str_or_empty msg "uid" in
  merge_event_fields msg callid channel uid (mkCall callid "" "" "" "" channel uid "").

(** The success flag a dial reply carries: [data["success"].(bool)] of
    [resp["data"].(map[string]interface{})], false when either is missing. *)
Definition reply_success (resp : Msg) : bool :=
  match obj_field resp "data" with
  | Some d => bool_or_false d "success"
  | None => false
  end.

(** A message that [json.Unmarshal] rejects. *)
Definition is_invalid (i : Read) : bool :=
  match i with ReadInvalid _ => true | _ => false end.

(** * Proofs *)

(** ** Channels and the sweep *)

Lemma chan_try_send_lookup ch v cs i :
  chan_try_send ch v cs !! i =
    if decide (i = ch)
    then match cs !! ch with Some [] => Some [v] | o => o end
    else cs !! i.
Proof.
  unfold chan_try_send. destruct (decide (i = ch)) as [->|Hne].
  - destruct (cs !! ch) as [[|x b]|] eqn:E; rewrite ?E; try done.
    apply list_lookup_insert_eq. by eapply lookup_lt_Some.
  - destruct (cs !! ch) as [[|x b]|]; try done.
    by apply list_lookup_insert_ne.
Qed.

Lemma chan_try_send_length ch v cs : length (chan_try_send ch v cs) = length cs.
Proof.
  unfold chan_try_send. destruct (cs !! ch) as [[|x b]|]; try done.
  apply length_insert.
Qed.

Lemma client_eta s :
  s = set_pending (λ _, pending s) (set_chanStore (λ _, chanStore s) s).
Proof. by destruct s. Qed.

(** The sweep touches the pending table and the channels only; what it does
    to them, for any part [m] of the table already visited. *)
Lemma drain_fold (s : Client) (m : gmap string nat) :
  let r := map_fold drain_step s m in
  r = set_pending (λ _, pending s ∖ m) (set_chanStore (λ _, chanStore r) s)
  ∧ (∀ ch, chanStore r !! ch = chanStore s !! ch
        ∨ (chanStore s !! ch = Some [] ∧ chanStore r !! ch = Some [None]))
  ∧ (∀ k ch, m !! k = Some ch → chanStore s !! ch = Some [] →
        chanStore r !! ch = Some [None]).
Proof.
  apply (map_fold_weak_ind (λ r m,
    r = set_pending (λ _, pending s ∖ m) (set_chanStore (λ _, chanStore r) s)
    ∧ (∀ ch, chanStore r !! ch = chanStore s !! ch
          ∨ (chanStore s !! ch = Some [] ∧ chanStore r !! ch = Some [None]))
    ∧ (∀ k ch, m !! k = Some ch → chanStore s !! ch = Some [] →
          chanStore r !! ch = Some [None]))); clear m.
  - split; [|split].
    + rewrite map_difference_empty. apply client_eta.
    + by left.
    + intros k ch Hk. by rewrite lookup_empty in Hk.
  - intros i x m r Hi (Hr & Hch & Hm). split; [|split].
    + unfold drain_step. rewrite Hr at 1. simpl. unfold set_pending, set_chanStore; simpl.
      f_equal. apply map_eq. intros j.
      destruct (decide (i = j)) as [->|Hne].
      * rewrite lookup_delete_eq. symmetry. apply lookup_difference_None.
        right. rewrite lookup_insert_eq. by eexists.
      * rewrite lookup_delete_ne by done. rewrite !lookup_difference.
        by rewrite lookup_insert_ne by done.
    + intros ch. unfold drain_step; simpl. rewrite chan_try_send_lookup.
      destruct (decide (ch = x)) as [->|Hne]; [|apply Hch].
      destruct (Hch x) as [Heq|[Hs Hr']].
      * destruct (chanStore r !! x) as [[|y b]|] eqn:E; auto.
      * rewrite Hr'. auto.
    + intros k ch Hk Hs. unfold drain_step; simpl. rewrite chan_try_send_lookup.
      destruct (decide (ch = x)) as [->|Hne].
      * destruct (Hch x) as [Heq|[_ Hr']].
        -- by rewrite Heq, Hs.
        -- by rewrite Hr'.
      * apply (Hm k); [|done].
        rewrite lookup_insert_ne in Hk; [done|]. intros ->.
        rewrite lookup_insert_eq in Hk. congruence.
Qed.

Lemma drainPending_shape s :
  drainPending s =
    set_pending (λ _, ∅) (set_chanStore (λ _, chanStore (drainPending s)) s).
Proof.
  unfold drainPending. destruct (drain_fold s (pending s)) as (H & _ & _).
  rewrite map_difference_diag in H. exact H.
Qed.

Lemma drainPending_pending s : pending (drainPending s) = ∅.
Proof. by rewrite drainPending_shape. Qed.

Lemma drainPending_slot s k ch :
  pending s !! k = Some ch → chanStore s !! ch = Some [] →
  chanStore (drainPending s) !! ch = Some [None].
Proof. destruct (drain_fold s (pending s)) as (_ & _ & H). apply H. Qed.

Lemma drainPending_chan s ch :
  chanStore (drainPending s) !! ch = chanStore s !! ch
  ∨ (chanStore s !! ch = Some [] ∧ chanStore (drainPending s) !! ch = Some [None]).
Proof. destruct (drain_fold s (pending s)) as (_ & H & _). apply H. Qed.


(** ** Close *)

Lemma count_emit f e s :
  count f (log (emit e s)) = count f (log s) + (if f e then 1 else 0).
Proof.
  unfold count; simpl. rewrite filter_app, length_app. f_equal.
  rewrite filter_cons, filter_nil. by destruct (f e).
Qed.

Lemma Close_state e s :
  let s1 := (Close e s).2 in
  connected s1 = false ∧ done s1 = true ∧ pending s1 = ∅ ∧ conn s1 = None
  ∧ calls s1 = calls s ∧ callStore s1 = callStore s ∧ handler s1 = handler s
  ∧ count is_close_done (log s1)
      = count is_close_done (log s) + (if done s then 0 else 1)
  ∧ count is_conn_close (log s1)
      = count is_conn_close (log s) + (match conn s with Some _ => 1 | None => 0 end).
Proof.
  unfold Close.
  set (s2 := if done (set_connected false s) then set_connected false s
             else emit CloseDone (set_done true (set_connected false s))).
  assert (Hs2 : connected s2 = false ∧ done s2 = true ∧ conn s2 = conn s
                ∧ calls s2 = calls s ∧ callStore s2 = callStore s
                ∧ handler s2 = handler s
                ∧ count is_close_done (log s2)
                    = count is_close_done (log s) + (if done s then 0 else 1)
                ∧ count is_conn_close (log s2) = count is_conn_close (log s)).
  { subst s2. change (done (set_connected false s)) with (done s).
    destruct (done s) eqn:Hd.
    - simpl. repeat split; auto.
    - rewrite !count_emit. simpl. repeat split; auto. }
  destruct Hs2 as (Hc & Hd & Hconn & Hcalls & Hst & Hh & Hcd & Hcc).
  cbv zeta. rewrite (drainPending_shape s2).
  change (conn (set_pending _ (set_chanStore _ s2))) with (conn s2). rewrite Hconn.
  destruct (conn s) as [c|]; cbn [snd]; rewrite ?count_emit; simpl;
    repeat split; auto; unfold count in *; simpl in *; lia.
Qed.



(** ** The registry invariant *)

Lemma reg_ok_sub cs cs' st : cs' ⊆ cs → reg_ok cs st → reg_ok cs' st.
Proof.
  intros Hsub (Hv & Hi & Hh). split; [|split].
  - intros k p Hk. eapply Hv, lookup_weaken; eauto.
  - intros k1 k2 p H1 H2. eapply Hi; eapply lookup_weaken; eauto.
  - intros k p c Hk. eapply Hh, lookup_weaken; eauto.
Qed.

Lemma reg_ok_delete cs st k : reg_ok cs st → reg_ok (delete k cs) st.
Proof. apply reg_ok_sub, delete_subseteq. Qed.

Lemma reg_ok_alter cs st p f :
  (∀ c, State c ≠ "hangup" → State (f c) ≠ "hangup") →
  reg_ok cs st → reg_ok cs (alter f p st).
Proof.
  intros Hf (Hv & Hi & Hh). split; [|split]; [|done|].
  - intros k q Hk. rewrite length_alter. eauto.
  - intros k q c Hk. destruct (decide (p = q)) as [->|Hne].
    + rewrite list_lookup_alter_eq. destruct (st !! q) as [c0|] eqn:E; [|done].
      intros [= <-]. eauto.
    + rewrite list_lookup_alter_ne by done. eauto.
Qed.

(** A record no key refers to may be written freely. *)
Lemma reg_ok_unreferenced cs st p f :
  (∀ k, cs !! k ≠ Some p) → reg_ok cs st → reg_ok cs (alter f p st).
Proof.
  intros Hp (Hv & Hi & Hh). split; [|split]; [|done|].
  - intros k q Hk. rewrite length_alter. eauto.
  - intros k q c Hk. destruct (decide (p = q)) as [->|Hne].
    + by destruct (Hp k).
    + rewrite list_lookup_alter_ne by done. eauto.
Qed.

Lemma reg_ok_new cs st k c :
  State c ≠ "hangup" → reg_ok cs st →
  reg_ok (<[k := length st]> cs) (st ++ [c]).
Proof.
  intros Hc (Hv & Hi & Hh). split; [|split].
  - intros k' p. rewrite length_app; simpl. rewrite lookup_insert_Some.
    intros [[_ <-]|[_ Hk]]; [lia|]. apply Hv in Hk. lia.
  - intros k1 k2 p. rewrite !lookup_insert_Some.
    intros [[<- <-]|[? H1]] [[<- ?]|[? H2]]; try done.
    + apply Hv in H2. lia.
    + apply Hv in H1. lia.
    + eauto.
  - intros k' p c'. rewrite lookup_insert_Some.
    intros [[_ <-]|[_ Hk]].
    + rewrite list_lookup_middle by done. by intros [= <-].
    + rewrite lookup_app_l by eauto. eauto.
Qed.

(** Moving a record from one key to another (the promotion in [Dial]). *)
Lemma reg_ok_move cs st k0 k1 p :
  cs !! k0 = Some p → reg_ok cs st → reg_ok (delete k0 (<[k1 := p]> cs)) st.
Proof.
  intros Hp (Hv & Hi & Hh).
  assert (Hlk : ∀ k q, delete k0 (<[k1 := p]> cs) !! k = Some q →
                 (k = k1 ∧ q = p ∧ k ≠ k0) ∨ (cs !! k = Some q ∧ k ≠ k0 ∧ k ≠ k1)).
  { intros k q. rewrite lookup_delete_Some, lookup_insert_Some.
    intros [Hne [[<- <-]|[Hne1 Hk]]]; auto. }
  split; [|split].
  - intros k q Hk. apply Hlk in Hk as [(_ & -> & _)|(Hk & _)]; eauto.
  - intros k1' k2' q H1 H2.
    apply Hlk in H1 as [(-> & -> & ?)|(H1 & ? & ?)];
      apply Hlk in H2 as [(-> & ? & ?)|(H2 & ? & ?)]; subst; try done.
    + by destruct (Hi k0 k2' p).
    + by destruct (Hi k0 k1' p).
    + eauto.
  - intros k q c Hk. apply Hlk in Hk as [(_ & -> & _)|(Hk & _)]; eauto.
Qed.

(** ** The pending-table invariant *)

Lemma pend_ok_empty chs : pend_ok ∅ chs.
Proof. split; intros *; by rewrite lookup_empty. Qed.

Lemma pend_ok_delete pd chs k : pend_ok pd chs → pend_ok (delete k pd) chs.
Proof.
  intros (Hs & Hi). split.
  - intros k' ch. rewrite lookup_delete_Some. intros [_ H]. eauto.
  - intros k1 k2 ch. rewrite !lookup_delete_Some. intros [_ H1] [_ H2]. eauto.
Qed.

Lemma pend_ok_new pd chs k :
  pend_ok pd chs → pend_ok (<[k := length chs]> pd) (chs ++ [[]]).
Proof.
  intros (Hs & Hi). split.
  - intros k' ch. rewrite lookup_insert_Some. intros [[_ <-]|[_ H]].
    + by rewrite list_lookup_middle.
    + apply lookup_app_l_Some. eauto.
  - intros k1 k2 ch. rewrite !lookup_insert_Some.
    intros [[<- <-]|[? H1]] [[<- ?]|[? H2]]; try done.
    + apply Hs, lookup_lt_Some in H2. lia.
    + subst. apply Hs, lookup_lt_Some in H1. lia.
    + eauto.
Qed.

Lemma pend_ok_deliver pd chs k ch v :
  pd !! k = Some ch → pend_ok pd chs → pend_ok (delete k pd) (<[ch := [v]]> chs).
Proof.
  intros Hk (Hs & Hi). split.
  - intros k' ch'. rewrite lookup_delete_Some. intros [Hne H].
    rewrite list_lookup_insert_ne; [eauto|]. intros <-. by destruct (Hi k k' ch).
  - intros k1 k2 ch'. rewrite !lookup_delete_Some. intros [_ H1] [_ H2]. eauto.
Qed.

Lemma pend_ok_recv pd chs ch x rest :
  chs !! ch = Some (x :: rest) → pend_ok pd chs → pend_ok pd (<[ch := rest]> chs).
Proof.
  intros Hch (Hs & Hi). split; [|done].
  intros k ch' Hk. rewrite list_lookup_insert_ne; [eauto|].
  intros <-. apply Hs in Hk. congruence.
Qed.

(** ** handleEvent *)

Lemma registry_step_refl s : registry_step s s.
Proof. by destruct s. Qed.

Lemma registry_step_trans s1 s2 s3 :
  registry_step s1 s2 → registry_step s2 s3 → registry_step s1 s3.
Proof.
  unfold registry_step. intros H12 H23. rewrite H23. rewrite H12 at 1 2 3 4 5 6 7 8 9 10 11 12.
  reflexivity.
Qed.

Lemma registry_step_wf s s' :
  registry_step s s' → reg_ok (calls s') (callStore s') → wf s → wf s'.
Proof. intros -> Hr [_ Hp]. split; [done|]. exact Hp. Qed.

Lemma registry_step_emit e s : registry_step s (emit e s).
Proof. by destruct s. Qed.
Lemma registry_step_update_call p f s : registry_step s (update_call p f s).
Proof. by destruct s. Qed.
Lemma registry_step_reg_delete k s : registry_step s (reg_delete k s).
Proof. by destruct s. Qed.
Lemma registry_step_reg_store k p s : registry_step s (reg_store k p s).
Proof. by destruct s. Qed.
Lemma registry_step_new_call c s : registry_step s (new_call c s).2.
Proof. by destruct s. Qed.

Create HintDb regstep.
#[local] Hint Resolve registry_step_refl registry_step_emit registry_step_update_call
  registry_step_reg_delete registry_step_reg_store registry_step_new_call : regstep.

Ltac regstep :=
  repeat first
    [ apply registry_step_refl
    | (eapply registry_step_trans; [|solve [eauto with regstep]]) ].

Lemma find_or_create_cases callid channel uid s :
  let chanKey := channel +:+ ":" +:+ uid in
  let fresh := mkCall callid "" "" "" "" channel uid "" in
  (∃ p, calls s !! callid = Some p
        ∧ find_or_create callid channel uid s = (Some p, s))
  ∨ (∃ p, calls s !! callid = None ∧ channel ≠ "" ∧ uid ≠ ""
        ∧ calls s !! chanKey = Some p
        ∧ find_or_create callid channel uid s = (Some p, s))
  ∨ (calls s !! callid = None
        ∧ (channel = "" ∨ uid = "" ∨ calls s !! chanKey = None)
        ∧ callid = ""
        ∧ find_or_create callid channel uid s = (None, s))
  ∨ (calls s !! callid = None
        ∧ (channel = "" ∨ uid = "" ∨ calls s !! chanKey = None)
        ∧ callid ≠ ""
        ∧ find_or_create callid channel uid s =
            (Some (length (callStore s)),
             reg_store callid (length (callStore s))
               (set_callStore (λ st, st ++ [fresh]) s))).
Proof.
  intros chanKey fresh. unfold find_or_create.
  destruct (calls s !! callid) as [p|] eqn:Hc; [left; eauto|right].
  destruct (decide (channel = "")) as [Hch|Hch].
  { destruct (decide (callid = "")); [right; left|right; right]; auto. }
  destruct (decide (uid = "")) as [Hu|Hu].
  { destruct (decide (callid = "")); [right; left|right; right]; auto. }
  fold chanKey. destruct (calls s !! chanKey) as [p|] eqn:Hk; [left; eauto 10|right].
  destruct (decide (callid = "")); [left|right]; auto.
Qed.

Lemma merge_event_fields_State msg callid channel uid c :
  State (merge_event_fields msg callid channel uid c) = State c.
Proof.
  unfold merge_event_fields. repeat case_decide; repeat case_match; done.
Qed.

Lemma merge_event_fields_Channel msg callid channel uid c :
  Channel (merge_event_fields msg callid channel uid c)
    = if decide (channel = "") then Channel c else channel.
Proof.
  unfold merge_event_fields. repeat case_decide; repeat case_match; done.
Qed.

Lemma merge_event_fields_UID msg callid channel uid c :
  UID (merge_event_fields msg callid channel uid c)
    = if decide (uid = "") then UID c else uid.
Proof.
  unfold merge_event_fields. repeat case_decide; repeat case_match; done.
Qed.

Lemma merge_event_fields_Direction msg callid channel uid c :
  Direction (merge_event_fields msg callid channel uid c)
    = default (Direction c) (nonempty_field msg "direction").
Proof.
  unfold merge_event_fields. repeat case_decide; repeat case_match; done.
Qed.

Lemma deref_update_call p f s c :
  callStore s !! p = Some c → deref p (update_call p f s) = f c.
Proof.
  intros H. unfold deref, update_call; simpl. by rewrite list_lookup_alter_eq, H.
Qed.

Lemma dispatch_registry_step h ty msg callid p s :
  registry_step s (dispatch h ty msg callid p s).
Proof.
  unfold dispatch. repeat case_decide; try case_match; regstep.
Qed.

Lemma handleEvent_registry_step msg s : registry_step s (handleEvent msg s).
Proof.
  unfold handleEvent. destruct (handler s) as [h|]; [|regstep].
  destruct (find_or_create_cases (str_or_empty msg "callid")
              (str_or_empty msg "channel") (str_or_empty msg "uid") s)
    as [(p & _ & ->)|[(p & _ & _ & _ & _ & ->)|[(_ & _ & _ & ->)|(_ & _ & _ & ->)]]];
    try regstep.
  - eapply registry_step_trans; [|apply dispatch_registry_step]. regstep.
  - eapply registry_step_trans; [|apply dispatch_registry_step]. regstep.
  - eapply registry_step_trans; [|apply dispatch_registry_step].
    eapply registry_step_trans; [|apply registry_step_update_call].
    eapply registry_step_trans; [|apply registry_step_reg_store].
    by destruct s.
Qed.

Lemma deref_Some p s c : callStore s !! p = Some c → deref p s = c.
Proof. intros H. unfold deref. by rewrite H. Qed.

Lemma dispatch_reg_ok h ty msg callid p s k0 c :
  reg_ok (calls s) (callStore s) →
  calls s !! k0 = Some p → callStore s !! p = Some c →
  (k0 = callid ∨ (Channel c ≠ "" ∧ UID c ≠ "" ∧ k0 = Channel c +:+ ":" +:+ UID c)) →
  reg_ok (calls (dispatch h ty msg callid p s)) (callStore (dispatch h ty msg callid p s)).
Proof.
  intros Hok Hk0 Hc Hkey. unfold dispatch.
  destruct (decide (ty = "call_incoming")).
  { destruct (OnCallIncoming h _); simpl;
      [|apply reg_ok_delete]; by apply reg_ok_alter. }
  destruct (decide (ty = "call_ringing")); [simpl; by apply reg_ok_alter|].
  destruct (decide (ty = "call_answered")); [simpl; by apply reg_ok_alter|].
  destruct (decide (ty = "agora_bridge_start")); [simpl; by apply reg_ok_alter|].
  destruct (decide (ty = "agora_bridge_end")); [simpl; by apply reg_ok_alter|].
  destruct (decide (ty = "call_hangup")).
  2:{ destruct (decide (ty = "dtmf_received")); [|done].
      by destruct (isDTMFHandler h). }
  assert (Hd : deref p (reg_delete callid (update_call p (set_State "hangup") s))
               = set_State "hangup" c).
  { unfold deref; simpl. by rewrite list_lookup_alter_eq, Hc. }
  rewrite Hd. simpl.
  pose proof Hok as (Hv & Hi & Hh).
  destruct (decide (Channel c = "")) as [Hch|Hch];
    [|destruct (decide (UID c = "")) as [Hu|Hu]]; simpl.
  - destruct Hkey as [->|(? & _)]; [|done].
    apply reg_ok_unreferenced; [|by apply reg_ok_delete].
    intros k. rewrite lookup_delete_Some. intros [Hne Hk]. eauto.
  - destruct Hkey as [->|(_ & ? & _)]; [|done].
    apply reg_ok_unreferenced; [|by apply reg_ok_delete].
    intros k. rewrite lookup_delete_Some. intros [Hne Hk]. eauto.
  - apply reg_ok_unreferenced; [|by do 2 apply reg_ok_delete].
    intros k. rewrite !lookup_delete_Some. intros (Hne1 & Hne2 & Hk).
    destruct Hkey as [->|(_ & _ & ->)]; eauto.
Qed.

Lemma handleEvent_reg_ok msg s :
  reg_ok (calls s) (callStore s) →
  reg_ok (calls (handleEvent msg s)) (callStore (handleEvent msg s)).
Proof.
  intros Hok. unfold handleEvent. destruct (handler s) as [h|]; [|done].
  set (callid := str_or_empty msg "callid").
  set (channel := str_or_empty msg "channel").
  set (uid := str_or_empty msg "uid").
  pose proof Hok as (Hv & Hi & Hh).
  destruct (find_or_create_cases callid channel uid s)
    as [(p & Hp & ->)|[(p & Hnone & Hch & Hu & Hp & ->)|[(_ & _ & _ & ->)|(Hnone & _ & Hid & ->)]]];
    [| | done |].
  - destruct (lookup_lt_is_Some_2 (callStore s) p) as [c Hc]; [eauto|].
    eapply (dispatch_reg_ok _ _ _ _ _ _ callid); simpl.
    + apply reg_ok_alter; [|done]. intros c'. by rewrite merge_event_fields_State.
    + done.
    + by rewrite list_lookup_alter_eq, Hc.
    + by left.
  - destruct (lookup_lt_is_Some_2 (callStore s) p) as [c Hc]; [eauto|].
    eapply (dispatch_reg_ok _ _ _ _ _ _ (channel +:+ ":" +:+ uid)); simpl.
    + apply reg_ok_alter; [|done]. intros c'. by rewrite merge_event_fields_State.
    + done.
    + by rewrite list_lookup_alter_eq, Hc.
    + right. rewrite merge_event_fields_Channel, merge_event_fields_UID.
      by rewrite !decide_False by done.
  - eapply (dispatch_reg_ok _ _ _ _ _ _ callid); simpl.
    + apply reg_ok_alter; [intros c'; by rewrite merge_event_fields_State|].
      by apply reg_ok_new.
    + apply lookup_insert_eq.
    + rewrite list_lookup_alter_eq, list_lookup_middle by done. done.
    + by left.
Qed.

Lemma handleEvent_wf msg s : wf s → wf (handleEvent msg s).
Proof.
  intros Hwf. eapply registry_step_wf; [apply handleEvent_registry_step| |done].
  apply handleEvent_reg_ok, Hwf.
Qed.

(** ** Every step keeps the client well-formed *)

Lemma NewClient_wf url tok cid app : wf (NewClient url tok cid app).
Proof.
  split; [|apply pend_ok_empty].
  split; [|split]; intros *; simpl; by rewrite lookup_empty.
Qed.

Lemma Connect_frame hs s :
  let s' := (Connect hs s).2 in
  calls s' = calls s ∧ callStore s' = callStore s
  ∧ pending s' = pending s ∧ chanStore s' = chanStore s
  ∧ nextReqID s' = nextReqID s ∧ commands (log s') = commands (log s)
  ∧ handler s' = handler s.
Proof.
  unfold Connect, commands.
  repeat case_match; simpl; rewrite ?omap_app; simpl; rewrite ?app_nil_r; done.
Qed.

Lemma drainPending_wf s : wf s → wf (drainPending s).
Proof.
  intros [Hr _]. rewrite drainPending_shape. split; [done|apply pend_ok_empty].
Qed.

Lemma readLoop_exit_wf s : wf s → wf (readLoop_exit s).
Proof. intros H. by apply drainPending_wf. Qed.

Lemma readLoop_readError_wf e s : wf s → wf (readLoop_readError e s).
Proof.
  intros H. unfold readLoop_readError. apply readLoop_exit_wf.
  destruct (connected s); [|done]. by destruct (handler s).
Qed.

Lemma Close_wf e s : wf s → wf (Close e s).2.
Proof.
  intros [Hr _]. destruct (Close_state e s) as (_ & _ & Hp & _ & Hc & Hst & _).
  split; [by rewrite Hc, Hst|]. rewrite Hp. apply pend_ok_empty.
Qed.

Lemma readLoop_frame_wf parsed s : wf s → wf (loop_client (readLoop_frame parsed s)).
Proof.
  intros Hwf. unfold readLoop_frame.
  destruct (nonempty_field parsed "request_id") as [reqID|];
    [|by apply handleEvent_wf].
  destruct (pending s !! reqID) as [ch|] eqn:Hp; [|by apply handleEvent_wf].
  destruct Hwf as [Hr Hpd]. pose proof Hpd as [Hslot _].
  unfold chan_send; simpl. rewrite (Hslot _ _ Hp). simpl.
  split; [done|]. by apply pend_ok_deliver.
Qed.

Lemma sendCommand_issue_wf action msg writeErr s :
  wf s → wf (sendCommand_issue action msg writeErr s).2.
Proof.
  intros [Hr Hp]. unfold sendCommand_issue.
  destruct (connected s); [|done]. destruct (conn s); [|done]. simpl.
  destruct writeErr; simpl; (split; [done|]).
  - apply pend_ok_delete. by apply pend_ok_new.
  - by apply pend_ok_new.
Qed.

Lemma sendCommand_await_wf reqID respCh sel s r s' :
  sendCommand_await reqID respCh sel s = Some (r, s') → wf s → wf s'.
Proof.
  intros Haw [Hr Hp]. destruct sel; simpl in Haw.
  - destruct (chanStore s !! respCh) as [[|x rest]|] eqn:Hch; try done.
    assert (s' = set_chanStore (<[respCh := rest]>) s) as ->
      by (destruct x; by simplify_eq).
    split; [done|]. by eapply pend_ok_recv.
  - simplify_eq. split; [done|]. by apply pend_ok_delete.
  - simplify_eq. split; [done|]. by apply pend_ok_delete.
Qed.

Lemma reg_delete_wf k s : wf s → wf (reg_delete k s).
Proof. intros [Hr Hp]. split; [by apply reg_ok_delete|done]. Qed.

Lemma Dial_pretrack_wf params s : wf s → wf (Dial_pretrack params s).
Proof. intros [Hr Hp]. split; [by apply reg_ok_new|done]. Qed.

Lemma Dial_promote_wf chanKey resp s : wf s → wf (Dial_promote chanKey resp s).2.
Proof.
  intros [Hr Hp]. unfold Dial_promote; simpl.
  case_decide; [by apply reg_delete_wf|].
  destruct (calls s !! chanKey) as [call|] eqn:Hc; [|by apply reg_delete_wf].
  split; [|done]. simpl. apply reg_ok_alter; [done|]. by apply reg_ok_move.
Qed.

Lemma Accept_update_wf callid appid s : wf s → wf (Accept_update callid appid s).
Proof.
  intros [Hr Hp]. unfold Accept_update. case_decide; [done|].
  destruct (calls s !! callid); [|done]. split; [|done]. by apply reg_ok_alter.
Qed.

Lemma step_wf op s : wf s → wf (step op s).
Proof.
  intros Hwf. destruct op; simpl.
  - done.
  - done.
  - destruct (Connect_frame hs s) as (Hc & Hst & Hp & Hch & _).
    unfold wf. by rewrite Hc, Hst, Hp, Hch.
  - by apply Close_wf.
  - by apply readLoop_frame_wf.
  - by apply readLoop_readError_wf.
  - by apply readLoop_exit_wf.
  - by apply sendCommand_issue_wf.
  - destruct (sendCommand_await reqID respCh sel s) as [[r s']|] eqn:E; [|done].
    by eapply sendCommand_await_wf.
  - by apply Dial_pretrack_wf.
  - by apply reg_delete_wf.
  - by apply Dial_promote_wf.
  - by apply Accept_update_wf.
  - by apply reg_delete_wf.
Qed.

Lemma run_snoc ops op s : run (ops ++ [op]) s = step op (run ops s).
Proof. unfold run. by rewrite foldl_app. Qed.

Lemma run_wf ops s : wf s → wf (run ops s).
Proof.
  intros Hwf. induction ops as [|op ops IH] using rev_ind; [done|].
  rewrite run_snoc. by apply step_wf.
Qed.

(** ** The connection-lost sweep and the waiters *)

Lemma Close_slot e s k ch :
  pending s !! k = Some ch → chanStore s !! ch = Some [] →
  chanStore (Close e s).2 !! ch = Some [None].
Proof.
  intros Hk Hch. unfold Close.
  set (s2 := if done (set_connected false s) then set_connected false s
             else emit CloseDone (set_done true (set_connected false s))).
  assert (pending s2 = pending s ∧ chanStore s2 = chanStore s) as [Hp Hc].
  { subst s2. by destruct (done (set_connected false s)). }
  assert (chanStore (drainPending s2) !! ch = Some [None]) as Hd.
  { apply (drainPending_slot s2 k); by rewrite ?Hp, ?Hc. }
  cbv zeta. by destruct (conn (drainPending s2)).
Qed.

Lemma readLoop_readError_state e s :
  connected (readLoop_readError e s) = false
  ∧ pending (readLoop_readError e s) = ∅
  ∧ calls (readLoop_readError e s) = calls s
  ∧ callStore (readLoop_readError e s) = callStore s
  ∧ handler (readLoop_readError e s) = handler s.
Proof.
  unfold readLoop_readError, readLoop_exit. rewrite drainPending_shape.
  destruct (connected s); [destruct (handler s) eqn:Hh|]; simpl; rewrite ?Hh; done.
Qed.

Lemma readLoop_readError_slot e s k ch :
  pending s !! k = Some ch → chanStore s !! ch = Some [] →
  chanStore (readLoop_readError e s) !! ch = Some [None].
Proof.
  intros Hk Hch. unfold readLoop_readError, readLoop_exit.
  apply (drainPending_slot _ k);
    destruct (connected s); try destruct (handler s); done.
Qed.

Lemma await_nil reqID respCh s :
  chanStore s !! respCh = Some [None] →
  sendCommand_await reqID respCh SelResp s
    = Some ((None, Some EConnectionLost), set_chanStore (<[respCh := []]>) s).
Proof. intros H. unfold sendCommand_await. by rewrite H. Qed.

(** C1. Whatever the client has done since [NewClient], for every command
    in the pending table when the connection is lost -- by the read loop
    returning (on a closed done-signal or on a read error) or by [Close] --
    the sweep leaves the connected-flag false and the pending table empty, and
    the waiter's receive on its slot yields the nil resolution, which
    [sendCommand] returns as the connection-lost error. *)
Theorem sweep_unblocks_every_waiter
    (url tok cid app : string) (ops : list Op)
    (e : string) (closeErr : option Error) (reqID : string) (respCh : nat) (s' : Client) :
  let s := run ops (NewClient url tok cid app) in
  pending s !! reqID = Some respCh →
  s' = readLoop_exit s ∨ s' = readLoop_readError e s ∨ s' = (Close closeErr s).2 →
  connected s' = false ∧ pending s' = ∅
  ∧ ∃ s'', sendCommand_await reqID respCh SelResp s'
            = Some ((None, Some EConnectionLost), s'').
Proof.
  intros s Hp Hs'.
  assert (Hwf : wf s) by apply run_wf, NewClient_wf.
  destruct Hwf as [_ [Hslot _]]. pose proof (Hslot _ _ Hp) as Hch.
  destruct Hs' as [-> | [-> | ->]].
  - unfold readLoop_exit. split; [by rewrite drainPending_shape|].
    split; [apply drainPending_pending|].
    eexists. apply await_nil. by apply (drainPending_slot _ reqID).
  - destruct (readLoop_readError_state e s) as (Hc & Hpd & _).
    split; [done|]. split; [done|].
    eexists. apply await_nil. by apply (readLoop_readError_slot _ _ reqID).
  - destruct (Close_state closeErr s) as (Hc & _ & Hpd & _).
    split; [done|]. split; [done|].
    eexists. apply await_nil. by apply (Close_slot _ _ reqID).
Qed.

Lemma sweep_unblocks_every_waiter_witness :
  let ops := [OpConnect (okHandshake 7); OpIssue "hangup" (event "" "C1") None] in
  let s := run ops client0 in
  pending s !! "hangup_1" = Some 0
  ∧ connected (readLoop_exit s) = false ∧ pending (readLoop_exit s) = ∅
  ∧ ∃ s'', sendCommand_await "hangup_1" 0 SelResp (readLoop_exit s)
            = Some ((None, Some EConnectionLost), s'').
Proof.
  split; [vm_compute; reflexivity|].
  apply (sweep_unblocks_every_waiter "wss://cm/v1/ws/events" "Basic T" "cli" "APP"
           [OpConnect (okHandshake 7); OpIssue "hangup" (event "" "C1") None]
           "" None "hangup_1" 0).
  - vm_compute; reflexivity.
  - left; reflexivity.
Defined.


(** C10. With no handler set, [handleEvent] returns at once: the client is
    left exactly as it was, so the registry, its records and the log are
    unchanged whatever the event is. *)
Theorem handleEvent_without_handler (msg : Msg) (s : Client) :
  handler s = None →
  handleEvent msg s = s
  ∧ registry (handleEvent msg s) = registry s
  ∧ readLoop_frame (delete "request_id" msg) s = Reading s.
Proof.
  intros Hh. assert (He : ∀ m, handleEvent m s = s).
  { intros m. unfold handleEvent. by rewrite Hh. }
  split; [done|]. split; [by rewrite He|].
  unfold readLoop_frame, nonempty_field, str_field.
  by rewrite lookup_delete_eq, He.
Qed.

Lemma handleEvent_without_handler_witness :
  handler client0 = None
  ∧ handleEvent (event "call_incoming" "C2") client0 = client0
  ∧ registry (handleEvent (event "call_incoming" "C2") client0) = registry client0
  ∧ readLoop_frame (delete "request_id" (event "call_incoming" "C2")) client0
      = Reading client0.
Proof.
  split; [reflexivity|].
  apply (handleEvent_without_handler (event "call_incoming" "C2") client0).
  reflexivity.
Defined.

(** ** Hangup events *)





(** ** sendCommand *)

Lemma reqID_of_nonempty action n : reqID_of action n ≠ "".
Proof. unfold reqID_of. by destruct action. Qed.

Lemma commands_emit e s :
  commands (log (emit e s)) =
    commands (log s) ++ match e with SentCommand a m _ => [(a, m)] | _ => [] end.
Proof.
  unfold commands; simpl. rewrite omap_app. f_equal. by destruct e.
Qed.

Lemma commands_app l1 l2 : commands (l1 ++ l2) = commands l1 ++ commands l2.
Proof. apply omap_app. Qed.

Lemma commands_sent a m ok l : commands (SentCommand a m ok :: l) = (a, m) :: commands l.
Proof. done. Qed.

Lemma sendCommand_not_connected action msg o s :
  connected s = false ∨ conn s = None →
  sendCommand action msg o s = Some ((None, Some ENotConnected), s).
Proof.
  intros H. unfold sendCommand, sendCommand_issue.
  destruct (connected s); simpl; [|done].
  destruct H as [H|H]; [done|]. by rewrite H.
Qed.

Lemma sendCommand_connected action msg o s cn :
  connected s = true → conn s = Some cn →
  let reqID := reqID_of action (uint64_add (nextReqID s) 1) in
  let frame := <["request_id" := JStr reqID]> msg in
  ∃ s' ok l,
    sendCommand action msg o s = Some (sendCommand_returns reqID o, s')
    ∧ calls s' = calls s ∧ callStore s' = callStore s ∧ handler s' = handler s
    ∧ nextReqID s' = uint64_add (nextReqID s) 1
    ∧ log s' = log s ++ SentCommand action frame ok :: l
    ∧ commands l = [] ∧ count is_store l = 0 ∧ count is_delete l = 0
    ∧ pending s' !! reqID = None.
Proof.
  intros Hc Hn reqID frame. unfold sendCommand, sendCommand_issue.
  rewrite Hc, Hn. cbv zeta. fold reqID. fold frame. cbn [negb].
  set (s0 := set_pending (<[reqID := _]>) _).
  assert (Hs0 : calls s0 = calls s ∧ callStore s0 = callStore s ∧ handler s0 = handler s
                ∧ nextReqID s0 = uint64_add (nextReqID s) 1 ∧ log s0 = log s
                ∧ pending s0 !! reqID = Some (length (chanStore s))
                ∧ chanStore s0 !! length (chanStore s) = Some []
                ∧ connected s0 = true).
  { subst s0; simpl. rewrite lookup_insert_eq, list_lookup_middle by done. done. }
  destruct Hs0 as (H1 & H2 & H3 & H4 & H5 & H6 & H7 & H8). clearbody s0.
  destruct o as [e|body|e|cause|]; cbn [sendCommand_returns].
  - eexists _, false, []. split; [reflexivity|]. simpl.
    rewrite H1, H2, H3, H4, H5, lookup_delete_eq. done.
  - unfold readLoop_frame, nonempty_field, str_field.
    rewrite lookup_insert_eq. rewrite decide_False by apply reqID_of_nonempty.
    cbn [pending emit]. rewrite H6. unfold chan_send. cbn [chanStore set_pending emit].
    rewrite H7. unfold sendCommand_await. cbn [chanStore set_chanStore set_pending emit].
    rewrite list_lookup_insert_eq by (by eapply lookup_lt_Some).
    eexists _, true, []. split; [reflexivity|]. simpl.
    rewrite H1, H2, H3, H4, H5, lookup_delete_eq. done.
  - set (s1 := emit _ s0).
    assert (Hslot : chanStore (readLoop_readError e s1) !! length (chanStore s) = Some [None]).
    { by apply (readLoop_readError_slot e s1 reqID). }
    rewrite (await_nil _ _ _ Hslot).
    destruct (readLoop_readError_state e s1) as (_ & Hp & Hcalls & Hst & Hh).
    assert (Hlog : ∃ l, log (readLoop_readError e s1) = log s1 ++ l
                        ∧ commands l = [] ∧ count is_store l = 0 ∧ count is_delete l = 0).
    { unfold readLoop_readError, readLoop_exit. rewrite drainPending_shape.
      destruct (connected s1); [destruct (handler s1)|]; simpl.
      - by eexists [_].
      - exists []. by rewrite app_nil_r.
      - exists []. by rewrite app_nil_r. }
    destruct Hlog as (l & Hlog & Hl1 & Hl2 & Hl3).
    eexists _, true, l. split; [reflexivity|]. simpl.
    rewrite Hcalls, Hst, Hh, Hp, Hlog. subst s1; simpl.
    rewrite H1, H2, H3, H5, <-app_assoc, lookup_empty.
    split; [done|]. split; [done|]. split; [done|].
    split; [|done].
    unfold readLoop_readError, readLoop_exit. rewrite drainPending_shape.
    destruct (connected (emit _ s0)); [destruct (handler (emit _ s0))|]; done.
  - eexists _, true, []. split; [reflexivity|]. simpl.
    rewrite H1, H2, H3, H4, H5, lookup_delete_eq. done.
  - eexists _, true, []. split; [reflexivity|]. simpl.
    rewrite H1, H2, H3, H4, H5, lookup_delete_eq. done.
Qed.

(** ** Hangup *)

Lemma hangupMsg_fields action callid call :
  hangupMsg action callid call !! "action" = Some (JStr action)
  ∧ hangupMsg action callid call !! "callid" = Some (JStr callid).
Proof.
  unfold hangupMsg. destruct call as [c|]; [case_decide|]; by simplify_map_eq.
Qed.

Lemma str_field_request_id reqID body k :
  k ≠ "request_id" →
  str_field (<["request_id" := JStr reqID]> body) k = str_field body k.
Proof. intros Hk. unfold str_field. by rewrite lookup_insert_ne. Qed.

Lemma command_error_returns reqID o :
  command_error (sendCommand_returns reqID o) = command_outcome o.
Proof. destruct o; simpl; try done. by rewrite str_field_request_id. Qed.

(** C7. [Hangup] always returns.  On a live connection it writes exactly one
    frame, whose action is [endcall] when the registry holds the call with
    direction [outbound] and [hangup] otherwise (also for an unknown call);
    a reply carrying an [error] string makes it return that error; when it
    returns nil it has deleted the call-id key, and whenever it returns an
    error the registry is as it was.  Off line it returns not-connected,
    writes nothing and changes nothing. *)
Theorem Hangup_action_and_cleanup (callid : string) (o : Outcome) (s : Client) :
  let action :=
    match calls s !! callid with
    | Some p => if decide (Direction (deref p s) = "outbound") then "endcall" else "hangup"
    | None => "hangup"
    end in
  ∃ r s',
    Hangup callid o s = Some (r, s')
    ∧ callStore s' = callStore s
    ∧ (r = None → calls s' = delete callid (calls s))
    ∧ (r ≠ None → calls s' = calls s)
    ∧ (connected s = false ∨ conn s = None →
         r = Some ENotConnected ∧ commands (log s') = commands (log s))
    ∧ (connected s = true → is_Some (conn s) →
         r = command_outcome o
         ∧ (∀ body errMsg, o = Replied body → str_field body "error" = Some errMsg →
              r = Some (EReply errMsg))
         ∧ ∃ frame,
             commands (log s') = commands (log s) ++ [(action, frame)]
             ∧ frame !! "action" = Some (JStr action)
             ∧ frame !! "callid" = Some (JStr callid)).
Proof.
  intros action. unfold Hangup.
  set (call := (λ p, deref p s) <$> calls s !! callid).
  assert (Ha : hangupAction call = action).
  { subst call action. by destruct (calls s !! callid). }
  rewrite Ha.
  destruct (connected s) eqn:Hc; [destruct (conn s) as [cn|] eqn:Hn|].
  - destruct (sendCommand_connected action (hangupMsg action callid call) o s cn Hc Hn)
      as (s1 & ok & l & -> & Hcalls & Hst & _ & _ & Hlog & Hl & _).
    rewrite command_error_returns.
    assert (Hcmd : commands (log s1) = commands (log s)
              ++ [(action, <["request_id" := JStr (reqID_of action (uint64_add (nextReqID s) 1))]>
                             (hangupMsg action callid call))]).
    { by rewrite Hlog, commands_app, commands_sent, Hl. }
    destruct (hangupMsg_fields action callid call) as [Hf1 Hf2].
    destruct (command_outcome o) as [err|] eqn:Ho.
    + exists (Some err), s1. split; [done|]. split; [done|].
      split; [done|]. split; [done|]. split; [by intros [|]|].
      intros _ _. split; [done|]. split.
      { intros body errMsg -> Hb. simpl in Ho. rewrite Hb in Ho. by simplify_eq. }
      eexists. split; [exact Hcmd|]. by rewrite !lookup_insert_ne.
    + exists None, (reg_delete callid s1). split; [done|].
      split; [exact Hst|]. split; [intros _; simpl; by rewrite Hcalls|]. split; [done|].
      split; [by intros [|]|].
      intros _ _. split; [done|]. split.
      { intros body errMsg -> Hb. simpl in Ho. by rewrite Hb in Ho. }
      eexists. unfold reg_delete. rewrite commands_emit, app_nil_r.
      split; [exact Hcmd|]. by rewrite !lookup_insert_ne.
  - rewrite sendCommand_not_connected by auto. simpl.
    exists (Some ENotConnected), s. split_and!; try done.
  - rewrite sendCommand_not_connected by auto. simpl.
    exists (Some ENotConnected), s. split_and!; done.
Qed.

Lemma Hangup_action_and_cleanup_witness :
  let s := run opsDialled client0 in
  connected s = true ∧ is_Some (conn s)
  ∧ ∃ s' frame,
      Hangup "C1" (Replied ∅) s = Some (None, s')
      ∧ calls s' = delete "C1" (calls s)
      ∧ commands (log s') = commands (log s) ++ [("endcall", frame)]
      ∧ frame !! "action" = Some (JStr "endcall").
Proof.
  intros s.
  assert (Hc : connected s = true) by (vm_compute; reflexivity).
  assert (Hn : is_Some (conn s)) by (exists 7; vm_compute; reflexivity).
  split; [exact Hc|]. split; [exact Hn|].
  destruct (Hangup_action_and_cleanup "C1" (Replied ∅) s)
    as (r & s' & HH & _ & Hdel & _ & _ & Hlive).
  destruct (Hlive Hc Hn) as (Hr & _ & frame & Hcmd & Hact & _).
  assert (r = None) as -> by (rewrite Hr; vm_compute; reflexivity).
  exists s', frame. split; [exact HH|]. split; [by apply Hdel|].
  split; [exact Hcmd|exact Hact].
Defined.

(** ** Dial *)

Lemma delete_insert_insert (m : gmap string nat) k c v w :
  delete k (<[c := v]> (<[k := w]> m)) = delete k (<[c := v]> m).
Proof.
  apply map_eq. intros i. destruct (decide (i = k)) as [->|Hk].
  - by rewrite !lookup_delete_eq.
  - rewrite !lookup_delete_ne by done.
    destruct (decide (i = c)) as [->|Hc].
    + by rewrite !lookup_insert_eq.
    + by rewrite !lookup_insert_ne by done.
Qed.

Lemma commands_reg_delete k s : commands (log (reg_delete k s)) = commands (log s).
Proof. unfold reg_delete. rewrite commands_emit, app_nil_r. reflexivity. Qed.

Lemma commands_reg_store k p s : commands (log (reg_store k p s)) = commands (log s).
Proof. unfold reg_store. rewrite commands_emit, app_nil_r. reflexivity. Qed.

Lemma Dial_promote_spec chanKey resp s p c :
  calls s !! chanKey = Some p → callStore s !! p = Some c →
  let cid := reply_callid resp in
  let s' := (Dial_promote chanKey resp s).2 in
  drCallID (Dial_promote chanKey resp s).1 = cid
  ∧ drData (Dial_promote chanKey resp s).1 = resp
  ∧ (cid = "" → calls s' = delete chanKey (calls s) ∧ callStore s' = callStore s)
  ∧ (cid ≠ "" → calls s' = delete chanKey (<[cid := p]> (calls s))
                ∧ callStore s' = alter (set_CallID cid) p (callStore s))
  ∧ commands (log s') = commands (log s).
Proof.
  intros Hk Hc cid s'. subst s'. unfold Dial_promote. fold (reply_callid resp). fold cid.
  cbn [fst snd drCallID drData]. split; [done|]. split; [done|].
  destruct (decide (cid = "")) as [He|He].
  - split; [done|]. split; [intros E; by destruct E|].
    apply commands_reg_delete.
  - rewrite Hk. split; [intros E; by destruct He|]. split; [done|].
    rewrite commands_reg_delete, commands_reg_store. reflexivity.
Qed.

Lemma Dial_promote_log chanKey resp s :
  ∃ l, log (Dial_promote chanKey resp s).2 = log s ++ l ∧ commands l = [].
Proof.
  unfold Dial_promote. cbn [snd]. case_decide; [|destruct (calls s !! chanKey)].
  - by exists [RegDelete chanKey].
  - exists [RegStore (match obj_field resp "data" with
                      | Some d => str_or_empty d "callid" | None => "" end);
            RegDelete chanKey].
    split; [|done]. simpl. by rewrite <-app_assoc.
  - by exists [RegDelete chanKey].
Qed.




(** ** Events for unknown calls *)

Lemma callbacks_emit e s :
  callbacks (log (emit e s)) = callbacks (log s) ++ (if is_callback e then [e] else []).
Proof.
  unfold callbacks; simpl. rewrite filter_app. f_equal.
  rewrite filter_cons, filter_nil. by destruct (is_callback e).
Qed.

Lemma registry_ext s s' :
  calls s' = calls s →
  (∀ p, p < length (callStore s) → callStore s' !! p = callStore s !! p) →
  (∀ k p, calls s !! k = Some p → p < length (callStore s)) →
  registry s' = registry s.
Proof.
  intros Hc Hst Hv. unfold registry. rewrite Hc. apply map_eq. intros k.
  rewrite !lookup_omap. destruct (calls s !! k) as [p|] eqn:Hk; [|done].
  simpl. eauto.
Qed.

Lemma handleEvent_unknown_hangup msg h s :
  handler s = Some h →
  str_or_empty msg "event" = "call_hangup" →
  calls s !! str_or_empty msg "callid" = None →
  (str_or_empty msg "channel" ≠ "" → str_or_empty msg "uid" ≠ "" →
     calls s !! (str_or_empty msg "channel" +:+ ":" +:+ str_or_empty msg "uid") = None) →
  str_or_empty msg "callid" ≠ "" →
  let s' := handleEvent msg s in
  calls s' = calls s
  ∧ callStore s' = callStore s ++ [hangup_of_unknown msg]
  ∧ callbacks (log s') = callbacks (log s) ++ [CbCallHangup (hangup_of_unknown msg)].
Proof.
  intros Hh Hty Hcid Hkey Hne. unfold handleEvent, hangup_of_unknown.
  rewrite Hh, Hty. revert Hcid Hkey Hne.
  set (callid := str_or_empty msg "callid").
  set (channel := str_or_empty msg "channel").
  set (uid := str_or_empty msg "uid").
  set (fresh := mkCall callid "" "" "" "" channel uid "").
  set (merge := merge_event_fields msg callid channel uid).
  intros Hcid Hkey Hne.
  destruct (find_or_create_cases callid channel uid s)
    as [(q & Hq & _)|[(q & _ & Hch0 & Hu0 & Hq & _)|[(_ & _ & ? & _)|(_ & _ & _ & ->)]]];
    [congruence|by rewrite Hkey in Hq|done|].
  fold fresh. cbv zeta.
  set (p := length (callStore s)).
  unfold dispatch. rewrite !decide_False by done. rewrite decide_True by done. cbv zeta.
  assert (Hst : alter (set_State "hangup") p (alter merge p (callStore s ++ [fresh]))
                = callStore s ++ [set_State "hangup" (merge fresh)]).
  { apply list_eq. intros i. destruct (decide (i = p)) as [->|Hi].
    - rewrite !list_lookup_alter_eq, !list_lookup_middle by done. done.
    - rewrite !list_lookup_alter_ne by done. destruct (decide (i < p)).
      + by rewrite !lookup_app_l by done.
      + rewrite !lookup_ge_None_2; [done|..]; rewrite length_app; simpl; lia. }
  assert (Hd : deref p (reg_delete callid (update_call p (set_State "hangup")
                 (update_call p merge (reg_store callid p
                    (set_callStore (λ st, st ++ [fresh]) s)))))
               = set_State "hangup" (merge fresh)).
  { unfold deref; simpl. rewrite Hst. by rewrite list_lookup_middle. }
  rewrite Hd.
  assert (Hch : Channel (set_State "hangup" (merge fresh)) = channel).
  { simpl. subst merge. rewrite merge_event_fields_Channel. by case_decide. }
  assert (Hu : UID (set_State "hangup" (merge fresh)) = uid).
  { simpl. subst merge. rewrite merge_event_fields_UID. by case_decide. }
  rewrite Hch, Hu.
  destruct (decide (channel = "")); [|destruct (decide (uid = ""))].
  - rewrite Hd, callbacks_emit. simpl. rewrite Hst.
    split; [by apply delete_insert_id|]. split; [done|].
    unfold callbacks; simpl. rewrite !filter_app, !filter_cons, !filter_nil. simpl.
    by rewrite !app_nil_r.
  - rewrite Hd, callbacks_emit. simpl. rewrite Hst.
    split; [by apply delete_insert_id|]. split; [done|].
    unfold callbacks; simpl. rewrite !filter_app, !filter_cons, !filter_nil. simpl.
    by rewrite !app_nil_r.
  - assert (Hd' : deref p (reg_delete (channel +:+ ":" +:+ uid) (reg_delete callid
                   (update_call p (set_State "hangup") (update_call p merge
                     (reg_store callid p (set_callStore (λ st, st ++ [fresh]) s))))))
                  = set_State "hangup" (merge fresh)).
    { unfold deref; simpl. rewrite Hst. by rewrite list_lookup_middle. }
    rewrite Hd', callbacks_emit. simpl. rewrite Hst.
    split; [rewrite delete_insert_id by done; apply delete_id; by apply Hkey|].
    split; [done|].
    unfold callbacks; simpl. rewrite !filter_app, !filter_cons, !filter_nil. simpl.
    by rewrite !app_nil_r.
Qed.

(** C6, as amended.  A [call_hangup] event whose call id is not in the
    registry and whose [channel:uid] matches no record leaves the registry as
    it was: the same keys, and every record that existed untouched.  No
    callback is invoked when there is no handler or the call id is empty;
    otherwise the hangup callback is invoked once, with a record created from
    the event. *)
Theorem unknown_hangup_leaves_registry (msg : Msg) (s : Client) :
  str_or_empty msg "event" = "call_hangup" →
  calls s !! str_or_empty msg "callid" = None →
  (str_or_empty msg "channel" ≠ "" → str_or_empty msg "uid" ≠ "" →
     calls s !! (str_or_empty msg "channel" +:+ ":" +:+ str_or_empty msg "uid") = None) →
  let s' := handleEvent msg s in
  calls s' = calls s
  ∧ (∃ extra, callStore s' = callStore s ++ extra)
  ∧ ((∀ k p, calls s !! k = Some p → p < length (callStore s)) →
       registry s' = registry s)
  ∧ callbacks (log s') = callbacks (log s) ++
      match handler s with
      | Some _ =>
          if decide (str_or_empty msg "callid" = "") then []
          else [CbCallHangup (hangup_of_unknown msg)]
      | None => []
      end.
Proof.
  intros Hty Hcid Hkey s'.
  assert (Hsame : handleEvent msg s = s →
            calls s' = calls s ∧ (∃ extra, callStore s' = callStore s ++ extra)
            ∧ ((∀ k p, calls s !! k = Some p → p < length (callStore s)) →
                 registry s' = registry s)
            ∧ callbacks (log s') = callbacks (log s) ++ []).
  { intros E. subst s'. rewrite E, app_nil_r. split_and!; try done.
    exists []. by rewrite app_nil_r. }
  destruct (handler s) as [h|] eqn:Hh.
  2:{ apply Hsame. unfold handleEvent. by rewrite Hh. }
  destruct (decide (str_or_empty msg "callid" = "")) as [He|Hne].
  { apply Hsame. unfold handleEvent. rewrite Hh.
    destruct (find_or_create_cases (str_or_empty msg "callid")
                (str_or_empty msg "channel") (str_or_empty msg "uid") s)
      as [(q & Hq & _)|[(q & _ & Hch0 & Hu0 & Hq & _)|[(_ & _ & _ & ->)|(_ & _ & ? & _)]]];
      [congruence|by rewrite Hkey in Hq|done|done]. }
  destruct (handleEvent_unknown_hangup msg h s Hh Hty Hcid Hkey Hne)
    as (Hcalls & Hst & Hcb).
  fold s' in Hcalls, Hst, Hcb. split; [done|]. split; [by eexists|]. split; [|done].
  intros Hv. apply registry_ext; [done| |done].
  intros p Hp. rewrite Hst. by apply lookup_app_l.
Qed.

Lemma unknown_hangup_leaves_registry_witness :
  let msg := <["uid" := JStr "7"]> (<["channel" := JStr "ch9"]> (event "call_hangup" "C9")) in
  let s := run opsDialled client0 in
  str_or_empty msg "event" = "call_hangup"
  ∧ calls s !! "C9" = None ∧ calls s !! "ch9:7" = None
  ∧ calls (handleEvent msg s) = calls s
  ∧ registry (handleEvent msg s) = registry s
  ∧ callbacks (log (handleEvent msg s))
      = callbacks (log s) ++ [CbCallHangup (mkCall "C9" "hangup" "" "" "" "ch9" "7" "")].
Proof.
  intros msg s.
  assert (H1 : str_or_empty msg "event" = "call_hangup") by (vm_compute; reflexivity).
  assert (H2 : calls s !! str_or_empty msg "callid" = None) by (vm_compute; reflexivity).
  assert (H3 : calls s !! (str_or_empty msg "channel" +:+ ":" +:+ str_or_empty msg "uid")
               = None) by (vm_compute; reflexivity).
  destruct (unknown_hangup_leaves_registry msg s H1 H2 (λ _ _, H3)) as (Hc & _ & Hr & Hcb).
  split; [exact H1|]. split; [exact H2|]. split; [exact H3|].
  split; [exact Hc|]. split; [|exact Hcb].
  apply Hr. apply (run_wf opsDialled client0 (NewClient_wf _ _ _ _)).
Defined.

(** C6 as stated fails: an unknown [call_hangup] with a non-empty call id
    does invoke the hangup callback. *)
Lemma unknown_hangup_invokes_callback :
  let msg := event "call_hangup" "C2" in
  str_or_empty msg "event" = "call_hangup"
  ∧ calls client1 !! "C2" = None ∧ calls client1 !! ":" = None
  ∧ registry (handleEvent msg client1) = registry client1
  ∧ callbacks (log (handleEvent msg client1)) ≠ callbacks (log client1).
Proof.
  split; [reflexivity|]. split; [reflexivity|]. split; [reflexivity|].
  split; [vm_compute; reflexivity|]. vm_compute. discriminate.
Qed.

(** ** Declined incoming calls *)






(** ** The direction field *)

Lemma dispatch_callStore h ty msg callid q s :
  ∃ g, callStore (dispatch h ty msg callid q s) = alter g q (callStore s)
    ∧ ((ty = "call_incoming" ∧ ∀ c, Direction (g c) = "inbound")
       ∨ (ty ≠ "call_incoming" ∧ ∀ c, Direction (g c) = Direction c)).
Proof.
  unfold dispatch.
  destruct (decide (ty = "call_incoming")) as [->|Hne].
  { eexists. split; [|left; split; [done|]].
    - by destruct (OnCallIncoming h _).
    - done. }
  destruct (decide (ty = "call_ringing"));
    [exists (set_State "ringing"); split; [reflexivity|by right]|].
  destruct (decide (ty = "call_answered"));
    [exists (set_State "answered"); split; [reflexivity|by right]|].
  destruct (decide (ty = "agora_bridge_start"));
    [exists (set_State "bridged"); split; [reflexivity|by right]|].
  destruct (decide (ty = "agora_bridge_end"));
    [exists (set_State "unbridged"); split; [reflexivity|by right]|].
  destruct (decide (ty = "call_hangup")).
  { exists (set_State "hangup"). split; [|by right]. by repeat case_decide. }
  exists id. split; [|by right]. rewrite list_alter_id by done.
  destruct (decide (ty = "dtmf_received")); [|done].
  by destruct (isDTMFHandler h).
Qed.

Lemma handleEvent_direction msg s p c :
  callStore s !! p = Some c →
  ∃ c', callStore (handleEvent msg s) !! p = Some c'
    ∧ (Direction c' = Direction c
       ∨ (is_Some (handler s)
          ∧ (find_or_create (str_or_empty msg "callid") (str_or_empty msg "channel")
               (str_or_empty msg "uid") s).1 = Some p
          ∧ ((str_or_empty msg "event" = "call_incoming" ∧ Direction c' = "inbound")
             ∨ nonempty_field msg "direction" = Some (Direction c')))).
Proof.
  intros Hc. unfold handleEvent. destruct (handler s) as [h|] eqn:Hh; [|by eauto].
  set (callid := str_or_empty msg "callid").
  set (channel := str_or_empty msg "channel").
  set (uid := str_or_empty msg "uid").
  set (merge := merge_event_fields msg callid channel uid).
  assert (Hfound : ∀ q, find_or_create callid channel uid s = (Some q, s) →
    ∃ c', callStore (dispatch h (str_or_empty msg "event") msg callid q
                       (update_call q merge s)) !! p = Some c'
      ∧ (Direction c' = Direction c
         ∨ (is_Some (Some h) ∧ Some q = Some p
            ∧ ((str_or_empty msg "event" = "call_incoming" ∧ Direction c' = "inbound")
               ∨ nonempty_field msg "direction" = Some (Direction c'))))).
  { intros q _.
    destruct (dispatch_callStore h (str_or_empty msg "event") msg callid q
                (update_call q merge s)) as (g & -> & Hg).
    simpl. destruct (decide (q = p)) as [->|Hne].
    - rewrite !list_lookup_alter_eq, Hc. simpl. eexists. split; [done|].
      destruct Hg as [[Hty Hg]|[Hty Hg]]; rewrite Hg.
      + right. split; [by eexists|]. split; [done|]. by left.
      + subst merge. rewrite merge_event_fields_Direction.
        destruct (nonempty_field msg "direction") as [d|]; simpl; [|by left].
        right. split; [by eexists|]. split; [done|]. by right.
    - rewrite !list_lookup_alter_ne by done. eauto. }
  destruct (find_or_create_cases callid channel uid s)
    as [(q & _ & E)|[(q & _ & _ & _ & _ & E)|[(_ & _ & _ & E)|(_ & _ & _ & E)]]];
    rewrite E; cbn [fst].
  - by apply Hfound.
  - by apply Hfound.
  - eauto.
  - destruct (dispatch_callStore h (str_or_empty msg "event") msg callid
                (length (callStore s))
                (update_call (length (callStore s)) merge
                   (reg_store callid (length (callStore s))
                      (set_callStore
                         (λ st, st ++ [mkCall callid "" "" "" "" channel uid ""]) s))))
      as (g & -> & _).
    simpl. pose proof (lookup_lt_Some _ _ _ Hc) as Hlt.
    rewrite !list_lookup_alter_ne by lia. rewrite lookup_app_l by done. eauto.
Qed.

(** C5, as amended.  Once a record exists, no step of a command, of [Close]
    or of the connection changes its direction.  Only an event changes it,
    and only on the record the event addresses: [call_incoming] sets it to
    [inbound], and any event carrying a non-empty [direction] sets it to that
    value. *)
Theorem direction_changes_only_by_events (op : Op) (s : Client) (p : nat) (c : Call) :
  callStore s !! p = Some c →
  ∃ c', callStore (step op s) !! p = Some c'
    ∧ (Direction c' = Direction c
       ∨ ∃ msg, op = OpFrame msg ∧ is_Some (handler s)
           ∧ (find_or_create (str_or_empty msg "callid") (str_or_empty msg "channel")
                (str_or_empty msg "uid") s).1 = Some p
           ∧ ((str_or_empty msg "event" = "call_incoming" ∧ Direction c' = "inbound")
              ∨ nonempty_field msg "direction" = Some (Direction c'))).
Proof.
  intros Hc.
  assert (Hsame : ∀ s', callStore s' = callStore s →
            ∃ c', callStore s' !! p = Some c' ∧ (Direction c' = Direction c ∨
              ∃ msg, op = OpFrame msg ∧ is_Some (handler s)
                ∧ (find_or_create (str_or_empty msg "callid") (str_or_empty msg "channel")
                     (str_or_empty msg "uid") s).1 = Some p
                ∧ ((str_or_empty msg "event" = "call_incoming" ∧ Direction c' = "inbound")
                   ∨ nonempty_field msg "direction" = Some (Direction c')))).
  { intros s' ->. eauto. }
  assert (Halter : ∀ s' f q, (∀ x, Direction (f x) = Direction x) →
            callStore s' = alter f q (callStore s) →
            ∃ c', callStore s' !! p = Some c' ∧ (Direction c' = Direction c ∨
              ∃ msg, op = OpFrame msg ∧ is_Some (handler s)
                ∧ (find_or_create (str_or_empty msg "callid") (str_or_empty msg "channel")
                     (str_or_empty msg "uid") s).1 = Some p
                ∧ ((str_or_empty msg "event" = "call_incoming" ∧ Direction c' = "inbound")
                   ∨ nonempty_field msg "direction" = Some (Direction c')))).
  { intros s' f q Hf ->. destruct (decide (q = p)) as [->|Hne].
    - rewrite list_lookup_alter_eq, Hc. simpl. eauto.
    - rewrite list_lookup_alter_ne by done. eauto. }
  destruct op; simpl.
  - by apply Hsame.
  - by apply Hsame.
  - apply Hsame. by destruct (Connect_frame hs s) as (_ & -> & _).
  - apply Hsame. by destruct (Close_state connCloseErr s) as (_ & _ & _ & _ & _ & -> & _).
  - unfold readLoop_frame.
    assert (He : ∃ c', callStore (handleEvent parsed s) !! p = Some c'
              ∧ (Direction c' = Direction c ∨
                 ∃ msg, OpFrame parsed = OpFrame msg ∧ is_Some (handler s)
                   ∧ (find_or_create (str_or_empty msg "callid") (str_or_empty msg "channel")
                        (str_or_empty msg "uid") s).1 = Some p
                   ∧ ((str_or_empty msg "event" = "call_incoming" ∧ Direction c' = "inbound")
                      ∨ nonempty_field msg "direction" = Some (Direction c')))).
    { destruct (handleEvent_direction parsed s p c Hc) as (c' & Hc' & Hd).
      exists c'. split; [done|]. destruct Hd as [Hd|Hd]; [by left|right].
      by exists parsed. }
    destruct (nonempty_field parsed "request_id") as [reqID|]; [|exact He].
    destruct (pending s !! reqID) as [ch|]; [|exact He].
    apply Hsame. unfold chan_send. by repeat case_match.
  - apply Hsame. by destruct (readLoop_readError_state e s) as (_ & _ & _ & -> & _).
  - apply Hsame. unfold readLoop_exit. by rewrite drainPending_shape.
  - apply Hsame. unfold sendCommand_issue. by repeat case_match.
  - destruct (sendCommand_await reqID respCh sel s) as [[r s']|] eqn:E; [|by apply Hsame].
    apply Hsame. destruct sel; simpl in E.
    + destruct (chanStore s !! respCh) as [[|[x|] rest]|]; by simplify_eq.
    + by simplify_eq.
    + by simplify_eq.
  - exists c. split; [|by left]. by apply lookup_app_l_Some.
  - by apply Hsame.
  - unfold Dial_promote. simpl. case_decide; [by apply Hsame|].
    destruct (calls s !! chanKey) as [q|]; [|by apply Hsame].
    eapply (Halter _ (set_CallID _) q); [done|reflexivity].
  - unfold Accept_update. case_decide; [by apply Hsame|].
    destruct (calls s !! callid) as [q|]; [|by apply Hsame].
    eapply (Halter _ (set_AppID _) q); [done|reflexivity].
  - by apply Hsame.
Qed.

Lemma direction_changes_only_by_events_witness :
  let s := run opsDialled client0 in
  let c := mkCall "C1" "answered" "outbound" "+15551234567" "+18005551234" "ch1" "100" "" in
  callStore s !! 0 = Some c
  ∧ ∃ c', callStore (step (OpAcceptUpdate "C1" "APP2") s) !! 0 = Some c'
       ∧ Direction c' = "outbound".
Proof.
  intros s c.
  assert (Hc : callStore s !! 0 = Some c) by (vm_compute; reflexivity).
  split; [exact Hc|].
  destruct (direction_changes_only_by_events (OpAcceptUpdate "C1" "APP2") s 0 c Hc)
    as (c' & Hc' & Hd).
  exists c'. split; [exact Hc'|].
  destruct Hd as [Hd|(msg & Hop & _)]; [exact Hd|discriminate Hop].
Defined.

(** C5 as stated fails: the record [Dial] created with direction [outbound]
    is still in the registry, under the same key, after a [call_incoming]
    event for its call id, and its direction is then [inbound]. *)
Lemma incoming_event_rewrites_direction :
  let s := run opsDialled client0 in
  let s' := handleEvent (event "call_incoming" "C1") s in
  calls s !! "C1" = Some 0 ∧ calls s' !! "C1" = Some 0
  ∧ Direction (deref 0 s) = "outbound"
  ∧ Direction (deref 0 s') = "inbound"
  ∧ Direction (deref 0 s') ≠ Direction (deref 0 s).
Proof.
  split; [vm_compute; reflexivity|]. split; [vm_compute; reflexivity|].
  split; [vm_compute; reflexivity|]. split; [vm_compute; reflexivity|].
  vm_compute. discriminate.
Qed.

(** ** Request identifiers *)




















Lemma run_cons op ops s : run (op :: ops) s = run ops (step op s).
Proof. done. Qed.



(** ** The operations as histories

    Whole calls of [sendCommand], [Dial], [Accept], [Hangup] and [readLoop]
    are sequences of steps, so what holds after every history holds after
    them. *)

Lemma step_await reqID ch sel s r s' :
  sendCommand_await reqID ch sel s = Some (r, s') → step (OpAwait reqID ch sel) s = s'.
Proof. intros H. unfold step. by rewrite H. Qed.

Lemma sendCommand_history action msg o s r s' :
  sendCommand action msg o s = Some (r, s') → ∃ ops, s' = run ops s.
Proof.
  unfold sendCommand.
  set (w := match o with WriteFails e => Some e | _ => None end).
  destruct (sendCommand_issue action msg w s) as [[e|reqID ch] s1] eqn:E.
  - intros [= _ <-]. exists [OpIssue action msg w]. unfold run, step; simpl. by rewrite E.
  - assert (Hs1 : step (OpIssue action msg w) s = s1) by (unfold step; by rewrite E).
    destruct o as [e|body|e|cause|]; [done| | | |].
    + destruct (readLoop_frame _ s1) as [s2| |] eqn:F; [|done|done].
      intros Haw.
      assert (Hs2 : step (OpFrame (<["request_id" := JStr reqID]> body)) s1 = s2)
        by (unfold step; by rewrite F).
      exists [OpIssue action msg w; OpFrame (<["request_id" := JStr reqID]> body);
              OpAwait reqID ch SelResp].
      rewrite !run_cons, Hs1, Hs2. by rewrite (step_await _ _ _ _ _ _ Haw).
    + intros Haw.
      exists [OpIssue action msg w; OpReadError e; OpAwait reqID ch SelResp].
      rewrite !run_cons, Hs1. change (step (OpReadError e) s1) with (readLoop_readError e s1).
      by rewrite (step_await _ _ _ _ _ _ Haw).
    + intros Haw. exists [OpIssue action msg w; OpAwait reqID ch (SelCtxDone cause)].
      rewrite !run_cons, Hs1. by rewrite (step_await _ _ _ _ _ _ Haw).
    + intros Haw. exists [OpIssue action msg w; OpAwait reqID ch SelDeadline].
      rewrite !run_cons, Hs1. by rewrite (step_await _ _ _ _ _ _ Haw).
Qed.

Lemma run_app ops1 ops2 s : run (ops1 ++ ops2) s = run ops2 (run ops1 s).
Proof. apply foldl_app. Qed.

Lemma Dial_history params o s r s' :
  Dial params o s = Some (r, s') → ∃ ops, s' = run ops s.
Proof.
  unfold Dial.
  destruct (sendCommand "outbound" (dialMsg params) o (Dial_pretrack params s))
    as [[[resp err] s1]|] eqn:E; [|done].
  destruct (sendCommand_history _ _ _ _ _ _ E) as [ops ->].
  destruct err as [err|]; [|destruct resp as [resp|]]; cbn beta iota.
  - intros H.
    assert (s' = reg_delete (dpChannel params +:+ ":" +:+ dpUID params)
                   (run ops (Dial_pretrack params s))) as ->
      by (destruct resp; by simplify_eq).
    exists (OpDialPretrack params :: ops
            ++ [OpDialCleanup (dpChannel params +:+ ":" +:+ dpUID params)]).
    by rewrite run_cons, run_app.
  - destruct (Dial_promote _ resp _) as [res s2] eqn:P. intros H. simplify_eq.
    exists (OpDialPretrack params :: ops
            ++ [OpDialPromote (dpChannel params +:+ ":" +:+ dpUID params) resp]).
    rewrite run_cons, run_app.
    change (s' = (Dial_promote (dpChannel params +:+ ":" +:+ dpUID params) resp
                    (run ops (Dial_pretrack params s))).2).
    by rewrite P.
  - intros H. simplify_eq.
    exists (OpDialPretrack params :: ops
            ++ [OpDialCleanup (dpChannel params +:+ ":" +:+ dpUID params)]).
    by rewrite run_cons, run_app.
Qed.

Lemma Accept_history callid creds o s r s' :
  Accept callid creds o s = Some (r, s') → ∃ ops, s' = run ops s.
Proof.
  unfold Accept.
  destruct (sendCommand "accept" (acceptMsg callid creds) o s) as [[res s1]|] eqn:E;
    [|done].
  destruct (sendCommand_history _ _ _ _ _ _ E) as [ops ->].
  destruct (command_error res).
  - intros H. simplify_eq. by exists ops.
  - intros H. simplify_eq. exists (ops ++ [OpAcceptUpdate callid (apAppID creds)]).
    by rewrite run_app.
Qed.

Lemma Hangup_history callid o s r s' :
  Hangup callid o s = Some (r, s') → ∃ ops, s' = run ops s.
Proof.
  unfold Hangup.
  destruct (sendCommand _ _ o s) as [[res s1]|] eqn:E; [|done].
  destruct (sendCommand_history _ _ _ _ _ _ E) as [ops ->].
  destruct (command_error res).
  - intros H. simplify_eq. by exists ops.
  - intros H. simplify_eq. exists (ops ++ [OpHangupDelete callid]). by rewrite run_app.
Qed.

Lemma readLoop_history inputs s : ∃ ops, loop_client (readLoop inputs s) = run ops s.
Proof.
  revert s. induction inputs as [|input rest IH]; intros s; simpl.
  - destruct (done s); [by exists [OpLoopExit]|by exists []].
  - destruct (done s); [by exists [OpLoopExit]|].
    destruct input as [e|e|parsed].
    + by exists [OpReadError e].
    + apply IH.
    + destruct (readLoop_frame parsed s) as [s1|s1|s1] eqn:F.
      * destruct (IH s1) as [ops Hops]. exists (OpFrame parsed :: ops).
        rewrite run_cons. simpl. by rewrite F.
      * exists [OpFrame parsed]. simpl. by rewrite F.
      * exists [OpFrame parsed]. simpl. by rewrite F.
Qed.

(** When the read loop returns, the sweep has run. *)
Lemma readLoop_Exited inputs s s' :
  readLoop inputs s = Exited s' → connected s' = false ∧ pending s' = ∅.
Proof.
  revert s. induction inputs as [|input rest IH]; intros s; simpl.
  - destruct (done s); [|done]. intros [= <-]. unfold readLoop_exit.
    rewrite drainPending_shape. done.
  - destruct (done s).
    { intros [= <-]. unfold readLoop_exit. rewrite drainPending_shape. done. }
    destruct input as [e|e|parsed].
    + intros [= <-]. by destruct (readLoop_readError_state e s) as (? & ? & _).
    + apply IH.
    + destruct (readLoop_frame parsed s) as [s1|s1|s1] eqn:F; [apply IH| |done].
      unfold readLoop_frame, chan_send in F. by repeat case_match.
Qed.

(** The read loop never blocks on a delivery: from a well-formed state it is
    reading or has returned. *)
Lemma readLoop_never_stuck inputs s s' : wf s → readLoop inputs s ≠ Stuck s'.
Proof.
  revert s. induction inputs as [|input rest IH]; intros s Hwf; simpl.
  - by destruct (done s).
  - destruct (done s); [done|]. destruct input as [e|e|parsed]; [done|by apply IH|].
    destruct (readLoop_frame parsed s) as [s1|s1|s1] eqn:F.
    + apply IH. pose proof (readLoop_frame_wf parsed s Hwf) as H. by rewrite F in H.
    + done.
    + unfold readLoop_frame in F.
      destruct (nonempty_field parsed "request_id") as [reqID|]; [|done].
      destruct (pending s !! reqID) as [ch|] eqn:Hp; [|done].
      destruct Hwf as [_ [Hslot _]]. unfold chan_send in F. simpl in F.
      by rewrite (Hslot _ _ Hp) in F.
Qed.

(** ** The end-to-end scenarios, run *)

(** Outbound happy path: the dial succeeds, the callbacks fire in the order
    of the events, and the registry is empty after the hangup. *)
Example scenario_outbound :
  let s0 := (Connect (okHandshake 7) (SetHandler (Some claimAll) client0)).2 in
  let name e :=
    match e with
    | CbConnected _ => ["connected"] | CbCallAnswered _ => ["answered"]
    | CbBridgeStart _ => ["bridge-start"] | CbDTMFReceived _ d => ["dtmf " +:+ d]
    | CbCallHangup _ => ["hangup"] | _ => []
    end in
  match Dial dial1 (Replied (dialReply "C1")) s0 with
  | Some ((Some res, None), s1) =>
      let s2 := handleEvent (event "call_answered" "C1") s1 in
      let s3 := handleEvent (event "agora_bridge_start" "C1") s2 in
      let s4 := handleEvent (<["digits" := JStr "5"]> (event "dtmf_received" "C1")) s3 in
      let s5 := handleEvent (event "call_hangup" "C1") s4 in
      drSuccess res = true ∧ drCallID res = "C1"
      ∧ dom (calls s1) = {["C1"]}
      ∧ concat (name <$> log s5)
          = ["connected"; "answered"; "bridge-start"; "dtmf 5"; "hangup"]
      ∧ calls s5 = ∅
  | _ => False
  end.
Proof. vm_compute. split_and!; reflexivity. Qed.

(** Outbound without gateway: no call id in the reply, so the provisional
    entry is removed and nothing else is stored. *)
Example scenario_no_gateway :
  let s0 := (Connect (okHandshake 7) (SetHandler (Some claimAll) client0)).2 in
  match Dial dial1 (Replied (<["data" := JObj (<["success" := JBool false]> ∅)]> ∅)) s0 with
  | Some ((Some res, None), s1) =>
      drSuccess res = false ∧ drCallID res = "" ∧ calls s1 = ∅
  | _ => False
  end.
Proof. vm_compute. split_and!; reflexivity. Qed.

(** Inbound claim and accept: the record is inbound, takes the appid of the
    accept, and its key is gone after the hangup. *)
Example scenario_inbound_accept :
  let s0 := (Connect (okHandshake 7) (SetHandler (Some claimAll) client0)).2 in
  let incoming := <["to" := JStr "+18005551234"]>
                    (<["from" := JStr "+15551234567"]> (event "call_incoming" "C2")) in
  let s1 := handleEvent incoming s0 in
  let creds := mkAcceptParams "T" "ch" "uid" "APP2" "" "" "" in
  match Accept "C2" creds (Replied ∅) s1 with
  | Some (None, s2) =>
      let bridged := <["uid" := JStr "uid"]>
                       (<["channel" := JStr "ch"]> (event "agora_bridge_start" "C2")) in
      let s3 := handleEvent bridged (handleEvent (event "call_answered" "C2") s2) in
      let s4 := handleEvent (event "call_hangup" "C2") s3 in
      calls s3 !! "C2" = Some 0
      ∧ deref 0 s3 = mkCall "C2" "bridged" "inbound" "+15551234567" "+18005551234"
                       "ch" "uid" "APP2"
      ∧ calls s4 = ∅
  | _ => False
  end.
Proof. vm_compute. split_and!; reflexivity. Qed.

(** Inbound ignored: the handler declines and nothing is retained. *)
Example scenario_inbound_ignored :
  let msg := <["to" := JStr "+18005551234"]>
               (<["from" := JStr "+15551234567"]> (event "call_incoming" "C2")) in
  let s := handleEvent msg client1 in
  calls s = ∅
  ∧ log s
      = log client1
        ++ [RegStore "C2";
            CbCallIncoming (mkCall "C2" "incoming" "inbound" "+15551234567" "+18005551234"
                              "" "" "") false;
            RegDelete "C2"].
Proof. vm_compute. split_and!; reflexivity. Qed.

(** Mid-command disconnect: the dial in flight returns connection-lost, the
    error callback fires once and the provisional entry is gone. *)
Example scenario_disconnect :
  match Dial dial1 (ReadFails "EOF") client1 with
  | Some ((None, Some err), s) =>
      err = EConnectionLost ∧ connected s = false ∧ calls s = ∅ ∧ pending s = ∅
      ∧ ∃ frame,
          log s = log client1
                  ++ [RegStore "ch1:100"; SentCommand "outbound" frame true;
                      CbError "read error: EOF"; RegDelete "ch1:100"]
  | _ => False
  end.
Proof. vm_compute. split_and!; try reflexivity. eexists. reflexivity. Qed.

(** * Further properties of the client *)

(** ** What a command may touch *)

Lemma command_step_refl s : command_step s s.
Proof. by destruct s. Qed.

Lemma command_step_trans s1 s2 s3 :
  command_step s1 s2 → command_step s2 s3 → command_step s1 s3.
Proof.
  unfold command_step. intros H12 H23. rewrite H23.
  rewrite H12 at 1 2 3 4 5 6 7 8 9 10. reflexivity.
Qed.

Lemma command_step_drain s : command_step s (drainPending s).
Proof. rewrite drainPending_shape. by destruct s. Qed.

Lemma command_step_readError e s : command_step s (readLoop_readError e s).
Proof.
  unfold readLoop_readError, readLoop_exit.
  eapply command_step_trans; [|apply command_step_drain].
  destruct (connected s); [destruct (handler s)|]; by destruct s.
Qed.

Lemma command_step_await reqID ch sel s r s' :
  sendCommand_await reqID ch sel s = Some (r, s') → command_step s s'.
Proof.
  destruct sel; simpl.
  - destruct (chanStore s !! ch) as [[|[x|] rest]|]; intros H; simplify_eq;
      by destruct s.
  - intros H; simplify_eq. by destruct s.
  - intros H; simplify_eq. by destruct s.
Qed.

Lemma sendCommand_command_step action msg o s r s' :
  sendCommand action msg o s = Some (r, s') → command_step s s'.
Proof.
  unfold sendCommand, sendCommand_issue.
  destruct (connected s) eqn:Hc; cbn [negb];
    [|intros H; simplify_eq; apply command_step_refl].
  destruct (conn s) as [cn|] eqn:Hn;
    [|intros H; simplify_eq; apply command_step_refl].
  cbv zeta.
  set (reqID := reqID_of action (uint64_add (nextReqID s) 1)).
  set (frame := <["request_id" := JStr reqID]> msg).
  set (s0 := set_pending (<[reqID := _]>) _).
  assert (Hs0 : command_step s s0) by (subst s0; by destruct s).
  assert (Hp0 : pending s0 !! reqID = Some (length (chanStore s))
                ∧ chanStore s0 !! length (chanStore s) = Some []).
  { subst s0; simpl. by rewrite lookup_insert_eq, list_lookup_middle. }
  destruct Hp0 as [Hp0 Hch0]. clearbody s0.
  destruct o as [e|body|e|cause|]; cbv beta iota.
  - intros H; simplify_eq. eapply command_step_trans; [exact Hs0|]. by destruct s0.
  - unfold readLoop_frame, nonempty_field, str_field.
    rewrite lookup_insert_eq. rewrite decide_False by apply reqID_of_nonempty.
    cbn [pending emit]. rewrite Hp0. unfold chan_send.
    cbn [chanStore set_pending emit]. rewrite Hch0.
    intros H. apply command_step_await in H.
    eapply command_step_trans; [exact Hs0|].
    eapply command_step_trans; [|exact H]. by destruct s0.
  - intros H. apply command_step_await in H.
    eapply command_step_trans; [exact Hs0|].
    eapply command_step_trans; [|exact H].
    eapply command_step_trans; [|apply command_step_readError]. by destruct s0.
  - intros H. apply command_step_await in H.
    eapply command_step_trans; [exact Hs0|].
    eapply command_step_trans; [|exact H]. by destruct s0.
  - intros H. apply command_step_await in H.
    eapply command_step_trans; [exact Hs0|].
    eapply command_step_trans; [|exact H]. by destruct s0.
Qed.

(** A command that does nothing but send and read the reply. *)
Lemma plain_command action msg o s :
  ∃ r s',
    match sendCommand action msg o s with
    | None => None
    | Some (r, s1) => Some (command_error r, s1)
    end = Some (r, s')
    ∧ command_step s s'
    ∧ (connected s = false ∨ conn s = None → r = Some ENotConnected ∧ s' = s)
    ∧ (connected s = true → is_Some (conn s) →
         r = command_outcome o
         ∧ commands (log s') = commands (log s)
             ++ [(action, <["request_id" :=
                    JStr (reqID_of action (uint64_add (nextReqID s) 1))]> msg)]).
Proof.
  destruct (connected s) eqn:Hc; [destruct (conn s) as [cn|] eqn:Hn|].
  - destruct (sendCommand_connected action msg o s cn Hc Hn)
      as (s1 & ok & l & E & _ & _ & _ & _ & Hlog & Hl & _).
    rewrite E. eexists _, s1. split; [reflexivity|].
    split; [by eapply sendCommand_command_step|].
    split; [by intros [?|?]|]. intros _ _.
    split; [apply command_error_returns|].
    by rewrite Hlog, commands_app, commands_sent, Hl.
  - rewrite sendCommand_not_connected by auto.
    eexists _, s. split; [reflexivity|]. split; [apply command_step_refl|].
    split; [done|]. by intros _ [? ?].
  - rewrite sendCommand_not_connected by auto.
    eexists _, s. split; [reflexivity|]. split; [apply command_step_refl|].
    split; [done|]. done.
Qed.

(** ** Reject, Bridge, Unbridge, Transfer, SendDTMF *)

Lemma with_cached_appid_other callid s msg k :
  k ≠ "appid" → with_cached_appid callid s msg !! k = msg !! k.
Proof.
  intros Hk. unfold with_cached_appid.
  destruct (calls s !! callid); [|done]. case_decide; [done|].
  by rewrite lookup_insert_ne.
Qed.

Lemma with_cached_appid_appid callid s msg :
  msg !! "appid" = None →
  with_cached_appid callid s msg !! "appid" = cached_appid callid s.
Proof.
  intros Hm. unfold with_cached_appid, cached_appid.
  destruct (calls s !! callid); [|done]. case_decide; [done|].
  by rewrite lookup_insert_eq.
Qed.

Lemma call_command_msg cmd o s :
  ∃ msg,
    call_command cmd o s =
      match sendCommand (call_command_action cmd) msg o s with
      | None => None
      | Some (r, s1) => Some (command_error r, s1)
      end
    ∧ msg !! "action" = Some (JStr (call_command_action cmd))
    ∧ msg !! "callid" = Some (JStr (call_command_callid cmd))
    ∧ msg !! "request_id" = None.
Proof.
  destruct cmd as [callid reason|callid creds|callid|callid dest leg|callid digits];
    simpl.
  - exists (rejectMsg callid reason). split; [done|]. unfold rejectMsg.
    by simplify_map_eq.
  - exists (bridgeMsg callid creds). split; [done|]. unfold bridgeMsg.
    repeat case_decide; by simplify_map_eq.
  - exists (unbridgeMsg callid s). split; [done|]. unfold unbridgeMsg.
    rewrite !with_cached_appid_other by done. by simplify_map_eq.
  - exists (transferMsg callid dest leg s). split; [done|]. unfold transferMsg.
    rewrite !with_cached_appid_other by done. case_decide; by simplify_map_eq.
  - exists (sendDTMFMsg callid digits s). split; [done|]. unfold sendDTMFMsg.
    rewrite !with_cached_appid_other by done. by simplify_map_eq.
Qed.

(** X1.  [Reject], [Bridge], [Unbridge], [Transfer] and [SendDTMF] always return
    and never change the registry or its records.  Off line they return
    not-connected and leave the client exactly as it was.  On a live
    connection they write one frame with their action, the call id and a
    fresh request id, and return what the outcome dictates: the reply's
    [error] string if it has one, else nil. *)
Theorem call_commands_leave_registry (cmd : CallCommand) (o : Outcome) (s : Client) :
  ∃ r s',
    call_command cmd o s = Some (r, s')
    ∧ calls s' = calls s ∧ callStore s' = callStore s
    ∧ (connected s = false ∨ conn s = None → r = Some ENotConnected ∧ s' = s)
    ∧ (connected s = true → is_Some (conn s) →
         r = command_outcome o
         ∧ ∃ frame,
             commands (log s') = commands (log s) ++ [(call_command_action cmd, frame)]
             ∧ frame !! "action" = Some (JStr (call_command_action cmd))
             ∧ frame !! "callid" = Some (JStr (call_command_callid cmd))
             ∧ frame !! "request_id"
               = Some (JStr (reqID_of (call_command_action cmd)
                               (uint64_add (nextReqID s) 1)))).
Proof.
  destruct (call_command_msg cmd o s) as (msg & -> & Ha & Hc & _).
  destruct (plain_command (call_command_action cmd) msg o s)
    as (r & s' & -> & Hstep & Hoff & Hlive).
  exists r, s'. split; [done|].
  split; [by rewrite Hstep|]. split; [by rewrite Hstep|].
  split; [exact Hoff|]. intros Hcon Hn. destruct (Hlive Hcon Hn) as [Hr Hcmd].
  split; [exact Hr|]. eexists. split; [exact Hcmd|].
  rewrite !lookup_insert_ne by done. rewrite lookup_insert_eq. done.
Qed.

Lemma call_commands_leave_registry_witness :
  let s := run opsDialled client0 in
  connected s = true ∧ is_Some (conn s)
  ∧ ∃ s' frame,
      call_command (CSendDTMF "C1" "1234#") (Replied ∅) s = Some (None, s')
      ∧ calls s' = calls s
      ∧ commands (log s') = commands (log s) ++ [("send_dtmf", frame)]
      ∧ frame !! "callid" = Some (JStr "C1").
Proof.
  intros s.
  assert (Hc : connected s = true) by (vm_compute; reflexivity).
  assert (Hn : is_Some (conn s)) by (exists 7; vm_compute; reflexivity).
  split; [exact Hc|]. split; [exact Hn|].
  destruct (call_commands_leave_registry (CSendDTMF "C1" "1234#") (Replied ∅) s)
    as (r & s' & HH & Hcalls & _ & _ & Hlive).
  destruct (Hlive Hc Hn) as (Hr & frame & Hcmd & _ & Hid & _).
  assert (r = None) as -> by (rewrite Hr; vm_compute; reflexivity).
  exists s', frame. split; [exact HH|]. split; [exact Hcalls|].
  split; [exact Hcmd|exact Hid].
Defined.

(** The frames of [Unbridge], [Transfer] and [SendDTMF] carry an [appid]
    exactly when the registry holds the call with a non-empty appid, and then
    it is that appid; [Transfer] carries [leg] only when one is given. *)
Lemma later_commands_carry_cached_appid
    (callid destination leg digits : string) (s : Client) :
  unbridgeMsg callid s !! "appid" = cached_appid callid s
  ∧ transferMsg callid destination leg s !! "appid" = cached_appid callid s
  ∧ sendDTMFMsg callid digits s !! "appid" = cached_appid callid s
  ∧ transferMsg callid destination leg s !! "leg" = optional_field leg
  ∧ transferMsg callid destination leg s !! "destination" = Some (JStr destination)
  ∧ sendDTMFMsg callid digits s !! "digits" = Some (JStr digits)
  ∧ (∀ call c, calls s !! callid = Some call → callStore s !! call = Some c →
       AppID c ≠ "" → cached_appid callid s = Some (JStr (AppID c)))
  ∧ (calls s !! callid = None → cached_appid callid s = None).
Proof.
  unfold unbridgeMsg, transferMsg, sendDTMFMsg, optional_field.
  rewrite !with_cached_appid_appid, !with_cached_appid_other by
    (try done; try case_decide; by simplify_map_eq).
  split_and!; try done; try (case_decide; by simplify_map_eq).
  - intros call c Hk Hc Ha. unfold cached_appid. rewrite Hk.
    rewrite (deref_Some _ _ _ Hc). by rewrite decide_False.
  - intros Hk. unfold cached_appid. by rewrite Hk.
Qed.

(** ** Accept *)

Lemma acceptMsg_fields callid creds :
  acceptMsg callid creds !! "action" = Some (JStr "accept")
  ∧ acceptMsg callid creds !! "callid" = Some (JStr callid)
  ∧ acceptMsg callid creds !! "token" = Some (JStr (apToken creds))
  ∧ acceptMsg callid creds !! "channel" = Some (JStr (apChannel creds))
  ∧ acceptMsg callid creds !! "uid" = Some (JStr (apUID creds))
  ∧ acceptMsg callid creds !! "appid" = optional_field (apAppID creds)
  ∧ acceptMsg callid creds !! "webhook_url" = optional_field (apWebhookURL creds)
  ∧ acceptMsg callid creds !! "sdk_options" = optional_field (apSDKOptions creds)
  ∧ acceptMsg callid creds !! "audio_scenario" = optional_field (apAudioScenario creds)
  ∧ acceptMsg callid creds !! "request_id" = None.
Proof.
  unfold acceptMsg, optional_field. repeat case_decide; by simplify_map_eq.
Qed.

Lemma Accept_spec callid creds o s :
  ∃ r s1,
    Accept callid creds o s
      = Some (r, if r is None then Accept_update callid (apAppID creds) s1 else s1)
    ∧ command_step s s1
    ∧ (connected s = false ∨ conn s = None → r = Some ENotConnected ∧ s1 = s)
    ∧ (connected s = true → is_Some (conn s) →
         r = command_outcome o
         ∧ commands (log s1) = commands (log s)
             ++ [("accept", <["request_id" :=
                    JStr (reqID_of "accept" (uint64_add (nextReqID s) 1))]>
                    (acceptMsg callid creds))]).
Proof.
  destruct (plain_command "accept" (acceptMsg callid creds) o s)
    as (r & s1 & E & Hstep & Hoff & Hlive).
  exists r, s1. split; [|done]. unfold Accept.
  destruct (sendCommand "accept" (acceptMsg callid creds) o s) as [[res s2]|]; [|done].
  simplify_eq. by destruct (command_error res).
Qed.

(** X2.  [Accept] always returns and never changes which keys the registry has.
    When it returns nil, the call is in the registry and the caller gave a
    non-empty appid, that appid is written onto the call's record and nothing
    else changes; in every other case all records are as they were.  On a
    live connection the frame carries action, call id, token, channel and uid,
    and each of appid, webhook_url, sdk_options, audio_scenario exactly when it
    is not empty. *)
Theorem Accept_records_appid
    (callid : string) (creds : AcceptParams) (o : Outcome) (s : Client) :
  ∃ r s',
    Accept callid creds o s = Some (r, s')
    ∧ calls s' = calls s
    ∧ (r ≠ None → callStore s' = callStore s)
    ∧ (r = None →
         callStore s' =
           match calls s !! callid with
           | Some call =>
               if decide (apAppID creds = "") then callStore s
               else alter (set_AppID (apAppID creds)) call (callStore s)
           | None => callStore s
           end)
    ∧ (connected s = false ∨ conn s = None → r = Some ENotConnected ∧ s' = s)
    ∧ (connected s = true → is_Some (conn s) →
         r = command_outcome o
         ∧ ∃ frame,
             commands (log s') = commands (log s) ++ [("accept", frame)]
             ∧ frame !! "callid" = Some (JStr callid)
             ∧ frame !! "token" = Some (JStr (apToken creds))
             ∧ frame !! "channel" = Some (JStr (apChannel creds))
             ∧ frame !! "uid" = Some (JStr (apUID creds))
             ∧ frame !! "appid" = optional_field (apAppID creds)
             ∧ frame !! "webhook_url" = optional_field (apWebhookURL creds)
             ∧ frame !! "sdk_options" = optional_field (apSDKOptions creds)
             ∧ frame !! "audio_scenario" = optional_field (apAudioScenario creds)).
Proof.
  destruct (Accept_spec callid creds o s) as (r & s1 & E & Hstep & Hoff & Hlive).
  assert (Hupd : calls (Accept_update callid (apAppID creds) s1) = calls s
            ∧ callStore (Accept_update callid (apAppID creds) s1) =
                match calls s !! callid with
                | Some call =>
                    if decide (apAppID creds = "") then callStore s
                    else alter (set_AppID (apAppID creds)) call (callStore s)
                | None => callStore s
                end
            ∧ commands (log (Accept_update callid (apAppID creds) s1))
                = commands (log s1)).
  { assert (calls s1 = calls s ∧ callStore s1 = callStore s) as [Hc1 Hst1]
      by (by rewrite Hstep).
    unfold Accept_update. rewrite Hc1. case_decide.
    - by destruct (calls s !! callid).
    - destruct (calls s !! callid); [|done]. simpl. by rewrite Hc1, Hst1. }
  destruct Hupd as (Hu1 & Hu2 & Hu3).
  destruct (acceptMsg_fields callid creds)
    as (_ & F1 & F2 & F3 & F4 & F5 & F6 & F7 & F8 & _).
  destruct r as [err|].
  - exists (Some err), s1. split; [done|]. split; [by rewrite Hstep|].
    split; [intros _; by rewrite Hstep|]. split; [done|].
    split; [exact Hoff|]. intros Hc Hn. destruct (Hlive Hc Hn) as [Hr Hcmd].
    split; [exact Hr|]. eexists. split; [exact Hcmd|].
    rewrite !lookup_insert_ne by done. done.
  - exists None, (Accept_update callid (apAppID creds) s1). split; [done|].
    split; [exact Hu1|]. split; [done|]. split; [intros _; exact Hu2|].
    split; [intros H; by destruct (Hoff H)|].
    intros Hc Hn. destruct (Hlive Hc Hn) as [Hr Hcmd].
    split; [exact Hr|]. eexists. split; [by rewrite Hu3, Hcmd|].
    rewrite !lookup_insert_ne by done. done.
Qed.

Lemma Accept_records_appid_witness :
  let s := run opsDialled client0 in
  let creds := mkAcceptParams "T" "ch1" "100" "APP2" "" "" "" in
  connected s = true ∧ is_Some (conn s)
  ∧ ∃ s' frame,
      Accept "C1" creds (Replied ∅) s = Some (None, s')
      ∧ calls s' = calls s
      ∧ callStore s' = alter (set_AppID "APP2") 0 (callStore s)
      ∧ commands (log s') = commands (log s) ++ [("accept", frame)]
      ∧ frame !! "appid" = Some (JStr "APP2")
      ∧ frame !! "webhook_url" = None.
Proof.
  intros s creds.
  assert (Hc : connected s = true) by (vm_compute; reflexivity).
  assert (Hn : is_Some (conn s)) by (exists 7; vm_compute; reflexivity).
  split; [exact Hc|]. split; [exact Hn|].
  destruct (Accept_records_appid "C1" creds (Replied ∅) s)
    as (r & s' & HA & Hcalls & _ & Hok & _ & Hlive).
  destruct (Hlive Hc Hn) as (Hr & frame & Hcmd & _ & _ & _ & _ & Hf & Hw & _).
  assert (r = None) as -> by (rewrite Hr; vm_compute; reflexivity).
  exists s', frame. split; [exact HA|]. split; [exact Hcalls|].
  split; [exact (Hok eq_refl)|]. split; [exact Hcmd|]. split; [exact Hf|exact Hw].
Defined.

(** ** The appid of a call reaches the later commands *)

Lemma call_command_cached cmd o s :
  uses_cached_appid cmd = true →
  ∃ msg,
    call_command cmd o s =
      match sendCommand (call_command_action cmd) msg o s with
      | None => None
      | Some (r, s1) => Some (command_error r, s1)
      end
    ∧ msg !! "appid" = cached_appid (call_command_callid cmd) s.
Proof.
  destruct cmd as [callid reason|callid creds|callid|callid dest leg|callid digits];
    try done; intros _; simpl.
  - exists (unbridgeMsg callid s). split; [done|].
    by destruct (later_commands_carry_cached_appid callid "" "" "" s) as (-> & _).
  - exists (transferMsg callid dest leg s). split; [done|].
    by destruct (later_commands_carry_cached_appid callid dest leg "" s) as (_ & -> & _).
  - exists (sendDTMFMsg callid digits s). split; [done|].
    by destruct (later_commands_carry_cached_appid callid "" "" digits s)
      as (_ & _ & -> & _).
Qed.

Lemma Hangup_frame callid o s cn :
  connected s = true → conn s = Some cn →
  ∃ r s' action,
    Hangup callid o s = Some (r, s')
    ∧ commands (log s') = commands (log s)
        ++ [(action, <["request_id" := JStr (reqID_of action (uint64_add (nextReqID s) 1))]>
               (hangupMsg action callid ((λ p, deref p s) <$> calls s !! callid)))].
Proof.
  intros Hc Hn. unfold Hangup.
  set (call := (λ p, deref p s) <$> calls s !! callid).
  set (action := hangupAction call).
  destruct (sendCommand_connected action (hangupMsg action callid call) o s cn Hc Hn)
    as (s1 & ok & l & -> & _ & _ & _ & _ & Hlog & Hl & _).
  assert (Hcmd : commands (log s1) = commands (log s)
            ++ [(action, <["request_id" := JStr (reqID_of action (uint64_add (nextReqID s) 1))]>
                           (hangupMsg action callid call))])
    by (by rewrite Hlog, commands_app, commands_sent, Hl).
  destruct (command_error _).
  - by eexists _, s1, action.
  - eexists _, (reg_delete callid s1), action. split; [done|].
    by rewrite commands_reg_delete.
Qed.

Lemma hangupMsg_appid action callid s :
  hangupMsg action callid ((λ p, deref p s) <$> calls s !! callid) !! "appid"
    = cached_appid callid s.
Proof.
  unfold hangupMsg, cached_appid. destruct (calls s !! callid); simpl.
  - case_decide; by simplify_map_eq.
  - by simplify_map_eq.
Qed.

(** X3.  Once the registry holds a call with a non-empty appid -- recorded by
    [Dial], by a successful [Accept] or by an event -- every [Hangup],
    [Unbridge], [Transfer] and [SendDTMF] written for that call on a live
    connection carries that appid. *)
Theorem cached_appid_reaches_later_frames
    (callid : string) (s : Client) (call : nat) (c : Call) (o : Outcome) :
  calls s !! callid = Some call → callStore s !! call = Some c → AppID c ≠ "" →
  connected s = true → is_Some (conn s) →
  (∃ r s' action frame,
      Hangup callid o s = Some (r, s')
      ∧ commands (log s') = commands (log s) ++ [(action, frame)]
      ∧ frame !! "appid" = Some (JStr (AppID c)))
  ∧ ∀ cmd, uses_cached_appid cmd = true → call_command_callid cmd = callid →
      ∃ r s' frame,
        call_command cmd o s = Some (r, s')
        ∧ commands (log s') = commands (log s) ++ [(call_command_action cmd, frame)]
        ∧ frame !! "appid" = Some (JStr (AppID c)).
Proof.
  intros Hk Hc Ha Hcon [cn Hn].
  assert (Hcached : cached_appid callid s = Some (JStr (AppID c))).
  { unfold cached_appid. rewrite Hk, (deref_Some _ _ _ Hc). by rewrite decide_False. }
  split.
  - destruct (Hangup_frame callid o s cn Hcon Hn) as (r & s' & action & E & Hcmd).
    eexists r, s', action, _. split; [exact E|]. split; [exact Hcmd|].
    rewrite lookup_insert_ne by done. by rewrite hangupMsg_appid.
  - intros cmd Hcmd <-.
    destruct (call_command_cached cmd o s Hcmd) as (msg & -> & Hm).
    destruct (plain_command (call_command_action cmd) msg o s)
      as (r & s' & -> & _ & _ & Hlive).
    destruct (Hlive Hcon) as [_ Hlog]; [by eexists|].
    eexists r, s', _. split; [done|]. split; [exact Hlog|].
    rewrite lookup_insert_ne by done. by rewrite Hm.
Qed.

Lemma cached_appid_reaches_later_frames_witness :
  let s := run (opsDialled ++ [OpAcceptUpdate "C1" "APP2"]) client0 in
  calls s !! "C1" = Some 0%nat ∧ AppID (deref 0 s) = "APP2"
  ∧ ∃ r s' frame,
      call_command (CSendDTMF "C1" "42#") (Replied ∅) s = Some (r, s')
      ∧ commands (log s') = commands (log s) ++ [("send_dtmf", frame)]
      ∧ frame !! "appid" = Some (JStr "APP2").
Proof.
  intros s.
  assert (Hk : calls s !! "C1" = Some 0%nat) by (vm_compute; reflexivity).
  assert (Hc : callStore s !! 0%nat = Some (deref 0 s)) by (vm_compute; reflexivity).
  assert (Ha : AppID (deref 0 s) = "APP2") by (vm_compute; reflexivity).
  assert (Hne : AppID (deref 0 s) ≠ "") by (rewrite Ha; discriminate).
  assert (Hcon : connected s = true) by (vm_compute; reflexivity).
  assert (Hn : is_Some (conn s)) by (exists 7%nat; vm_compute; reflexivity).
  split; [exact Hk|]. split; [exact Ha|].
  destruct (cached_appid_reaches_later_frames "C1" s 0%nat (deref 0 s) (Replied ∅)
              Hk Hc Hne Hcon Hn) as [_ Hcmds].
  destruct (Hcmds (CSendDTMF "C1" "42#") eq_refl eq_refl) as (r & s' & frame & E & Hl & Hf).
  exists r, s', frame. split; [exact E|]. split; [exact Hl|]. by rewrite Hf, Ha.
Defined.

(** And a successful [Accept] with a non-empty appid puts the registry into
    that situation: the call's record then holds the appid of the accept. *)
Lemma Accept_caches_appid
    (callid : string) (creds : AcceptParams) (o : Outcome) (s s' : Client)
    (call : nat) (c : Call) :
  Accept callid creds o s = Some (None, s') →
  calls s !! callid = Some call → callStore s !! call = Some c →
  apAppID creds ≠ "" →
  calls s' !! callid = Some call
  ∧ callStore s' !! call = Some (set_AppID (apAppID creds) c)
  ∧ cached_appid callid s' = Some (JStr (apAppID creds))
  ∧ ∀ digits, sendDTMFMsg callid digits s' !! "appid" = Some (JStr (apAppID creds)).
Proof.
  intros HA Hk Hc Ha.
  destruct (Accept_spec callid creds o s) as (r & s1 & E & Hstep & _).
  rewrite HA in E. destruct r as [err|]; simplify_eq.
  assert (calls s1 = calls s ∧ callStore s1 = callStore s) as [Hc1 Hst1]
    by (by rewrite Hstep).
  assert (H1 : calls (Accept_update callid (apAppID creds) s1) !! callid = Some call
             ∧ callStore (Accept_update callid (apAppID creds) s1) !! call
               = Some (set_AppID (apAppID creds) c)).
  { unfold Accept_update. rewrite decide_False by done. rewrite Hc1, Hk. simpl.
    by rewrite Hc1, Hst1, Hk, list_lookup_alter_eq, Hc. }
  destruct H1 as [H1 H2]. split; [done|]. split; [done|].
  assert (Hcached : cached_appid callid (Accept_update callid (apAppID creds) s1)
                    = Some (JStr (apAppID creds))).
  { unfold cached_appid. rewrite H1, (deref_Some _ _ _ H2). simpl.
    by rewrite decide_False. }
  split; [done|]. intros digits.
  destruct (later_commands_carry_cached_appid callid "" "" digits
              (Accept_update callid (apAppID creds) s1)) as (_ & _ & -> & _).
  done.
Qed.

(** ** Connect *)

Lemma Connect_handshake_ok (hs : Handshake) (cn : nat) (connMsg : Msg) (s : Client) :
  handshake_completes hs cn connMsg →
  Connect hs s =
    (None,
     mkClient (wsURL s) (authToken s) (clientID s) (appID s) (subscribeNumbers s)
       (Some cn) (calls s) (handler s) true (done s) (pending s) (nextReqID s)
       (callStore s) (chanStore s)
       (log s ++ SentRegister (registerMsg s) true ::
          match handler s with
          | Some _ => [CbConnected (str_or_empty connMsg "session_id")]
          | None => []
          end)).
Proof.
  intros (Hd & Hh & Hst & Hw & regResp & Ha & Hreg).
  unfold Connect. rewrite Hd, Hh, Hst, Hw. cbn [negb]. cbv zeta.
  rewrite Ha. cbn [emit handler set_conn set_connected]. rewrite Hreg. cbn [negb].
  destruct (handler s) eqn:Hhd; unfold emit, set_connected, set_conn;
    cbn [wsURL authToken clientID appID subscribeNumbers conn calls handler connected
         done pending nextReqID callStore chanStore log];
    rewrite ?Hhd, <-?app_assoc; reflexivity.
Qed.


(** X4.  When the server completes the handshake, [Connect] returns nil, stores
    the new connection, sets the connected-flag, has written exactly the
    register frame of the configuration, and calls [OnConnected] once with
    the session id of the hello message when a handler is set; the registry,
    the pending commands, the counter and the done-signal are as before. *)
Theorem Connect_completed_handshake (hs : Handshake) (cn : nat) (connMsg : Msg) (s : Client) :
  handshake_completes hs cn connMsg →
  Connect hs s =
    (None,
     mkClient (wsURL s) (authToken s) (clientID s) (appID s) (subscribeNumbers s)
       (Some cn) (calls s) (handler s) true (done s) (pending s) (nextReqID s)
       (callStore s) (chanStore s)
       (log s ++ SentRegister (registerMsg s) true ::
          match handler s with
          | Some _ => [CbConnected (str_or_empty connMsg "session_id")]
          | None => []
          end)).
Proof.
  intros (Hd & Hh & Hst & Hw & regResp & Ha & Hreg).
  unfold Connect. rewrite Hd, Hh, Hst, Hw. cbn [negb]. cbv zeta.
  rewrite Ha. cbn [emit handler set_conn set_connected]. rewrite Hreg. cbn [negb].
  destruct (handler s) eqn:Hhd; unfold emit, set_connected, set_conn;
    cbn [wsURL authToken clientID appID subscribeNumbers conn calls handler connected
         done pending nextReqID callStore chanStore log];
    rewrite ?Hhd, <-?app_assoc; reflexivity.
Qed.

Lemma Connect_completed_handshake_witness :
  handshake_completes (okHandshake 7) 7
      (<["session_id" := JStr "S1"]> (<["status" := JStr "connected"]> ∅))
  ∧ ∃ s', Connect (okHandshake 7) (SetHandler (Some claimAll) client0) = (None, s')
      ∧ connected s' = true ∧ conn s' = Some 7%nat
      ∧ log s' = [SentRegister (registerMsg client0) true; CbConnected "S1"].
Proof.
  assert (H : handshake_completes (okHandshake 7) 7
                (<["session_id" := JStr "S1"]> (<["status" := JStr "connected"]> ∅))).
  { split; [reflexivity|]. split; [reflexivity|]. split; [vm_compute; reflexivity|].
    split; [reflexivity|]. eexists. split; [reflexivity|vm_compute; reflexivity]. }
  split; [exact H|]. eexists.
  split; [exact (Connect_completed_handshake _ _ _ (SetHandler (Some claimAll) client0) H)|].
  split; [reflexivity|]. split; [reflexivity|]. vm_compute; reflexivity.
Defined.

Lemma Connect_None_iff hs s :
  (Connect hs s).1 = None ↔ ∃ cn connMsg, handshake_completes hs cn connMsg.
Proof.
  split.
  - unfold Connect, handshake_completes.
    destruct (hsDial hs) as [e|cn]; [done|].
    destruct (hsHello hs) as [e|e|connMsg]; try done.
    destruct (field_is connMsg "status" "connected") eqn:Hst; cbn [negb]; [|done].
    cbv zeta. destruct (hsRegisterWrite hs); [done|].
    destruct (hsAck hs) as [e|e|regResp]; try done.
    destruct (field_is regResp "status" "registered") eqn:Hreg; cbn [negb]; [|done].
    intros _. exists cn, connMsg. split_and!; try done. by exists regResp.
  - intros (cn & connMsg & H).
    by rewrite (Connect_handshake_ok hs cn connMsg s H).
Qed.

Lemma Connect_failed hs s :
  (Connect hs s).1 ≠ None →
  log_step s (Connect hs s).2
  ∧ match hsDial hs with
    | inl _ => log (Connect hs s).2 = log s
    | inr cn =>
        log (Connect hs s).2 = log s ++ [ConnClose cn]
        ∨ ∃ ok, log (Connect hs s).2
                = log s ++ [SentRegister (registerMsg s) ok; ConnClose cn]
    end.
Proof.
  unfold Connect, log_step.
  destruct (hsDial hs) as [e|cn]; [intros _; split; [by destruct s|done]|].
  destruct (hsHello hs) as [e|e|connMsg];
    [intros _; split; [by destruct s|by left]..|].
  destruct (field_is connMsg "status" "connected"); cbn [negb];
    [|intros _; split; [by destruct s|by left]].
  cbv zeta. destruct (hsRegisterWrite hs).
  { intros _; split; [by destruct s|]. right. exists false.
    cbn [snd emit log]. by rewrite <-app_assoc. }
  destruct (hsAck hs) as [e|e|regResp];
    [intros _; split; [by destruct s|]; right; exists true;
     cbn [snd emit log]; by rewrite <-app_assoc..|].
  destruct (field_is regResp "status" "registered"); cbn [negb]; [done|].
  intros _; split; [by destruct s|]. right; exists true.
  cbn [snd emit log]. by rewrite <-app_assoc.
Qed.

(** X5.  A [Connect] that returns an error leaves the client as it was: no
    field changes, no callback runs, the connected-flag and the stored
    connection are untouched.  The connection it dialled, if any, is closed
    exactly once, after at most one register frame; and an error is returned
    exactly when the handshake did not complete. *)
Theorem Connect_failure_leaves_client (hs : Handshake) (s : Client) :
  ((Connect hs s).1 = None ↔ ∃ cn connMsg, handshake_completes hs cn connMsg)
  ∧ ((Connect hs s).1 ≠ None →
       log_step s (Connect hs s).2
       ∧ match hsDial hs with
         | inl _ => log (Connect hs s).2 = log s
         | inr cn =>
             log (Connect hs s).2 = log s ++ [ConnClose cn]
             ∨ ∃ ok, log (Connect hs s).2
                     = log s ++ [SentRegister (registerMsg s) ok; ConnClose cn]
         end).
Proof.
  split.
  {
    split.
    - unfold Connect, handshake_completes.
      destruct (hsDial hs) as [e|cn]; [done|].
      destruct (hsHello hs) as [e|e|connMsg]; try done.
      destruct (field_is connMsg "status" "connected") eqn:Hst; cbn [negb]; [|done].
      cbv zeta. destruct (hsRegisterWrite hs); [done|].
      destruct (hsAck hs) as [e|e|regResp]; try done.
      destruct (field_is regResp "status" "registered") eqn:Hreg; cbn [negb]; [|done].
      intros _. exists cn, connMsg. split_and!; try done. by exists regResp.
    - intros (cn & connMsg & H).
      by rewrite (Connect_handshake_ok hs cn connMsg s H).
  }
  {
    unfold Connect, log_step.
    destruct (hsDial hs) as [e|cn]; [intros _; split; [by destruct s|done]|].
    destruct (hsHello hs) as [e|e|connMsg];
      [intros _; split; [by destruct s|by left]..|].
    destruct (field_is connMsg "status" "connected"); cbn [negb];
      [|intros _; split; [by destruct s|by left]].
    cbv zeta. destruct (hsRegisterWrite hs).
    { intros _; split; [by destruct s|]. right. exists false.
      cbn [snd emit log]. by rewrite <-app_assoc. }
    destruct (hsAck hs) as [e|e|regResp];
      [intros _; split; [by destruct s|]; right; exists true;
       cbn [snd emit log]; by rewrite <-app_assoc..|].
    destruct (field_is regResp "status" "registered"); cbn [negb]; [done|].
    intros _; split; [by destruct s|]. right; exists true.
    cbn [snd emit log]. by rewrite <-app_assoc.
  }
Qed.

Lemma Connect_failure_leaves_client_witness :
  let hs := mkHandshake (inr 7%nat) (ReadMsg (<["status" := JStr "connected"]> ∅)) None
              (ReadMsg (<["error" := JStr "bad token"]> (<["status" := JStr "error"]> ∅))) in
  (Connect hs client1).1 = Some (ERegistrationFailed (Some (JStr "bad token")))
  ∧ log_step client1 (Connect hs client1).2
  ∧ ∃ ok, log (Connect hs client1).2
          = log client1 ++ [SentRegister (registerMsg client1) ok; ConnClose 7].
Proof.
  intros hs.
  assert (E : (Connect hs client1).1 = Some (ERegistrationFailed (Some (JStr "bad token"))))
    by (vm_compute; reflexivity).
  assert (Hne : (Connect hs client1).1 ≠ None) by (rewrite E; discriminate).
  split; [exact E|].
  destruct (Connect_failure_leaves_client hs client1) as [_ H].
  destruct (H Hne) as [Hstep Hlog]. split; [exact Hstep|].
  simpl in Hlog. destruct Hlog as [Hlog|Hlog]; [|exact Hlog].
  exfalso. revert Hlog. vm_compute. discriminate.
Defined.

(** ** Subscribe *)




(** ** reconnect *)

Lemma int64_wrap_small x : (- 2 ^ 63 ≤ x < 2 ^ 63)%Z → int64_wrap x = x.
Proof. intros H. unfold int64_wrap. rewrite Z.mod_small; lia. Qed.

Lemma backoff_next n :
  (if decide (30 * second < int64_wrap (backoff_before n * 2))%Z
   then (30 * second)%Z else int64_wrap (backoff_before n * 2))
  = backoff_before (S n).
Proof.
  unfold backoff_before. rewrite Nat2Z.inj_succ, Z.pow_succ_r by lia.
  assert (Hp : (0 < 2 ^ Z.of_nat n)%Z) by (apply Z.pow_pos_nonneg; lia).
  generalize dependent (2 ^ Z.of_nat n)%Z. intros p Hp. unfold second.
  rewrite int64_wrap_small by lia. case_decide; lia.
Qed.

Lemma Connect_failed_callbacks hs s :
  (Connect hs s).1 ≠ None → callbacks (log (Connect hs s).2) = callbacks (log s).
Proof.
  intros H. destruct (Connect_failed hs s H) as [_ Hlog]. unfold callbacks.
  destruct (hsDial hs); [by rewrite Hlog|].
  destruct Hlog as [-> | [ok ->]]; rewrite filter_app; simpl; by rewrite app_nil_r.
Qed.

Lemma reconnect_from_spec fmt_v attempts : ∀ n s sleeps e s',
  done s = false →
  reconnect_from fmt_v attempts (backoff_before n) s = (sleeps, e, s') →
  (∀ i d, sleeps !! i = Some d → d = backoff_before (n + i))
  ∧ (calls s' = calls s ∧ callStore s' = callStore s ∧ pending s' = pending s
     ∧ chanStore s' = chanStore s ∧ nextReqID s' = nextReqID s
     ∧ handler s' = handler s ∧ done s' = false
     ∧ subscribeNumbers s' = subscribeNumbers s)
  ∧ ∃ msgs,
      Forall (λ m, ∃ err, m = "reconnect failed: " +:+ error_text fmt_v err) msgs
      ∧ match e with
        | Reconnected =>
            ∃ hs cn connMsg,
              length sleeps = S (length msgs)
              ∧ attempts !! length msgs = Some hs
              ∧ handshake_completes hs cn connMsg
              ∧ Forall handshake_fails (take (length msgs) attempts)
              ∧ connected s' = true ∧ conn s' = Some cn
              ∧ callbacks (log s') = callbacks (log s) ++
                  match handler s with
                  | Some _ => (CbError <$> msgs)
                                ++ [CbConnected (str_or_empty connMsg "session_id")]
                  | None => []
                  end
        | StillTrying =>
            length sleeps = length attempts ∧ length msgs = length attempts
            ∧ Forall handshake_fails attempts
            ∧ connected s' = connected s ∧ conn s' = conn s
            ∧ callbacks (log s') = callbacks (log s) ++
                match handler s with Some _ => CbError <$> msgs | None => [] end
        | GaveUp => False
        end.
Proof.
  induction attempts as [|hs rest IH]; intros n s sleeps e s' Hd; simpl; rewrite Hd.
  - intros [= <- <- <-]. split; [by intros [|i] d|]. split; [done|].
    exists []. split; [constructor|]. split_and!; try done.
    destruct (handler s); simpl; by rewrite app_nil_r.
  - destruct (Connect hs s) as [[err|] s1] eqn:EC.
    + assert (Hne : (Connect hs s).1 ≠ None) by (by rewrite EC).
      assert (Hfail : handshake_fails hs).
      { intros cn connMsg H. apply Hne. apply Connect_None_iff. eauto. }
      pose proof (Connect_failed_callbacks hs s Hne) as Hcb.
      destruct (Connect_failed hs s Hne) as [Hstep _].
      rewrite EC in Hstep, Hcb. cbn [snd] in Hstep, Hcb.
      rewrite backoff_next.
      set (m := "reconnect failed: " +:+ error_text fmt_v err).
      set (s2 := match handler s1 with Some _ => emit (CbError m) s1 | None => s1 end).
      assert (Hs2 : calls s2 = calls s ∧ callStore s2 = callStore s
                    ∧ pending s2 = pending s ∧ chanStore s2 = chanStore s
                    ∧ nextReqID s2 = nextReqID s ∧ handler s2 = handler s
                    ∧ done s2 = false ∧ subscribeNumbers s2 = subscribeNumbers s
                    ∧ connected s2 = connected s ∧ conn s2 = conn s
                    ∧ callbacks (log s2) = callbacks (log s) ++
                        match handler s with Some _ => [CbError m] | None => [] end).
      { assert (F : calls s1 = calls s ∧ callStore s1 = callStore s
                    ∧ pending s1 = pending s ∧ chanStore s1 = chanStore s
                    ∧ nextReqID s1 = nextReqID s ∧ handler s1 = handler s
                    ∧ done s1 = false ∧ subscribeNumbers s1 = subscribeNumbers s
                    ∧ connected s1 = connected s ∧ conn s1 = conn s)
          by (rewrite Hstep; cbn; by rewrite Hd).
        destruct F as (F1 & F2 & F3 & F4 & F5 & F6 & F7 & F8 & F9 & F10).
        subst s2. rewrite F6. destruct (handler s).
        - rewrite callbacks_emit, Hcb. cbn [emit calls callStore pending chanStore
            nextReqID handler done subscribeNumbers connected conn is_callback].
          split_and!; done.
        - rewrite app_nil_r, Hcb. split_and!; done. }
      clearbody s2.
      destruct Hs2 as (H1 & H2 & H3 & H4 & H5 & H6 & H7 & H8 & H9 & H10 & H11).
      destruct (reconnect_from fmt_v rest (backoff_before (S n)) s2)
        as [[sl e2] s3] eqn:ER.
      intros [= <- <- <-].
      destruct (IH (S n) s2 sl e2 s3 H7 ER)
        as (Hsl & (G1 & G2 & G3 & G4 & G5 & G6 & G7 & G8) & msgs & Hmsgs & He).
      split.
      { intros [|i] d; simpl.
        - intros [= <-]. f_equal; lia.
        - intros Hi. rewrite (Hsl i d Hi). f_equal; lia. }
      split; [split_and!; congruence|].
      exists (m :: msgs). split; [constructor; [by exists err|done]|].
      destruct e2; [|done|].
      * destruct He as (hs' & cn & connMsg & K1 & K2 & K3 & K4 & K5 & K6 & K7).
        exists hs', cn, connMsg. simpl. split_and!; try done; try congruence.
        -- by constructor.
        -- rewrite K7, H11, H6, <-app_assoc. by destruct (handler s).
      * destruct He as (K1 & K2 & K3 & K4 & K5 & K6).
        simpl. split_and!; try congruence.
        -- by constructor.
        -- rewrite K6, H11, H6, <-app_assoc. by destruct (handler s).
    + intros [= <- <- <-].
      assert (Hok : (Connect hs s).1 = None) by (by rewrite EC).
      apply Connect_None_iff in Hok as (cn & connMsg & Hok).
      rewrite (Connect_handshake_ok hs cn connMsg s Hok) in EC.
      injection EC as <-.
      split.
      { intros [|i] d; simpl; [|done]. intros [= <-]. f_equal; lia. }
      split; [done|]. exists []. split; [constructor|].
      exists hs, cn, connMsg. simpl. split_and!; try done.
      unfold callbacks. rewrite filter_app. by destruct (handler s).
Qed.

Lemma backoff_before_bounds i :
  (0 < backoff_before i ≤ 30 * second)%Z
  ∧ ((5 ≤ i)%nat → backoff_before i = (30 * second)%Z).
Proof.
  unfold backoff_before, second.
  assert (Hp : (0 < 2 ^ Z.of_nat i)%Z) by (apply Z.pow_pos_nonneg; lia).
  split; [lia|]. intros Hi.
  assert (H5 : (2 ^ 5 ≤ 2 ^ Z.of_nat i)%Z) by (apply Z.pow_le_mono_r; lia).
  change (2 ^ 5)%Z with 32%Z in H5. lia.
Qed.

(** X7.  The reconnect goroutine sleeps before every attempt, 1 s before the
    first and twice the previous sleep before each later one, capped at
    30 s: 1, 2, 4, 8, 16, 30, 30, ... seconds.  The doubling is done on an
    int64 of nanoseconds and never overflows, because the cap is applied
    after every doubling. *)
Theorem reconnect_backoff_schedule
    (fmt_v : option JVal → string) (attempts : list Handshake) (s s' : Client)
    (sleeps : list Z) (e : ReconnectEnd) :
  reconnect fmt_v attempts s = (sleeps, e, s') →
  (∀ i d, sleeps !! i = Some d →
     d = Z.min (2 ^ Z.of_nat i * second) (30 * second)
     ∧ (0 < d ≤ 30 * second)%Z
     ∧ ((5 ≤ i)%nat → d = (30 * second)%Z))
  ∧ take 6 sleeps
      = take (length sleeps)
          [second; 2 * second; 4 * second; 8 * second; 16 * second; 30 * second]%Z.
Proof.
  intros E. unfold reconnect in E. change second with (backoff_before 0) in E at 1.
  assert (Hs : ∀ i d, sleeps !! i = Some d → d = backoff_before i).
  { destruct (done s) eqn:Hd.
    - destruct attempts; simpl in E; rewrite Hd in E; simplify_eq; by intros [|i] d.
    - by destruct (reconnect_from_spec fmt_v attempts 0 s sleeps e s' Hd E) as [H _]. }
  split.
  - intros i d Hi. rewrite (Hs i d Hi). split; [done|]. apply backoff_before_bounds.
  - apply list_eq. intros i. destruct (decide (i < 6)) as [Hi|Hi].
    + rewrite lookup_take_lt by done.
      destruct (sleeps !! i) as [d|] eqn:Hd.
      * rewrite lookup_take_lt by (by eapply lookup_lt_Some).
        rewrite (Hs i d Hd).
        destruct i as [|[|[|[|[|[|i]]]]]]; try lia; vm_compute; reflexivity.
      * symmetry. apply lookup_take_ge. by apply lookup_ge_None.
    + rewrite lookup_take_ge by lia. symmetry.
      destruct (decide (i < length sleeps)).
      * rewrite lookup_take_lt by done. apply lookup_ge_None. simpl. lia.
      * apply lookup_take_ge. lia.
Qed.

(** X8.  What the reconnect goroutine does with the attempts it is given.  If
    the done-signal is closed it returns at once, without sleeping or
    dialling.  Otherwise it tries the attempts in order and stops at the
    first whose handshake completes, leaving the client connected on that
    connection; every failed attempt before it is reported once through
    [OnError] as "reconnect failed: ...", and the successful one through
    [OnConnected].  Whatever happens, the registry of calls, the handler, the
    subscription list and the request counter are as before. *)
Theorem reconnect_outcome
    (fmt_v : option JVal → string) (attempts : list Handshake) (s s' : Client)
    (sleeps : list Z) (e : ReconnectEnd) :
  reconnect fmt_v attempts s = (sleeps, e, s') →
  (done s = true → sleeps = [] ∧ e = GaveUp ∧ s' = s)
  ∧ (done s = false →
     (calls s' = calls s ∧ callStore s' = callStore s ∧ pending s' = pending s
      ∧ chanStore s' = chanStore s ∧ nextReqID s' = nextReqID s
      ∧ handler s' = handler s ∧ done s' = false
      ∧ subscribeNumbers s' = subscribeNumbers s)
     ∧ ∃ msgs,
         Forall (λ m, ∃ err, m = "reconnect failed: " +:+ error_text fmt_v err) msgs
         ∧ match e with
           | Reconnected =>
               ∃ hs cn connMsg,
                 length sleeps = S (length msgs)
                 ∧ attempts !! length msgs = Some hs
                 ∧ handshake_completes hs cn connMsg
                 ∧ Forall handshake_fails (take (length msgs) attempts)
                 ∧ connected s' = true ∧ conn s' = Some cn
                 ∧ callbacks (log s') = callbacks (log s) ++
                     match handler s with
                     | Some _ => (CbError <$> msgs)
                                   ++ [CbConnected (str_or_empty connMsg "session_id")]
                     | None => []
                     end
           | StillTrying =>
               length sleeps = length attempts ∧ length msgs = length attempts
               ∧ Forall handshake_fails attempts
               ∧ connected s' = connected s ∧ conn s' = conn s
               ∧ callbacks (log s') = callbacks (log s) ++
                   match handler s with Some _ => CbError <$> msgs | None => [] end
           | GaveUp => False
           end).
Proof.
  intros E. unfold reconnect in E. change second with (backoff_before 0) in E at 1.
  split.
  - intros Hd. destruct attempts; simpl in E; rewrite Hd in E; by simplify_eq.
  - intros Hd.
    by destruct (reconnect_from_spec fmt_v attempts 0 s sleeps e s' Hd E) as (_ & H1 & H2).
Qed.

Lemma reconnect_backoff_schedule_witness :
  let refused := mkHandshake (inl "connection refused") (ReadErr "") None (ReadErr "") in
  let r := reconnect (λ _, "nil") [refused; refused; okHandshake 8]
             (readLoop_readError "EOF" client1) in
  r.1.1 !! 2%nat = Some 4000000000%Z
  ∧ 4000000000%Z = Z.min (2 ^ Z.of_nat 2 * second) (30 * second).
Proof.
  intros refused r.
  assert (E : r = (r.1.1, r.1.2, r.2)) by (by destruct r as [[? ?] ?]).
  assert (H2 : r.1.1 !! 2%nat = Some 4000000000%Z) by (vm_compute; reflexivity).
  split; [exact H2|].
  destruct (reconnect_backoff_schedule _ _ _ _ _ _ E) as [Hs _].
  exact (proj1 (Hs 2%nat _ H2)).
Defined.

Lemma reconnect_outcome_witness :
  let refused := mkHandshake (inl "connection refused") (ReadErr "") None (ReadErr "") in
  let s := readLoop_readError "EOF" client1 in
  let r := reconnect (λ _, "nil") [refused; refused; okHandshake 8] s in
  done s = false ∧ r.1.2 = Reconnected
  ∧ calls r.2 = calls s ∧ nextReqID r.2 = nextReqID s
  ∧ connected r.2 = true ∧ length r.1.1 = 3%nat.
Proof.
  intros refused s r.
  assert (E : r = (r.1.1, r.1.2, r.2)) by (by destruct r as [[? ?] ?]).
  assert (Hd : done s = false) by (vm_compute; reflexivity).
  assert (He : r.1.2 = Reconnected) by (vm_compute; reflexivity).
  split; [exact Hd|]. split; [exact He|].
  destruct (reconnect_outcome _ _ _ _ _ _ E) as [_ H].
  destruct (H Hd) as ((H1 & _ & _ & _ & H5 & _) & msgs & _ & Hm).
  split; [exact H1|]. split; [exact H5|].
  rewrite He in Hm. destruct Hm as (hs & cn & connMsg & _ & _ & _ & _ & Hc & _).
  split; [exact Hc|]. vm_compute; reflexivity.
Defined.

(** ** A dropped connection, then a reconnection *)

(** X9.  When the connection drops under a connected client and the reconnect
    goroutine later succeeds, the client is connected again with every call
    it tracked before the drop, under the same keys and with the same
    records; the commands that were waiting are not resumed (the pending
    table is empty: their callers were told "connection lost"); the request
    counter continues where it was, and the handler has seen the read error,
    one error per failed attempt, and [OnConnected], in that order. *)
Theorem drop_then_reconnect
    (cause : string) (fmt_v : option JVal → string) (attempts : list Handshake)
    (s s' : Client) (sleeps : list Z) :
  connected s = true → done s = false →
  reconnect fmt_v attempts (readLoop_readError cause s) = (sleeps, Reconnected, s') →
  connected s' = true ∧ is_Some (conn s')
  ∧ calls s' = calls s ∧ callStore s' = callStore s
  ∧ pending s' = ∅ ∧ nextReqID s' = nextReqID s
  ∧ handler s' = handler s ∧ subscribeNumbers s' = subscribeNumbers s
  ∧ ∃ msgs sid,
      length sleeps = S (length msgs)
      ∧ callbacks (log s') = callbacks (log s) ++
          match handler s with
          | Some _ => CbError ("read error: " +:+ cause)
                        :: (CbError <$> msgs) ++ [CbConnected sid]
          | None => []
          end.
Proof.
  intros Hc Hd E. unfold reconnect in E. change second with (backoff_before 0) in E at 1.
  set (s1 := readLoop_readError cause s) in *.
  destruct (readLoop_readError_state cause s) as (_ & Hp & Hcalls & Hst & Hh).
  assert (Hs1 : done s1 = false ∧ nextReqID s1 = nextReqID s
                ∧ subscribeNumbers s1 = subscribeNumbers s
                ∧ callbacks (log s1) = callbacks (log s) ++
                    match handler s with
                    | Some _ => [CbError ("read error: " +:+ cause)]
                    | None => []
                    end).
  { subst s1. unfold readLoop_readError, readLoop_exit. rewrite Hc.
    rewrite drainPending_shape. destruct (handler s); cbn.
    - rewrite Hd. split_and!; try done. unfold callbacks. by rewrite filter_app.
    - rewrite Hd. by rewrite app_nil_r. }
  destruct Hs1 as (Hd1 & Hn1 & Hsub1 & Hcb1).
  fold s1 in Hp, Hcalls, Hst, Hh.
  destruct (reconnect_from_spec fmt_v attempts 0 s1 sleeps Reconnected s' Hd1 E)
    as (_ & (G1 & G2 & G3 & G4 & G5 & G6 & G7 & G8) & msgs & _ & He).
  destruct He as (hs & cn & connMsg & K1 & _ & _ & _ & K5 & K6 & K7).
  split; [done|]. split; [by eexists|].
  split_and!; try congruence.
  exists msgs, (str_or_empty connMsg "session_id"). split; [done|].
  rewrite K7, Hcb1, Hh, <-app_assoc. by destruct (handler s).
Qed.

Lemma drop_then_reconnect_witness :
  let refused := mkHandshake (inl "connection refused") (ReadErr "") None (ReadErr "") in
  let s := run opsDialled client0 in
  let r := reconnect (λ _, "nil") [refused; okHandshake 8] (readLoop_readError "EOF" s) in
  connected s = true ∧ done s = false ∧ r.1.2 = Reconnected
  ∧ calls s !! "C1" = Some 0%nat
  ∧ connected r.2 = true ∧ calls r.2 = calls s ∧ callStore r.2 = callStore s
  ∧ nextReqID r.2 = nextReqID s.
Proof.
  intros refused s r.
  assert (Hc : connected s = true) by (vm_compute; reflexivity).
  assert (Hd : done s = false) by (vm_compute; reflexivity).
  assert (He : r.1.2 = Reconnected) by (vm_compute; reflexivity).
  assert (Hk : calls s !! "C1" = Some 0%nat) by (vm_compute; reflexivity).
  assert (E : r = (r.1.1, Reconnected, r.2)) by (rewrite <-He; by destruct r as [[? ?] ?]).
  destruct (drop_then_reconnect "EOF" _ _ s _ _ Hc Hd E)
    as (H1 & _ & H3 & H4 & _ & H6 & _).
  split; [exact Hc|]. split; [exact Hd|]. split; [exact He|]. split; [exact Hk|].
  split; [exact H1|]. split; [exact H3|]. split; [exact H4|exact H6].
Defined.

(** ** The read loop and the waiting commands *)

Lemma handleEvent_done msg s : done (handleEvent msg s) = done s.
Proof. by rewrite (handleEvent_registry_step msg s). Qed.

Lemma readLoop_frame_done parsed s :
  done (loop_client (readLoop_frame parsed s)) = done s.
Proof.
  unfold readLoop_frame.
  destruct (nonempty_field parsed "request_id") as [reqID|];
    [|apply handleEvent_done].
  destruct (pending s !! reqID) as [ch|]; [|apply handleEvent_done].
  unfold chan_send. by repeat case_match.
Qed.



Lemma readLoop_frame_reply parsed reqID ch s :
  wf s → nonempty_field parsed "request_id" = Some reqID →
  pending s !! reqID = Some ch →
  readLoop_frame parsed s
    = Reading (set_chanStore (<[ch := [Some parsed]]>) (set_pending (delete reqID) s))
  ∧ chanStore s !! ch = Some [].
Proof.
  intros [_ [Hslot _]] Hid Hp. unfold readLoop_frame. rewrite Hid, Hp.
  unfold chan_send. cbn [chanStore set_pending]. by rewrite (Hslot _ _ Hp).
Qed.

(** X10.  In every state the client can reach, a frame whose [request_id] is
    that of a waiting command is delivered to exactly that command: the read
    loop does not block, removes the entry from the pending table, and the
    waiter's [sendCommand] returns the frame.  The frame is not handled as an
    event (no callback, no change to the registry), the other waiting
    commands keep waiting, and a second frame with the same id finds no
    waiter and is handled as an event. *)
Theorem reply_reaches_its_waiter
    (ops : list Op) (url tok cid app : string) (parsed : Msg) (reqID : string) (ch : nat) :
  let s := run ops (NewClient url tok cid app) in
  nonempty_field parsed "request_id" = Some reqID →
  pending s !! reqID = Some ch →
  ∃ s1,
    readLoop_frame parsed s = Reading s1
    ∧ calls s1 = calls s ∧ callStore s1 = callStore s ∧ log s1 = log s
    ∧ pending s1 = delete reqID (pending s)
    ∧ (∀ reqID' ch', pending s1 !! reqID' = Some ch' → chanStore s1 !! ch' = Some [])
    ∧ sendCommand_await reqID ch SelResp s1
        = Some ((Some parsed, None), set_chanStore (<[ch := []]>) s1)
    ∧ readLoop_frame parsed s1 = Reading (handleEvent parsed s1).
Proof.
  intros s Hid Hp.
  assert (Hwf : wf s) by apply run_wf, NewClient_wf.
  destruct (readLoop_frame_reply parsed reqID ch s Hwf Hid Hp) as [-> Hch].
  destruct Hwf as [_ [Hslot Hinj]].
  eexists. split; [reflexivity|]. split; [done|]. split; [done|]. split; [done|].
  split; [done|]. split.
  { cbn [pending chanStore set_chanStore set_pending]. intros reqID' ch' H'.
    apply lookup_delete_Some in H' as [Hne H'].
    rewrite list_lookup_insert_ne; [by eapply Hslot|].
    intros <-. apply Hne. by eapply Hinj. }
  split.
  { unfold sendCommand_await. cbn [chanStore set_chanStore set_pending].
    rewrite list_lookup_insert_eq by (by eapply lookup_lt_Some). done. }
  unfold readLoop_frame. rewrite Hid. cbn [pending set_chanStore set_pending].
  by rewrite lookup_delete_eq.
Qed.

Lemma reply_reaches_its_waiter_witness :
  let s := run opsTwo client0 in
  let parsed : Msg := <["request_id" := JStr "outbound_1"]> (dialReply "C1") in
  nonempty_field parsed "request_id" = Some "outbound_1"
  ∧ pending s !! "outbound_1" = Some 0%nat
  ∧ ∃ s1, readLoop_frame parsed s = Reading s1
      ∧ pending s1 = delete "outbound_1" (pending s)
      ∧ sendCommand_await "outbound_1" 0 SelResp s1
          = Some ((Some parsed, None), set_chanStore (<[0%nat := []]>) s1).
Proof.
  intros s parsed.
  assert (Hid : nonempty_field parsed "request_id" = Some "outbound_1")
    by (vm_compute; reflexivity).
  assert (Hp : pending s !! "outbound_1" = Some 0%nat) by (vm_compute; reflexivity).
  split; [exact Hid|]. split; [exact Hp|].
  destruct (reply_reaches_its_waiter opsTwo "wss://cm/v1/ws/events" "Basic T" "cli" "APP"
              parsed "outbound_1" 0%nat Hid Hp)
    as (s1 & E & _ & _ & _ & Hpd & _ & Haw & _).
  exists s1. split; [exact E|]. split; [exact Hpd|exact Haw].
Defined.

Lemma readLoop_outcome inputs : ∀ s,
  wf s →
  (∃ s', readLoop inputs s = Reading s' ∧ done s = false
         ∧ Forall (λ i, ∀ e, i ≠ ReadErr e) inputs)
  ∨ (∃ s', readLoop inputs s = Exited s' ∧ connected s' = false ∧ pending s' = ∅
           ∧ (done s = true ∨ ∃ e, ReadErr e ∈ inputs)).
Proof.
  induction inputs as [|input rest IH]; intros s Hwf.
  - simpl. destruct (done s) eqn:Hd.
    + right. eexists. split; [done|]. unfold readLoop_exit.
      rewrite drainPending_shape. split_and!; auto.
    + left. eexists. split_and!; done.
  - destruct (readLoop (input :: rest) s) as [s'|s'|s'] eqn:E.
    + left. exists s'. split; [done|]. simpl in E.
      destruct (done s) eqn:Hd; [done|]. split; [done|].
      destruct input as [e|e|parsed]; [done| |].
      * destruct (IH s Hwf) as [(s2 & E2 & _ & HF)|(s2 & E2 & _)]; [|congruence].
        constructor; [done|exact HF].
      * pose proof (readLoop_frame_wf parsed s Hwf) as Hwf1.
        pose proof (readLoop_frame_done parsed s) as Hd1.
        destruct (readLoop_frame parsed s) as [s1|s1|s1]; [|done..].
        destruct (IH s1 Hwf1) as [(s2 & E2 & _ & HF)|(s2 & E2 & _)]; [|congruence].
        constructor; [done|exact HF].
    + right. exists s'. split; [done|].
      destruct (readLoop_Exited _ _ _ E) as [Hc Hp]. split; [done|]. split; [done|].
      simpl in E. destruct (done s) eqn:Hd; [by left|]. right.
      destruct input as [e|e|parsed].
      * exists e. by left.
      * destruct (IH s Hwf) as [(s2 & E2 & _)|(s2 & E2 & _ & _ & [Hd2|[e' He']])];
          [congruence|congruence|]. exists e'. by right.
      * pose proof (readLoop_frame_wf parsed s Hwf) as Hwf1.
        pose proof (readLoop_frame_done parsed s) as Hd1.
        destruct (readLoop_frame parsed s) as [s1|s1|s1] eqn:F.
        -- destruct (IH s1 Hwf1)
             as [(s2 & E2 & _)|(s2 & E2 & _ & _ & [Hd2|[e' He']])]; [congruence| |].
           ++ simpl in Hd1. congruence.
           ++ exists e'. by right.
        -- unfold readLoop_frame, chan_send in F. by repeat case_match.
        -- done.
    + by apply readLoop_never_stuck in E.
Qed.

(** X11.  In every state the client can reach, and whatever the transport
    delivers, the read loop never blocks on handing a reply to a waiting
    command.  It is either still reading -- then the done-signal is open and
    no read has failed -- or it has returned -- then the done-signal was
    closed or a read failed, and its deferred function has cleared the
    connected-flag and emptied the pending table. *)
Theorem readLoop_never_blocks
    (ops : list Op) (url tok cid app : string) (inputs : list Read) :
  let s := run ops (NewClient url tok cid app) in
  (∀ s', readLoop inputs s ≠ Stuck s')
  ∧ ((∃ s', readLoop inputs s = Reading s' ∧ done s = false
            ∧ Forall (λ i, ∀ e, i ≠ ReadErr e) inputs)
     ∨ (∃ s', readLoop inputs s = Exited s' ∧ connected s' = false ∧ pending s' = ∅
              ∧ (done s = true ∨ ∃ e, ReadErr e ∈ inputs))).
Proof.
  intros s. assert (Hwf : wf s) by apply run_wf, NewClient_wf.
  split; [intros s'; by apply readLoop_never_stuck|by apply readLoop_outcome].
Qed.

(** ** After Close *)

Lemma readLoop_done inputs s :
  done s = true → readLoop inputs s = Exited (readLoop_exit s).
Proof. intros Hd. destruct inputs; simpl; by rewrite Hd. Qed.



(** ** GetActiveCalls *)


(** ** Events *)

Lemma handleEvent_existing msg h s p :
  handler s = Some h → event_target msg s = Some p →
  handleEvent msg s =
    dispatch h (str_or_empty msg "event") msg (str_or_empty msg "callid") p
      (update_call p (merge_event_fields msg (str_or_empty msg "callid")
                        (str_or_empty msg "channel") (str_or_empty msg "uid")) s).
Proof.
  intros Hh Ht. unfold handleEvent, event_target in *. rewrite Hh.
  unfold find_or_create.
  destruct (calls s !! str_or_empty msg "callid") as [q|]; [by simplify_eq|].
  destruct (decide (str_or_empty msg "channel" = "")); [done|].
  destruct (decide (str_or_empty msg "uid" = "")); [done|].
  by rewrite Ht.
Qed.

Lemma alter_app_end {A} (f : A → A) (l : list A) (c : A) :
  alter f (length l) (l ++ [c]) = l ++ [f c].
Proof. induction l as [|x l IH]; [done|]. simpl. f_equal. exact IH. Qed.

Lemma handleEvent_fresh msg h s :
  handler s = Some h → event_target msg s = None → str_or_empty msg "callid" ≠ "" →
  handleEvent msg s =
    dispatch h (str_or_empty msg "event") msg (str_or_empty msg "callid")
      (length (callStore s))
      (set_callStore (λ _, callStore s ++ [event_record msg])
         (reg_store (str_or_empty msg "callid") (length (callStore s)) s)).
Proof.
  intros Hh Ht Hne. unfold handleEvent, event_target in *. rewrite Hh.
  unfold find_or_create.
  assert (E : ∀ c f, update_call (length (callStore s)) f
                (reg_store (str_or_empty msg "callid") (length (callStore s))
                   (set_callStore (λ st, st ++ [c]) s))
              = set_callStore (λ _, callStore s ++ [f c])
                  (reg_store (str_or_empty msg "callid") (length (callStore s)) s)).
  { intros c f. unfold update_call, reg_store, new_call, set_callStore, emit, set_calls.
    cbn. by rewrite alter_app_end. }
  destruct (calls s !! str_or_empty msg "callid") as [q|]; [done|].
  destruct (decide (str_or_empty msg "channel" = "")).
  { rewrite decide_False by done. cbn [new_call]. by rewrite E. }
  destruct (decide (str_or_empty msg "uid" = "")).
  { rewrite decide_False by done. cbn [new_call]. by rewrite E. }
  rewrite Ht. rewrite decide_False by done. cbn [new_call]. by rewrite E.
Qed.

Lemma handleEvent_ignored msg s :
  handler s = None ∨ (event_target msg s = None ∧ str_or_empty msg "callid" = "") →
  handleEvent msg s = s.
Proof.
  unfold handleEvent, event_target, find_or_create.
  intros [->|[Ht He]]; [done|]. destruct (handler s); [|done].
  destruct (calls s !! str_or_empty msg "callid") as [q|]; [done|].
  destruct (decide (str_or_empty msg "channel" = "")); [by rewrite decide_True|].
  destruct (decide (str_or_empty msg "uid" = "")); [by rewrite decide_True|].
  rewrite Ht. by rewrite decide_True.
Qed.

Lemma alter_alter_insert {A} (f g : A → A) (l : list A) (p : nat) (c : A) :
  l !! p = Some c → alter f p (alter g p l) = <[p := f (g c)]> l.
Proof.
  intros H. apply list_eq. intros i. destruct (decide (i = p)) as [->|Hne].
  - rewrite !list_lookup_alter_eq, H.
    rewrite list_lookup_insert_eq by (by eapply lookup_lt_Some). done.
  - by rewrite !list_lookup_alter_ne, list_lookup_insert_ne by done.
Qed.

Lemma alter_insert {A} (g : A → A) (l : list A) (p : nat) (c : A) :
  l !! p = Some c → alter g p l = <[p := g c]> l.
Proof.
  intros H. apply list_eq. intros i. destruct (decide (i = p)) as [->|Hne].
  - rewrite list_lookup_alter_eq, H.
    rewrite list_lookup_insert_eq by (by eapply lookup_lt_Some). done.
  - by rewrite list_lookup_alter_ne, list_lookup_insert_ne by done.
Qed.

Lemma handleEvent_state_event msg h s p c st cb :
  handler s = Some h → event_target msg s = Some p → callStore s !! p = Some c →
  state_event (str_or_empty msg "event") = Some (st, cb) →
  let c' := set_State st (merge_event_fields msg (str_or_empty msg "callid")
              (str_or_empty msg "channel") (str_or_empty msg "uid") c) in
  handleEvent msg s = emit (cb c') (set_callStore (λ _, <[p := c']> (callStore s)) s).
Proof.
  intros Hh Ht Hc Hst c'. rewrite (handleEvent_existing msg h s p Hh Ht).
  set (merge := merge_event_fields _ _ _ _) in *.
  assert (Hd : ∀ st', deref p (update_call p (set_State st') (update_call p merge s))
                      = set_State st' (merge c)).
  { intros st'. unfold deref, update_call. cbn [callStore set_callStore].
    by rewrite !list_lookup_alter_eq, Hc. }
  assert (Hs : ∀ st', update_call p (set_State st') (update_call p merge s)
                      = set_callStore (λ _, <[p := set_State st' (merge c)]> (callStore s)) s).
  { intros st'. unfold update_call, set_callStore. cbn.
    by rewrite (alter_alter_insert _ _ _ _ _ Hc). }
  unfold state_event in Hst.
  destruct (decide (str_or_empty msg "event" = "call_ringing")) as [E|?].
  { simplify_eq. unfold dispatch. rewrite E. rewrite decide_False by done.
    rewrite decide_True by done. cbv zeta. by rewrite Hd, Hs. }
  destruct (decide (str_or_empty msg "event" = "call_answered")) as [E|?].
  { simplify_eq. unfold dispatch. rewrite E. do 2 rewrite decide_False by done.
    rewrite decide_True by done. cbv zeta. by rewrite Hd, Hs. }
  destruct (decide (str_or_empty msg "event" = "agora_bridge_start")) as [E|?].
  { simplify_eq. unfold dispatch. rewrite E. do 3 rewrite decide_False by done.
    rewrite decide_True by done. cbv zeta. by rewrite Hd, Hs. }
  destruct (decide (str_or_empty msg "event" = "agora_bridge_end")) as [E|?]; [|done].
  simplify_eq. unfold dispatch. rewrite E. do 4 rewrite decide_False by done.
  rewrite decide_True by done. cbv zeta. by rewrite Hd, Hs.
Qed.

(** X14.  An event of type [call_ringing], [call_answered],
    [agora_bridge_start] or [agora_bridge_end] about a tracked call -- found
    under the event's call id or, failing that, under its [channel:uid] --
    puts the call into state [ringing], [answered], [bridged] or [unbridged]
    respectively, after merging the event's fields into the record, and
    invokes exactly one callback, the one for that event, on the record as
    it then is.  The keys of the registry, the other records and everything
    else in the client are unchanged. *)
Theorem state_event_updates_call
    (msg : Msg) (h : EventHandler) (s : Client) (p : nat) (c : Call)
    (st : string) (cb : Call → Effect) :
  handler s = Some h → event_target msg s = Some p → callStore s !! p = Some c →
  state_event (str_or_empty msg "event") = Some (st, cb) →
  let c' := set_State st (merge_event_fields msg (str_or_empty msg "callid")
              (str_or_empty msg "channel") (str_or_empty msg "uid") c) in
  let s' := handleEvent msg s in
  registry_step s s' ∧ calls s' = calls s
  ∧ callStore s' = <[p := c']> (callStore s)
  ∧ log s' = log s ++ [cb c']
  ∧ State c' = st
  ∧ (st, cb) ∈ [("ringing", CbCallRinging); ("answered", CbCallAnswered);
                ("bridged", CbBridgeStart); ("unbridged", CbBridgeEnd)].
Proof.
  intros Hh Ht Hc Hst c' s'. subst s'.
  rewrite (handleEvent_state_event msg h s p c st cb Hh Ht Hc Hst).
  split; [by destruct s|]. split; [done|]. split; [done|]. split; [done|].
  split; [done|]. unfold state_event in Hst.
  repeat case_decide; simplify_eq; set_solver.
Qed.

Lemma state_event_updates_call_witness :
  let s := run opsDialled client0 in
  let msg := event "agora_bridge_start" "C1" in
  event_target msg s = Some 0%nat
  ∧ calls (handleEvent msg s) = calls s
  ∧ State (deref 0 (handleEvent msg s)) = "bridged"
  ∧ log (handleEvent msg s) = log s ++ [CbBridgeStart (deref 0 (handleEvent msg s))].
Proof.
  intros s msg.
  assert (Hh : handler s = Some claimAll) by reflexivity.
  assert (Ht : event_target msg s = Some 0%nat) by (vm_compute; reflexivity).
  assert (Hc : callStore s !! 0%nat = Some (deref 0 s)) by (vm_compute; reflexivity).
  assert (Hst : state_event (str_or_empty msg "event") = Some ("bridged", CbBridgeStart))
    by (vm_compute; reflexivity).
  destruct (state_event_updates_call msg claimAll s 0%nat (deref 0 s) "bridged"
              CbBridgeStart Hh Ht Hc Hst) as (_ & H1 & H2 & H3 & _).
  split; [exact Ht|]. split; [exact H1|].
  assert (Hd : deref 0 (handleEvent msg s)
               = set_State "bridged" (merge_event_fields msg (str_or_empty msg "callid")
                   (str_or_empty msg "channel") (str_or_empty msg "uid") (deref 0 s))).
  { unfold deref at 1. rewrite H2. vm_compute. reflexivity. }
  split; [by rewrite Hd|]. by rewrite Hd.
Defined.

Lemma merge_event_fields_spec msg callid channel uid c :
  let c' := merge_event_fields msg callid channel uid c in
  CallID c' = (if decide (callid = "") then CallID c else callid)
  ∧ State c' = State c
  ∧ Direction c' = default (Direction c) (nonempty_field msg "direction")
  ∧ From c' = default (From c) (nonempty_field msg "from")
  ∧ To c' = default (To c) (nonempty_field msg "to")
  ∧ Channel c' = (if decide (channel = "") then Channel c else channel)
  ∧ UID c' = (if decide (uid = "") then UID c else uid)
  ∧ AppID c' = default (AppID c) (nonempty_field msg "appid").
Proof.
  unfold merge_event_fields.
  destruct (nonempty_field msg "from"), (nonempty_field msg "to"),
    (nonempty_field msg "direction"), (nonempty_field msg "appid");
    repeat case_decide; done.
Qed.

Lemma nonempty_field_default msg k : default "" (nonempty_field msg k) = str_or_empty msg k.
Proof.
  unfold nonempty_field, str_or_empty. destruct (str_field msg k) as [v|]; [|done].
  by case_decide.
Qed.

Lemma event_record_fields msg :
  CallID (event_record msg) = str_or_empty msg "callid"
  ∧ State (event_record msg) = ""
  ∧ Direction (event_record msg) = str_or_empty msg "direction"
  ∧ From (event_record msg) = str_or_empty msg "from"
  ∧ To (event_record msg) = str_or_empty msg "to"
  ∧ Channel (event_record msg) = str_or_empty msg "channel"
  ∧ UID (event_record msg) = str_or_empty msg "uid"
  ∧ AppID (event_record msg) = str_or_empty msg "appid".
Proof.
  unfold event_record.
  destruct (merge_event_fields_spec msg (str_or_empty msg "callid")
              (str_or_empty msg "channel") (str_or_empty msg "uid")
              (mkCall (str_or_empty msg "callid") "" "" "" ""
                 (str_or_empty msg "channel") (str_or_empty msg "uid") ""))
    as (H1 & H2 & H3 & H4 & H5 & H6 & H7 & H8).
  rewrite H1, H2, H3, H4, H5, H6, H7, H8. cbn [CallID State Direction From To Channel UID AppID].
  clear H1 H2 H3 H4 H5 H6 H7 H8.
  rewrite !nonempty_field_default. split_and!; try done; by case_match.
Qed.

Lemma event_target_None msg s :
  event_target msg s = None → calls s !! str_or_empty msg "callid" = None.
Proof. unfold event_target. by destruct (calls s !! str_or_empty msg "callid"). Qed.

(** X15.  A [call_incoming] event about a call the registry does not know, with
    a non-empty call id, is offered to the handler exactly once, as a record
    built from the event alone: its call id, from, to, channel, uid and appid
    are those of the event (empty where the event has none), its state is
    [incoming] and its direction [inbound], whatever direction the event
    names.  If the handler claims the call, the registry afterwards maps the
    call id to that record; if it declines, the registry is as it was. *)
Theorem unknown_incoming_call_offered (msg : Msg) (h : EventHandler) (s : Client) :
  handler s = Some h → str_or_empty msg "event" = "call_incoming" →
  str_or_empty msg "callid" ≠ "" → event_target msg s = None →
  let callid := str_or_empty msg "callid" in
  let c := set_Direction "inbound" (set_State "incoming" (event_record msg)) in
  let s' := handleEvent msg s in
  callbacks (log s') = callbacks (log s) ++ [CbCallIncoming c (OnCallIncoming h c)]
  ∧ callStore s' = callStore s ++ [c]
  ∧ calls s' = (if OnCallIncoming h c then <[callid := length (callStore s)]> (calls s)
                else calls s)
  ∧ CallID c = callid ∧ State c = "incoming" ∧ Direction c = "inbound"
  ∧ From c = str_or_empty msg "from" ∧ To c = str_or_empty msg "to"
  ∧ Channel c = str_or_empty msg "channel" ∧ UID c = str_or_empty msg "uid"
  ∧ AppID c = str_or_empty msg "appid".
Proof.
  intros Hh Hty Hne Ht callid c s'. subst s'.
  rewrite (handleEvent_fresh msg h s Hh Ht Hne). rewrite Hty. fold callid.
  unfold dispatch. rewrite decide_True by done. cbv zeta.
  set (p := length (callStore s)).
  set (s0 := set_callStore _ (reg_store callid p s)).
  set (f := λ c0 : Call, set_Direction "inbound" (set_State "incoming" c0)).
  assert (Hst : callStore (update_call p f s0) = callStore s ++ [c]).
  { unfold update_call, s0. cbn [callStore set_callStore]. subst p.
    by rewrite alter_app_end. }
  assert (Hd : deref p (update_call p f s0) = c).
  { unfold deref. rewrite Hst. subst p. by rewrite list_lookup_middle. }
  rewrite Hd.
  assert (Hcb : callbacks (log (update_call p f s0)) = callbacks (log s)).
  { unfold callbacks, update_call, s0, reg_store. cbn. rewrite filter_app. simpl.
    by rewrite app_nil_r. }
  assert (Hcalls : calls (update_call p f s0) = <[callid := p]> (calls s)) by done.
  destruct (event_record_fields msg) as (F1 & F2 & F3 & F4 & F5 & F6 & F7 & F8).
  split.
  { destruct (OnCallIncoming h c).
    - rewrite callbacks_emit. cbn [is_callback]. by rewrite Hcb.
    - unfold reg_delete. rewrite callbacks_emit. cbn [is_callback log set_calls].
      rewrite app_nil_r, callbacks_emit. cbn [is_callback]. by rewrite Hcb. }
  split; [by destruct (OnCallIncoming h c)|].
  split.
  { destruct (OnCallIncoming h c); [done|]. unfold reg_delete. cbn [calls emit set_calls].
    rewrite Hcalls. apply delete_insert_id. by apply event_target_None. }
  split_and!; done.
Qed.

Lemma unknown_incoming_call_offered_witness :
  let msg : Msg := <["direction" := JStr "outbound"]>
                     (<["from" := JStr "+15550100"]> (event "call_incoming" "C9")) in
  let c := mkCall "C9" "incoming" "inbound" "+15550100" "" "" "" "" in
  event_target msg client1 = None
  ∧ callbacks (log (handleEvent msg client1))
      = callbacks (log client1) ++ [CbCallIncoming c false]
  ∧ calls (handleEvent msg client1) = calls client1.
Proof.
  intros msg c.
  assert (Hh : handler client1 = Some claimNone) by reflexivity.
  assert (Hty : str_or_empty msg "event" = "call_incoming") by (vm_compute; reflexivity).
  assert (Hne : str_or_empty msg "callid" ≠ "") by (vm_compute; discriminate).
  assert (Ht : event_target msg client1 = None) by (vm_compute; reflexivity).
  destruct (unknown_incoming_call_offered msg claimNone client1 Hh Hty Hne Ht)
    as (H1 & _ & H3 & _).
  split; [exact Ht|].
  assert (Hc : set_Direction "inbound" (set_State "incoming" (event_record msg)) = c)
    by (vm_compute; reflexivity).
  rewrite Hc in H1, H3. split; [exact H1|exact H3].
Defined.

Lemma dispatch_unknown h ty msg callid p s :
  known_event ty = false → dispatch h ty msg callid p s = s.
Proof.
  intros H. apply bool_decide_eq_false in H. unfold dispatch.
  repeat (case_decide; [exfalso; apply H; subst ty; set_solver|]). done.
Qed.

(** X16.  An event whose type the client has no arm for -- a misspelt or new
    event, or a late command reply treated as an event -- invokes no
    callback, but is not ignored: its fields are merged into the call it
    names, and for an unknown call with a non-empty call id a record is
    created and stored under that call id, in the empty state.  Only an event
    that names no call the registry knows and has no call id leaves the
    client as it was. *)
Theorem unknown_event_type_tracked_silently (msg : Msg) (h : EventHandler) (s : Client) :
  handler s = Some h → known_event (str_or_empty msg "event") = false →
  let callid := str_or_empty msg "callid" in
  let s' := handleEvent msg s in
  callbacks (log s') = callbacks (log s)
  ∧ (∀ p c, event_target msg s = Some p → callStore s !! p = Some c →
       calls s' = calls s
       ∧ callStore s' = <[p := merge_event_fields msg callid (str_or_empty msg "channel")
                                  (str_or_empty msg "uid") c]> (callStore s))
  ∧ (event_target msg s = None → callid ≠ "" →
       calls s' = <[callid := length (callStore s)]> (calls s)
       ∧ callStore s' = callStore s ++ [event_record msg]
       ∧ State (event_record msg) = "")
  ∧ (event_target msg s = None → callid = "" → s' = s).
Proof.
  intros Hh Hty callid s'. subst s'.
  assert (H1 : ∀ p c, event_target msg s = Some p → callStore s !! p = Some c →
            handleEvent msg s = update_call p (merge_event_fields msg callid
              (str_or_empty msg "channel") (str_or_empty msg "uid")) s).
  { intros p c Ht Hc. rewrite (handleEvent_existing msg h s p Hh Ht).
    by apply dispatch_unknown. }
  assert (H2 : event_target msg s = None → callid ≠ "" →
            handleEvent msg s = set_callStore (λ _, callStore s ++ [event_record msg])
                                  (reg_store callid (length (callStore s)) s)).
  { intros Ht Hne. rewrite (handleEvent_fresh msg h s Hh Ht Hne).
    by apply dispatch_unknown. }
  assert (H3 : event_target msg s = None → callid = "" → handleEvent msg s = s).
  { intros Ht He. apply handleEvent_ignored. by right. }
  split.
  { destruct (event_target msg s) as [p|] eqn:Ht.
    - rewrite (handleEvent_existing msg h s p Hh Ht), dispatch_unknown by done. done.
    - destruct (decide (callid = "")) as [He|Hne].
      + by rewrite H3.
      + rewrite H2 by done. unfold callbacks, reg_store. cbn. rewrite filter_app.
        simpl. by rewrite app_nil_r. }
  split.
  { intros p c Ht Hc. rewrite (H1 p c Ht Hc). split; [done|].
    unfold update_call. cbn [callStore set_callStore]. by apply alter_insert. }
  split.
  { intros Ht Hne. rewrite (H2 Ht Hne). split; [done|]. split; [done|].
    by destruct (event_record_fields msg) as (_ & ? & _). }
  exact H3.
Qed.

Lemma unknown_event_type_tracked_silently_witness :
  let msg : Msg := <["request_id" := JStr "hangup_7"]> (event "" "C7") in
  known_event (str_or_empty msg "event") = false
  ∧ event_target msg client1 = None
  ∧ callbacks (log (handleEvent msg client1)) = callbacks (log client1)
  ∧ calls (handleEvent msg client1) = <["C7" := 0%nat]> (calls client1)
  ∧ callStore (handleEvent msg client1) = [mkCall "C7" "" "" "" "" "" "" ""].
Proof.
  intros msg.
  assert (Hh : handler client1 = Some claimNone) by reflexivity.
  assert (Hty : known_event (str_or_empty msg "event") = false) by (vm_compute; reflexivity).
  assert (Ht : event_target msg client1 = None) by (vm_compute; reflexivity).
  assert (Hne : str_or_empty msg "callid" ≠ "") by (vm_compute; discriminate).
  destruct (unknown_event_type_tracked_silently msg claimNone client1 Hh Hty)
    as (H1 & _ & H3 & _).
  destruct (H3 Ht Hne) as (H4 & H5 & _).
  split; [exact Hty|]. split; [exact Ht|]. split; [exact H1|]. split; [exact H4|].
  rewrite H5. vm_compute. reflexivity.
Defined.

Lemma dispatch_fields h ty msg callid q s :
  ∃ g, callStore (dispatch h ty msg callid q s) = alter g q (callStore s)
    ∧ ∀ c, CallID (g c) = CallID c ∧ From (g c) = From c ∧ To (g c) = To c
           ∧ Channel (g c) = Channel c ∧ UID (g c) = UID c ∧ AppID (g c) = AppID c.
Proof.
  unfold dispatch.
  destruct (decide (ty = "call_incoming")).
  { exists (λ c, set_Direction "inbound" (set_State "incoming" c)).
    split; [|done]. cbv zeta. by destruct (OnCallIncoming h _). }
  destruct (decide (ty = "call_ringing"));
    [exists (set_State "ringing"); split; [reflexivity|done]|].
  destruct (decide (ty = "call_answered"));
    [exists (set_State "answered"); split; [reflexivity|done]|].
  destruct (decide (ty = "agora_bridge_start"));
    [exists (set_State "bridged"); split; [reflexivity|done]|].
  destruct (decide (ty = "agora_bridge_end"));
    [exists (set_State "unbridged"); split; [reflexivity|done]|].
  destruct (decide (ty = "call_hangup")).
  { exists (set_State "hangup"). split; [|done]. cbv zeta. by repeat case_decide. }
  exists id. split; [|done]. rewrite list_alter_id by done.
  destruct (decide (ty = "dtmf_received")); [|done]. by destruct (isDTMFHandler h).
Qed.

(** X17.  An event changes at most one record, the one it is about.  Every
    other record the client holds -- tracked or not -- is left exactly as it
    was, and so is every record when no handler is set.  In the record it is
    about, the merge only ever overwrites a field with a non-empty value of
    the event: call id, channel and uid are replaced when the event's are
    non-empty, from, to and appid when the event carries a non-empty string
    for them, and a field the event leaves out or leaves empty keeps its
    value. *)
Theorem event_changes_one_record (msg : Msg) (s : Client) (q : nat) (c : Call) :
  callStore s !! q = Some c →
  ∃ c', callStore (handleEvent msg s) !! q = Some c'
    ∧ (handler s = None ∨ event_target msg s ≠ Some q → c' = c)
    ∧ (is_Some (handler s) → event_target msg s = Some q →
         CallID c' = (if decide (str_or_empty msg "callid" = "") then CallID c
                      else str_or_empty msg "callid")
         ∧ Channel c' = (if decide (str_or_empty msg "channel" = "") then Channel c
                         else str_or_empty msg "channel")
         ∧ UID c' = (if decide (str_or_empty msg "uid" = "") then UID c
                     else str_or_empty msg "uid")
         ∧ From c' = default (From c) (nonempty_field msg "from")
         ∧ To c' = default (To c) (nonempty_field msg "to")
         ∧ AppID c' = default (AppID c) (nonempty_field msg "appid")).
Proof.
  intros Hc. destruct (handler s) as [h|] eqn:Hh.
  2:{ exists c. rewrite handleEvent_ignored by auto. split; [done|]. split; [done|].
      by intros [? ?]. }
  set (merge := merge_event_fields msg (str_or_empty msg "callid")
                  (str_or_empty msg "channel") (str_or_empty msg "uid")).
  destruct (event_target msg s) as [p|] eqn:Ht.
  - rewrite (handleEvent_existing msg h s p Hh Ht). fold merge.
    destruct (dispatch_fields h (str_or_empty msg "event") msg (str_or_empty msg "callid")
                p (update_call p merge s)) as (g & -> & Hg).
    unfold update_call. cbn [callStore set_callStore].
    destruct (decide (p = q)) as [->|Hne].
    + exists (g (merge c)). rewrite !list_lookup_alter_eq, Hc. split; [done|].
      split; [by intros [?|?]|]. intros _ _.
      destruct (Hg (merge c)) as (G1 & G2 & G3 & G4 & G5 & G6).
      destruct (merge_event_fields_spec msg (str_or_empty msg "callid")
                  (str_or_empty msg "channel") (str_or_empty msg "uid") c)
        as (M1 & _ & _ & M4 & M5 & M6 & M7 & M8).
      fold merge in M1, M4, M5, M6, M7, M8.
      rewrite G1, G2, G3, G4, G5, G6. split_and!; done.
    + exists c. rewrite !list_lookup_alter_ne by done. split; [done|].
      split; [done|]. intros _ [= ?]. done.
  - destruct (decide (str_or_empty msg "callid" = "")) as [He|He].
    + exists c. rewrite handleEvent_ignored by auto. split; [done|]. split; [done|].
      by intros _ ?.
    + rewrite (handleEvent_fresh msg h s Hh Ht He).
      destruct (dispatch_fields h (str_or_empty msg "event") msg
                  (str_or_empty msg "callid") (length (callStore s))
                  (set_callStore (λ _, callStore s ++ [event_record msg])
                     (reg_store (str_or_empty msg "callid") (length (callStore s)) s)))
        as (g & -> & _).
      cbn [callStore set_callStore reg_store emit set_calls].
      exists c. apply lookup_lt_Some in Hc as Hlt.
      rewrite list_lookup_alter_ne by lia. rewrite lookup_app_l by done.
      split; [done|]. split; [done|]. by intros _ ?.
Qed.

Lemma event_changes_one_record_witness :
  let s := run opsDialled client0 in
  let msg : Msg := <["to" := JStr ""]> (<["appid" := JStr "APP7"]> (event "call_ringing" "C1")) in
  event_target msg s = Some 0%nat
  ∧ ∃ c', callStore (handleEvent msg s) !! 0%nat = Some c'
      ∧ AppID c' = "APP7" ∧ To c' = "+18005551234" ∧ Channel c' = "ch1".
Proof.
  intros s msg.
  assert (Hc : callStore s !! 0%nat = Some (deref 0 s)) by (vm_compute; reflexivity).
  assert (Ht : event_target msg s = Some 0%nat) by (vm_compute; reflexivity).
  assert (Hh : is_Some (handler s)) by (by eexists).
  split; [exact Ht|].
  destruct (event_changes_one_record msg s 0%nat (deref 0 s) Hc) as (c' & E & _ & H).
  destruct (H Hh Ht) as (_ & H2 & _ & _ & H5 & H6).
  exists c'. split; [exact E|]. split; [rewrite H6|split; [rewrite H5|rewrite H2]];
    vm_compute; reflexivity.
Defined.

(** ** An event that overtakes the dial reply *)

Lemma insert_app_end {A} (l : list A) (c c' : A) :
  <[length l := c']> (l ++ [c]) = l ++ [c'].
Proof. induction l as [|x l IH]; [done|]. simpl. f_equal. exact IH. Qed.

Lemma set_CallID_same cid c : CallID c = cid → set_CallID cid c = c.
Proof. destruct c; simpl. by intros ->. Qed.

Lemma Dial_promote_callbacks chanKey resp s :
  callbacks (log (Dial_promote chanKey resp s).2) = callbacks (log s).
Proof.
  unfold Dial_promote. cbn [snd]. unfold reg_delete. rewrite callbacks_emit.
  cbn [is_callback log set_calls]. rewrite app_nil_r.
  case_decide; [done|]. destruct (calls s !! chanKey); [|done].
  unfold reg_store. by rewrite callbacks_emit, app_nil_r.
Qed.

(** X18.  The events of an outbound call may arrive before the reply to the
    dial command.  When such an event names the channel and uid of the dial
    and carries the call id the reply will carry, it is routed to the
    provisional record that [Dial] stored under [channel:uid]: no second
    record is created, the handler is called once, on a record that already
    has the call id and still has the direction, numbers and appid of the
    dial; and when the reply arrives the same record -- in the state the
    event gave it, not reset to [ringing] -- is the one stored under the call
    id, the provisional key being removed. *)
Theorem event_before_dial_reply
    (params : DialParams) (msg resp : Msg) (h : EventHandler) (s : Client)
    (st : string) (cb : Call → Effect) :
  let chanKey := dpChannel params +:+ ":" +:+ dpUID params in
  let cid := reply_callid resp in
  handler s = Some h →
  dpChannel params ≠ "" → dpUID params ≠ "" →
  str_or_empty msg "channel" = dpChannel params →
  str_or_empty msg "uid" = dpUID params →
  str_or_empty msg "callid" = cid → cid ≠ "" →
  calls s !! cid = None → cid ≠ chanKey →
  state_event (str_or_empty msg "event") = Some (st, cb) →
  let s1 := Dial_pretrack params s in
  let s2 := handleEvent msg s1 in
  let s3 := (Dial_promote chanKey resp s2).2 in
  let c := set_State st
             (merge_event_fields msg cid (dpChannel params) (dpUID params)
                (mkCall "" "ringing" "outbound" (dpFrom params) (dpTo params)
                   (dpChannel params) (dpUID params) (dpAppID params))) in
  calls s2 = <[chanKey := length (callStore s)]> (calls s)
  ∧ callStore s2 = callStore s ++ [c]
  ∧ callbacks (log s3) = callbacks (log s) ++ [cb c]
  ∧ calls s3 = <[cid := length (callStore s)]> (delete chanKey (calls s))
  ∧ callStore s3 = callStore s ++ [c]
  ∧ CallID c = cid ∧ State c = st
  ∧ Direction c = default "outbound" (nonempty_field msg "direction")
  ∧ From c = default (dpFrom params) (nonempty_field msg "from")
  ∧ To c = default (dpTo params) (nonempty_field msg "to")
  ∧ AppID c = default (dpAppID params) (nonempty_field msg "appid").
Proof.
  intros chanKey cid Hh Hch Hu Hmc Hmu Hmid Hcid Hnew Hne Hst s1 s2 s3 c.
  set (p := length (callStore s)).
  set (c0 := mkCall "" "ringing" "outbound" (dpFrom params) (dpTo params)
               (dpChannel params) (dpUID params) (dpAppID params)) in *.
  assert (Hs1 : calls s1 = <[chanKey := p]> (calls s)
                ∧ callStore s1 = callStore s ++ [c0]
                ∧ handler s1 = Some h
                ∧ callbacks (log s1) = callbacks (log s)).
  { subst s1. unfold Dial_pretrack. cbn. split_and!; try done.
    unfold callbacks. rewrite filter_app. simpl. by rewrite app_nil_r. }
  destruct Hs1 as (Hc1 & Hst1 & Hh1 & Hcb1).
  assert (Ht : event_target msg s1 = Some p).
  { unfold event_target. rewrite Hmid, Hmc, Hmu, Hc1.
    rewrite lookup_insert_ne by done. rewrite Hnew.
    rewrite !decide_False by done. apply lookup_insert_eq. }
  assert (Hp : callStore s1 !! p = Some c0).
  { rewrite Hst1. subst p. apply list_lookup_middle. done. }
  pose proof (handleEvent_state_event msg h s1 p c0 st cb Hh1 Ht Hp Hst) as E.
  cbv zeta in E. rewrite Hmid, Hmc, Hmu in E. fold c in E. fold s2 in E.
  assert (Hs2 : calls s2 = <[chanKey := p]> (calls s)
                ∧ callStore s2 = callStore s ++ [c]
                ∧ callbacks (log s2) = callbacks (log s) ++ [cb c]).
  { rewrite E. cbn [calls callStore emit set_callStore]. rewrite Hc1, Hst1.
    split; [done|]. split; [subst p; apply insert_app_end|].
    rewrite callbacks_emit. cbn [log set_callStore]. rewrite Hcb1.
    unfold state_event in Hst. repeat case_decide; simplify_eq; done. }
  destruct Hs2 as (Hc2 & Hst2 & Hcb2).
  destruct (merge_event_fields_spec msg cid (dpChannel params) (dpUID params) c0)
    as (M1 & M2 & M3 & M4 & M5 & M6 & M7 & M8).
  assert (Hid : CallID c = cid).
  { subst c. cbn [CallID set_State]. rewrite M1. by rewrite decide_False. }
  assert (Hk2 : calls s2 !! chanKey = Some p) by (rewrite Hc2; apply lookup_insert_eq).
  assert (Hp2 : callStore s2 !! p = Some c).
  { rewrite Hst2. subst p. by apply list_lookup_middle. }
  destruct (Dial_promote_spec chanKey resp s2 p c Hk2 Hp2) as (_ & _ & _ & Hpro & _).
  destruct (Hpro Hcid) as [Hc3 Hst3]. fold cid in Hc3, Hst3. fold s3 in Hc3, Hst3.
  split; [done|]. split; [done|].
  split; [subst s3; by rewrite Dial_promote_callbacks|].
  split.
  { rewrite Hc3, Hc2, delete_insert_insert. by apply delete_insert_ne. }
  split.
  { rewrite Hst3, Hst2. subst p. rewrite alter_app_end. by rewrite set_CallID_same. }
  split; [done|]. subst c. cbn [State Direction From To AppID set_State].
  rewrite M3, M4, M5, M8. done.
Qed.

Lemma event_before_dial_reply_witness :
  let s := run [OpSetHandler (Some claimAll); OpConnect (okHandshake 7)] client0 in
  let msg : Msg :=
    <["uid" := JStr "100"]> (<["channel" := JStr "ch1"]> (event "call_answered" "C1")) in
  let s3 := (Dial_promote "ch1:100" (dialReply "C1")
               (handleEvent msg (Dial_pretrack dial1 s))).2 in
  let c := mkCall "C1" "answered" "outbound" "+15551234567" "+18005551234" "ch1" "100" "" in
  calls s !! "C1" = None
  ∧ callbacks (log s3) = callbacks (log s) ++ [CbCallAnswered c]
  ∧ calls s3 = <["C1" := 0%nat]> (delete "ch1:100" (calls s))
  ∧ callStore s3 = [c].
Proof.
  intros s msg s3 c.
  assert (Hh : handler s = Some claimAll) by reflexivity.
  assert (Hch : dpChannel dial1 ≠ "") by (vm_compute; discriminate).
  assert (Hu : dpUID dial1 ≠ "") by (vm_compute; discriminate).
  assert (Hmc : str_or_empty msg "channel" = dpChannel dial1) by (vm_compute; reflexivity).
  assert (Hmu : str_or_empty msg "uid" = dpUID dial1) by (vm_compute; reflexivity).
  assert (Hmid : str_or_empty msg "callid" = reply_callid (dialReply "C1"))
    by (vm_compute; reflexivity).
  assert (Hcid : reply_callid (dialReply "C1") ≠ "") by (vm_compute; discriminate).
  assert (Hnew : calls s !! reply_callid (dialReply "C1") = None)
    by (vm_compute; reflexivity).
  assert (Hne : reply_callid (dialReply "C1") ≠ dpChannel dial1 +:+ ":" +:+ dpUID dial1)
    by (vm_compute; discriminate).
  assert (Hst : state_event (str_or_empty msg "event") = Some ("answered", CbCallAnswered))
    by (vm_compute; reflexivity).
  destruct (event_before_dial_reply dial1 msg (dialReply "C1") claimAll s "answered"
              CbCallAnswered Hh Hch Hu Hmc Hmu Hmid Hcid Hnew Hne Hst)
    as (_ & _ & H3 & H4 & H5 & _).
  split; [exact Hnew|].
  assert (Hc : set_State "answered"
                 (merge_event_fields msg (reply_callid (dialReply "C1")) (dpChannel dial1)
                    (dpUID dial1)
                    (mkCall "" "ringing" "outbound" (dpFrom dial1) (dpTo dial1)
                       (dpChannel dial1) (dpUID dial1) (dpAppID dial1))) = c)
    by (vm_compute; reflexivity).
  rewrite Hc in H3, H5.
  split; [exact H3|].
  split; (etransitivity; [first [exact H4|exact H5]|vm_compute; reflexivity]).
Defined.

(** ** What Dial returns *)

Lemma dialMsg_fields params :
  dialMsg params !! "action" = Some (JStr "outbound")
  ∧ dialMsg params !! "to" = Some (JStr (dpTo params))
  ∧ dialMsg params !! "from" = Some (JStr (dpFrom params))
  ∧ dialMsg params !! "channel" = Some (JStr (dpChannel params))
  ∧ dialMsg params !! "uid" = Some (JStr (dpUID params))
  ∧ dialMsg params !! "token" = Some (JStr (dpToken params))
  ∧ dialMsg params !! "region" = Some (JStr (dpRegion params))
  ∧ dialMsg params !! "timeout" = Some (JStr (dpTimeout params))
  ∧ dialMsg params !! "sip" = optional_field (dpSip params)
  ∧ dialMsg params !! "sip_domain" = optional_field (dpSipDomain params)
  ∧ dialMsg params !! "appid" = optional_field (dpAppID params).
Proof.
  unfold dialMsg, optional_field. repeat case_decide; by simplify_map_eq.
Qed.

(** X19.  On a live connection [Dial] writes one ["outbound"] frame with the
    eight required fields of the parameters, and [sip], [sip_domain] and
    [appid] exactly when they are not empty.  Whenever a reply arrives,
    [Dial] returns a result and no error: the result holds the reply itself,
    the call id and the success flag of the reply's [data] object (empty and
    false when missing).  Unlike the other commands, [Dial] does not turn an
    [error] string of the reply into an error: a rejected dial is a result
    whose success flag is false.  Without a reply it returns the error of
    [sendCommand] and no result. *)
Theorem Dial_returns_reply (params : DialParams) (o : Outcome) (s : Client) :
  connected s = true → is_Some (conn s) →
  ∃ r s' frame,
    Dial params o s = Some (r, s')
    ∧ commands (log s') = commands (log s) ++ [("outbound", frame)]
    ∧ frame !! "request_id"
        = Some (JStr (reqID_of "outbound" (uint64_add (nextReqID s) 1)))
    ∧ (∀ k, k ≠ "request_id" → frame !! k = dialMsg params !! k)
    ∧ frame !! "to" = Some (JStr (dpTo params))
    ∧ frame !! "from" = Some (JStr (dpFrom params))
    ∧ frame !! "channel" = Some (JStr (dpChannel params))
    ∧ frame !! "uid" = Some (JStr (dpUID params))
    ∧ frame !! "token" = Some (JStr (dpToken params))
    ∧ frame !! "region" = Some (JStr (dpRegion params))
    ∧ frame !! "timeout" = Some (JStr (dpTimeout params))
    ∧ frame !! "sip" = optional_field (dpSip params)
    ∧ frame !! "sip_domain" = optional_field (dpSipDomain params)
    ∧ frame !! "appid" = optional_field (dpAppID params)
    ∧ match o with
      | Replied body =>
          r = (Some (mkDialResult (reply_success body) (reply_callid body)
                       (<["request_id" :=
                            JStr (reqID_of "outbound" (uint64_add (nextReqID s) 1))]> body)),
               None)
      | _ => r = (None, command_outcome o)
      end.
Proof.
  intros Hc [cn Hn]. unfold Dial. cbv zeta.
  set (chanKey := dpChannel params +:+ ":" +:+ dpUID params).
  set (s1 := Dial_pretrack params s).
  assert (Hs1 : connected s1 = true ∧ conn s1 = Some cn ∧ nextReqID s1 = nextReqID s
                ∧ commands (log s1) = commands (log s)).
  { subst s1. unfold Dial_pretrack. cbn [new_call]. rewrite commands_reg_store. done. }
  destruct Hs1 as (Hc1 & Hn1 & Hq1 & Hl1).
  destruct (sendCommand_connected "outbound" (dialMsg params) o s1 cn Hc1 Hn1)
    as (s2 & ok & l & -> & _ & _ & _ & _ & Hlog & Hl & _).
  rewrite Hq1 in *.
  set (reqID := reqID_of "outbound" (uint64_add (nextReqID s) 1)) in *.
  set (frame := <["request_id" := JStr reqID]> (dialMsg params)) in *.
  assert (Hcmd : commands (log s2) = commands (log s) ++ [("outbound", frame)])
    by (by rewrite Hlog, commands_app, commands_sent, Hl, Hl1).
  destruct (dialMsg_fields params)
    as (_ & F2 & F3 & F4 & F5 & F6 & F7 & F8 & F9 & F10 & F11).
  assert (Hframe : frame !! "request_id" = Some (JStr reqID)
            ∧ (∀ k, k ≠ "request_id" → frame !! k = dialMsg params !! k)).
  { subst frame. split; [apply lookup_insert_eq|].
    intros k Hk. by rewrite lookup_insert_ne. }
  destruct Hframe as [Hf1 Hf2].
  assert (Hfields : ∀ r s',
            commands (log s') = commands (log s) ++ [("outbound", frame)] →
            match o with
            | Replied body =>
                r = (Some (mkDialResult (reply_success body) (reply_callid body)
                             (<["request_id" := JStr reqID]> body)), None)
            | _ => r = (None, command_outcome o)
            end →
            ∃ r0 s0 frame0,
              Some (r, s') = Some (r0, s0)
              ∧ commands (log s0) = commands (log s) ++ [("outbound", frame0)]
              ∧ frame0 !! "request_id" = Some (JStr reqID)
              ∧ (∀ k, k ≠ "request_id" → frame0 !! k = dialMsg params !! k)
              ∧ frame0 !! "to" = Some (JStr (dpTo params))
              ∧ frame0 !! "from" = Some (JStr (dpFrom params))
              ∧ frame0 !! "channel" = Some (JStr (dpChannel params))
              ∧ frame0 !! "uid" = Some (JStr (dpUID params))
              ∧ frame0 !! "token" = Some (JStr (dpToken params))
              ∧ frame0 !! "region" = Some (JStr (dpRegion params))
              ∧ frame0 !! "timeout" = Some (JStr (dpTimeout params))
              ∧ frame0 !! "sip" = optional_field (dpSip params)
              ∧ frame0 !! "sip_domain" = optional_field (dpSipDomain params)
              ∧ frame0 !! "appid" = optional_field (dpAppID params)
              ∧ match o with
                | Replied body =>
                    r0 = (Some (mkDialResult (reply_success body) (reply_callid body)
                                  (<["request_id" := JStr reqID]> body)), None)
                | _ => r0 = (None, command_outcome o)
                end).
  { intros r s' H1 H2. exists r, s', frame. split; [done|]. split; [done|].
    split; [done|]. split; [done|]. rewrite !Hf2 by done. split_and!; done. }
  destruct o as [e|body|e|cause|]; cbn [sendCommand_returns].
  - apply Hfields; [by rewrite commands_reg_delete|done].
  - destruct (Dial_promote chanKey (<["request_id" := JStr reqID]> body) s2)
      as [res s3] eqn:EP.
    assert (Hres : res = mkDialResult (reply_success body) (reply_callid body)
                           (<["request_id" := JStr reqID]> body)
                   ∧ commands (log s3) = commands (log s2)).
    { destruct (Dial_promote_log chanKey (<["request_id" := JStr reqID]> body) s2)
        as (l3 & Hl3 & Hc3).
      rewrite EP in Hl3. cbn [snd] in Hl3. split.
      - unfold Dial_promote in EP. injection EP as <- _.
        unfold reply_success, reply_callid, obj_field.
        by rewrite lookup_insert_ne.
      - by rewrite Hl3, commands_app, Hc3, app_nil_r. }
    destruct Hres as [-> Hc3].
    apply Hfields; [by rewrite Hc3|done].
  - apply Hfields; [by rewrite commands_reg_delete|done].
  - apply Hfields; [by rewrite commands_reg_delete|done].
  - apply Hfields; [by rewrite commands_reg_delete|done].
Qed.

Lemma Dial_returns_reply_witness :
  let body : Msg := <["error" := JStr "no route"]>
                      (<["data" := JObj (<["success" := JBool false]> ∅)]> ∅) in
  connected client1 = true ∧ is_Some (conn client1)
  ∧ ∃ s' frame,
      Dial dial1 (Replied body) client1
        = Some ((Some (mkDialResult false "" (<["request_id" := JStr "outbound_1"]> body)),
                 None), s')
      ∧ commands (log s') = commands (log client1) ++ [("outbound", frame)]
      ∧ frame !! "to" = Some (JStr "+18005551234")
      ∧ frame !! "sip" = None.
Proof.
  intros body.
  assert (Hc : connected client1 = true) by reflexivity.
  assert (Hn : is_Some (conn client1)) by (by eexists).
  split; [exact Hc|]. split; [exact Hn|].
  destruct (Dial_returns_reply dial1 (Replied body) client1 Hc Hn)
    as (r & s' & frame & E & Hl & _ & _ & Hto & _ & _ & _ & _ & _ & _ & Hsip & _ & _ & Hr).
  exists s', frame. rewrite Hr in E.
  split; [etransitivity; [exact E|vm_compute; reflexivity]|].
  split; [exact Hl|]. split; [exact Hto|exact Hsip].
Defined.

(** ** sendCommand and the pending table *)

(** X20.  [sendCommand] always returns and never leaves its entry in the
    pending table.  Off line it returns "not connected" and touches nothing.
    On a live connection it draws the next request id, and when it returns
    -- with the reply, or with the error of a failed write, a lost
    connection, a cancelled context or the 30 s deadline -- the table holds
    no entry for that id; the entries of the other commands are as before,
    except that a lost connection empties the table.  Apart from the
    counter, the table, the channels, the connected-flag and the log, the
    client is unchanged. *)
Theorem sendCommand_leaves_no_entry (action : string) (msg : Msg) (o : Outcome) (s : Client) :
  ∃ r s',
    sendCommand action msg o s = Some (r, s')
    ∧ command_step s s'
    ∧ (connected s = false ∨ conn s = None → r = (None, Some ENotConnected) ∧ s' = s)
    ∧ (connected s = true → is_Some (conn s) →
         let reqID := reqID_of action (uint64_add (nextReqID s) 1) in
         r = sendCommand_returns reqID o
         ∧ nextReqID s' = uint64_add (nextReqID s) 1
         ∧ pending s' !! reqID = None
         ∧ pending s' = match o with
                        | ReadFails _ => ∅
                        | _ => delete reqID (pending s)
                        end
         ∧ connected s' = match o with ReadFails _ => false | _ => true end).
Proof.
  destruct (connected s) eqn:Hc; [destruct (conn s) as [cn|] eqn:Hn|].
  2,3: rewrite sendCommand_not_connected by auto;
       eexists _, s; split; [reflexivity|]; split; [apply command_step_refl|];
       split; [done|]; try done; by intros _ [? ?].
  destruct (sendCommand_connected action msg o s cn Hc Hn)
    as (s' & ok & l & E & _ & _ & _ & Hq & _ & _ & _ & _ & Hp).
  exists (sendCommand_returns (reqID_of action (uint64_add (nextReqID s) 1)) o), s'.
  split; [exact E|]. split; [by eapply sendCommand_command_step|].
  split; [by intros [?|?]|]. intros _ _ reqID. fold reqID in E, Hp.
  split; [done|]. split; [done|]. split; [done|].
  revert E. unfold sendCommand, sendCommand_issue. rewrite Hc, Hn. cbv zeta.
  fold reqID. cbn [negb].
  set (s0 := set_pending (<[reqID := _]>) _).
  assert (Hs0 : pending s0 = <[reqID := length (chanStore s)]> (pending s)
                ∧ chanStore s0 !! length (chanStore s) = Some []
                ∧ connected s0 = true).
  { subst s0; simpl. by rewrite list_lookup_middle. }
  destruct Hs0 as (Hp0 & Hch0 & Hc0). clearbody s0.
  destruct o as [e|body|e|cause|]; cbv beta iota.
  - intros H; simplify_eq. cbn [pending connected set_pending emit].
    by rewrite Hp0, delete_insert_eq.
  - unfold readLoop_frame, nonempty_field, str_field.
    rewrite lookup_insert_eq. rewrite decide_False by apply reqID_of_nonempty.
    cbn [pending emit]. rewrite Hp0, lookup_insert_eq. unfold chan_send.
    cbn [chanStore set_pending emit]. rewrite Hch0.
    unfold sendCommand_await. cbn [chanStore set_chanStore].
    rewrite list_lookup_insert_eq by (by eapply lookup_lt_Some).
    intros H; simplify_eq. cbn [pending connected set_pending set_chanStore emit].
    by rewrite Hp0, delete_insert_eq.
  - intros H.
    destruct (readLoop_readError_state e (emit (SentCommand action
                (<["request_id" := JStr reqID]> msg) true) s0)) as (Hcon & Hpd & _).
    unfold sendCommand_await in H.
    repeat case_match; simplify_eq; cbn [pending connected set_chanStore];
      by rewrite Hcon, Hpd.
  - unfold sendCommand_await. intros H; simplify_eq.
    cbn [pending connected set_pending emit]. by rewrite Hp0, delete_insert_eq.
  - unfold sendCommand_await. intros H; simplify_eq.
    cbn [pending connected set_pending emit]. by rewrite Hp0, delete_insert_eq.
Qed.

Lemma sendCommand_leaves_no_entry_witness :
  let s := run opsTwo client0 in
  connected s = true ∧ is_Some (conn s)
  ∧ pending s !! "outbound_1" = Some 0%nat
  ∧ ∃ s', sendCommand "send_dtmf" (event "" "C1") TimedOut s
            = Some ((None, Some ECommandTimeout), s')
      ∧ pending s' !! "send_dtmf_3" = None
      ∧ pending s' !! "outbound_1" = Some 0%nat.
Proof.
  intros s.
  assert (Hc : connected s = true) by (vm_compute; reflexivity).
  assert (Hn : is_Some (conn s)) by (exists 7%nat; vm_compute; reflexivity).
  assert (Hp : pending s !! "outbound_1" = Some 0%nat) by (vm_compute; reflexivity).
  split; [exact Hc|]. split; [exact Hn|]. split; [exact Hp|].
  destruct (sendCommand_leaves_no_entry "send_dtmf" (event "" "C1") TimedOut s)
    as (r & s' & E & _ & _ & Hlive).
  destruct (Hlive Hc Hn) as (Hr & _ & Hnone & Hpd & _).
  exists s'. rewrite Hr in E.
  assert (Hid : reqID_of "send_dtmf" (uint64_add (nextReqID s) 1) = "send_dtmf_3")
    by (vm_compute; reflexivity).
  rewrite Hid in Hnone, Hpd.
  split; [exact E|]. split; [exact Hnone|].
  rewrite Hpd, lookup_delete_ne by discriminate. exact Hp.
Defined.

(** ** The parameters on the wire *)

Lemma call_command_params cmd o s :
  ∃ msg,
    call_command cmd o s =
      match sendCommand (call_command_action cmd) msg o s with
      | None => None
      | Some (r, s1) => Some (command_error r, s1)
      end
    ∧ match cmd with
      | CReject _ reason =>
          msg !! "reason" = Some (JStr reason) ∧ msg !! "appid" = None
      | CBridge _ creds =>
          msg !! "token" = Some (JStr (bpToken creds))
          ∧ msg !! "channel" = Some (JStr (bpChannel creds))
          ∧ msg !! "uid" = Some (JStr (bpUID creds))
          ∧ msg !! "appid" = optional_field (bpAppID creds)
          ∧ msg !! "sdk_options" = optional_field (bpSDKOptions creds)
          ∧ msg !! "audio_scenario" = optional_field (bpAudioScenario creds)
      | CUnbridge callid => msg !! "appid" = cached_appid callid s
      | CTransfer callid destination leg =>
          msg !! "destination" = Some (JStr destination)
          ∧ msg !! "leg" = optional_field leg
          ∧ msg !! "appid" = cached_appid callid s
      | CSendDTMF callid digits =>
          msg !! "digits" = Some (JStr digits)
          ∧ msg !! "appid" = cached_appid callid s
      end.
Proof.
  destruct cmd as [callid reason|callid creds|callid|callid dest leg|callid digits];
    simpl.
  - exists (rejectMsg callid reason). split; [done|]. unfold rejectMsg.
    by simplify_map_eq.
  - exists (bridgeMsg callid creds). split; [done|].
    unfold bridgeMsg, optional_field. repeat case_decide; by simplify_map_eq.
  - exists (unbridgeMsg callid s). split; [done|].
    by destruct (later_commands_carry_cached_appid callid "" "" "" s) as (-> & _).
  - exists (transferMsg callid dest leg s). split; [done|].
    by destruct (later_commands_carry_cached_appid callid dest leg "" s)
      as (_ & -> & _ & -> & -> & _).
  - exists (sendDTMFMsg callid digits s). split; [done|].
    by destruct (later_commands_carry_cached_appid callid "" "" digits s)
      as (_ & _ & -> & _ & _ & -> & _).
Qed.

(** X21.  What the frames of the call commands carry besides action, call id
    and request id.  [Reject] sends its reason and never an appid.  [Bridge]
    sends token, channel and uid, and appid, sdk_options and audio_scenario
    exactly when they are not empty: its appid is the one of its parameters,
    never the one cached in the registry, so a [Bridge] without appid sends
    none even for a call whose record has one.  [Unbridge], [Transfer] and
    [SendDTMF] send the cached appid of the call, if the registry holds the
    call and its appid is not empty; [Transfer] also sends the destination,
    and the leg when it is not empty; [SendDTMF] the digits. *)
Theorem call_command_frame_fields (cmd : CallCommand) (o : Outcome) (s : Client) :
  connected s = true → is_Some (conn s) →
  ∃ r s' frame,
    call_command cmd o s = Some (r, s')
    ∧ commands (log s') = commands (log s) ++ [(call_command_action cmd, frame)]
    ∧ match cmd with
      | CReject _ reason =>
          frame !! "reason" = Some (JStr reason) ∧ frame !! "appid" = None
      | CBridge _ creds =>
          frame !! "token" = Some (JStr (bpToken creds))
          ∧ frame !! "channel" = Some (JStr (bpChannel creds))
          ∧ frame !! "uid" = Some (JStr (bpUID creds))
          ∧ frame !! "appid" = optional_field (bpAppID creds)
          ∧ frame !! "sdk_options" = optional_field (bpSDKOptions creds)
          ∧ frame !! "audio_scenario" = optional_field (bpAudioScenario creds)
      | CUnbridge callid => frame !! "appid" = cached_appid callid s
      | CTransfer callid destination leg =>
          frame !! "destination" = Some (JStr destination)
          ∧ frame !! "leg" = optional_field leg
          ∧ frame !! "appid" = cached_appid callid s
      | CSendDTMF callid digits =>
          frame !! "digits" = Some (JStr digits)
          ∧ frame !! "appid" = cached_appid callid s
      end.
Proof.
  intros Hc Hn. destruct (call_command_params cmd o s) as (msg & -> & Hm).
  destruct (plain_command (call_command_action cmd) msg o s)
    as (r & s' & -> & _ & _ & Hlive).
  destruct (Hlive Hc Hn) as [_ Hlog].
  eexists r, s', _. split; [done|]. split; [exact Hlog|].
  destruct cmd; rewrite !lookup_insert_ne by done; exact Hm.
Qed.

Lemma call_command_frame_fields_witness :
  let s := run (opsDialled ++ [OpAcceptUpdate "C1" "APP2"]) client0 in
  let creds := mkBridgeParams "T" "ch1" "100" "" "" "voice" in
  connected s = true ∧ is_Some (conn s)
  ∧ cached_appid "C1" s = Some (JStr "APP2")
  ∧ ∃ r s' frame,
      call_command (CBridge "C1" creds) (Replied ∅) s = Some (r, s')
      ∧ commands (log s') = commands (log s) ++ [("bridge", frame)]
      ∧ frame !! "appid" = None
      ∧ frame !! "audio_scenario" = Some (JStr "voice").
Proof.
  intros s creds.
  assert (Hc : connected s = true) by (vm_compute; reflexivity).
  assert (Hn : is_Some (conn s)) by (exists 7%nat; vm_compute; reflexivity).
  assert (Ha : cached_appid "C1" s = Some (JStr "APP2")) by (vm_compute; reflexivity).
  split; [exact Hc|]. split; [exact Hn|]. split; [exact Ha|].
  destruct (call_command_frame_fields (CBridge "C1" creds) (Replied ∅) s Hc Hn)
    as (r & s' & frame & E & Hl & _ & _ & _ & H4 & _ & H6).
  exists r, s', frame. split; [exact E|]. split; [exact Hl|]. split; [exact H4|exact H6].
Defined.

(** ** The read loop, frame by frame *)

Lemma readLoop_app l1 l2 : ∀ s,
  readLoop (l1 ++ l2) s =
    match readLoop l1 s with
    | Reading s' => readLoop l2 s'
    | other => other
    end.
Proof.
  induction l1 as [|i l1 IH]; intros s; simpl.
  - destruct (done s) eqn:Hd; [|done]. by rewrite readLoop_done.
  - destruct (done s); [done|]. destruct i as [e|e|parsed]; [done|apply IH|].
    destruct (readLoop_frame parsed s); [apply IH|done..].
Qed.

(** X22.  The read loop takes the frames one at a time, in the order the
    transport delivers them, and a longer input is processed as its first
    part followed by the rest.  A frame that is not valid JSON is skipped
    without any effect -- no callback, not even [OnError] -- and the loop
    goes on with the next frame.  A failed read ends the loop: nothing that
    the transport would deliver after it is ever read. *)
Theorem readLoop_frame_by_frame (l1 l2 : list Read) (e : string) (s : Client) :
  readLoop (l1 ++ l2) s
    = match readLoop l1 s with
      | Reading s' => readLoop l2 s'
      | other => other
      end
  ∧ readLoop l1 s = readLoop (filter (λ i, is_invalid i = false) l1) s
  ∧ readLoop (l1 ++ ReadErr e :: l2) s = readLoop (l1 ++ [ReadErr e]) s.
Proof.
  split; [apply readLoop_app|]. split.
  { revert s. induction l1 as [|i l1 IH]; intros s; [done|].
    destruct i as [e'|e'|parsed].
    - rewrite filter_cons_True by done. simpl. by destruct (done s).
    - rewrite filter_cons_False by done. simpl. rewrite <-IH.
      destruct (done s) eqn:Hd; [|done]. by rewrite readLoop_done.
    - rewrite filter_cons_True by done. simpl. destruct (done s); [done|].
      destruct (readLoop_frame parsed s); [apply IH|done..]. }
  rewrite !readLoop_app. destruct (readLoop l1 s) as [s0|s0|s0]; [|done..].
  simpl. by destruct (done s0).
Qed.
